(** * Futex-based synchronization objects (dlls/ntdll/unix/fsync.c)

    A shallow embedding of the process-local part of fsync.c: the feature
    gate [do_fsync], the shared page pool [get_shm], the handle cache
    [add_to_list] / [get_cached_object], the creation protocol
    [create_fsync] and [fsync_init].

    File-scope variables of the C file are the fields of [state]; every
    function is a computation in the monad [M], whose outcomes are a normal
    return, a call to [exit], or a fault (undefined behaviour of the C
    program: division by zero, signed overflow, access through NULL or
    outside an array).  Answers of the operating system, the C library and
    the wineserver are explicit arguments ([probe_env], [shm_env], ...). *)

From Stdlib Require Import ZArith Lia.
From stdpp Require Import base numbers list strings gmap.

#[local] Open Scope Z_scope.

(** ** C data model *)

(** fsync.c is built for 32-bit and for 64-bit Unix targets; the width of
    pointers, [long] and [UINT_PTR] follows the target. *)
Inductive data_model : Set := ILP32 | LP64.

Definition ptr_bits (dm : data_model) : Z :=
  match dm with ILP32 => 32 | LP64 => 64 end.

Definition ptr_modulus (dm : data_model) : Z := 2 ^ ptr_bits dm.

(** [(UINT_PTR)x], [(unsigned long)x]: reduction to the pointer width. *)
Definition to_uintptr (dm : data_model) (x : Z) : Z := x mod ptr_modulus dm.

(** [unsigned int] arithmetic wraps modulo 2^32. *)
Definition to_uint (x : Z) : Z := x mod 2 ^ 32.

Definition INT_MIN : Z := - 2 ^ 31.
Definition INT_MAX : Z := 2 ^ 31 - 1.

(** Conversion of a wider integer to [int] (two's complement wrap). *)
Definition to_int (x : Z) : Z := (x + 2 ^ 31) mod 2 ^ 32 - 2 ^ 31.

(** The pointer value -1, which [mmap] and [anon_mmap_alloc] return on
    failure. *)
Definition MAP_FAILED (dm : data_model) : Z := ptr_modulus dm - 1.

(** errno.h on Linux. *)
Definition ENOSYS : Z := 38.
Definition ENOENT : Z := 2.

(** ntstatus.h: the two status codes fsync.c names, as unsigned 32-bit
    values; every other nonzero status is a failure for [create_fsync]. *)
Definition STATUS_SUCCESS : Z := 0.
Definition STATUS_OBJECT_NAME_EXISTS : Z := 0x40000000.
Definition STATUS_NOT_IMPLEMENTED : Z := 0xC0000002.

(** ** Object records *)

(** [enum fsync_type]. *)
Definition FSYNC_SEMAPHORE : Z := 1.

(** [struct fsync]: a type tag and a pointer into the shm section. *)
Record fsync : Set := mk_fsync { type : Z; shm : Z }.

#[export] Instance fsync_eq_dec : EqDecision fsync.
Proof. solve_decision. Defined.

(** [sizeof(struct fsync)]: an [int]-sized enum and a pointer, aligned. *)
Definition sizeof_fsync (dm : data_model) : Z :=
  match dm with ILP32 => 8 | LP64 => 16 end.

(** [sizeof(struct semaphore)], fixed by the C_ASSERT of the source. *)
Definition sizeof_semaphore : Z := 8.

Definition FSYNC_LIST_BLOCK_SIZE (dm : data_model) : Z := 65536 / sizeof_fsync dm.
Definition FSYNC_LIST_ENTRIES : Z := 256.

(** A block of the handle cache; a fresh block (static storage, or an
    anonymous mapping) is zero-filled. *)
Definition zero_fsync : fsync := {| type := 0; shm := 0 |}.

Definition zero_block (dm : data_model) : list fsync :=
  replicate (Z.to_nat (FSYNC_LIST_BLOCK_SIZE dm)) zero_fsync.

(** ** Process state *)

(** What the process writes to its debug channels and asks of the outside
    world, in program order (most recent first). *)
Inductive event : Set :=
| EvERR (msg : string)
| EvFIXME (msg : string)
| EvTRACE (msg : string)
| EvFutexWaitMultiple (count : Z)
| EvGetenv (name : string)
| EvMmap (entry : Z) (addr : Z)
| EvMunmap (addr : Z)
| EvServerCall (access low high : Z).

#[export] Instance event_eq_dec : EqDecision event.
Proof. solve_decision. Defined.

(** The name of the shared memory file, as the two [sprintf] formats of
    [fsync_init] build it from the inode number of the config directory. *)
Inductive shm_name_t : Set :=
| NameUnset
| NameWide (hi lo : Z)   (* "/wine-%lx%08lx-fsync" *)
| NameShort (ino : Z).   (* "/wine-%lx-fsync" *)

(** The file-scope and function-static variables of fsync.c.  A block of
    [fsync_list] is reachable only through its slot of [fsync_list] (the
    initial block through slot 0), so a slot holds the block itself;
    [None] is a NULL pointer, also for [shm_addrs]. *)
Record state : Type := mk_state {
  do_fsync_cached : Z;
  shm_name : shm_name_t;
  shm_fd : Z;
  shm_addrs : option (list Z);
  shm_addrs_size : Z;
  pagesize : Z;
  fsync_list : list (option (list fsync));
  log : list event
}.

(** Static storage is zero-initialised; [do_fsync_cached] starts at -1. *)
Definition initial_state : state :=
  {| do_fsync_cached := -1;
     shm_name := NameUnset;
     shm_fd := 0;
     shm_addrs := None;
     shm_addrs_size := 0;
     pagesize := 0;
     fsync_list := replicate (Z.to_nat FSYNC_LIST_ENTRIES) None;
     log := [] |}.

Definition set_do_fsync_cached (v : Z) (s : state) : state :=
  {| do_fsync_cached := v; shm_name := shm_name s; shm_fd := shm_fd s;
     shm_addrs := shm_addrs s; shm_addrs_size := shm_addrs_size s;
     pagesize := pagesize s; fsync_list := fsync_list s; log := log s |}.

Definition set_shm_name (v : shm_name_t) (s : state) : state :=
  {| do_fsync_cached := do_fsync_cached s; shm_name := v; shm_fd := shm_fd s;
     shm_addrs := shm_addrs s; shm_addrs_size := shm_addrs_size s;
     pagesize := pagesize s; fsync_list := fsync_list s; log := log s |}.

Definition set_shm_fd (v : Z) (s : state) : state :=
  {| do_fsync_cached := do_fsync_cached s; shm_name := shm_name s; shm_fd := v;
     shm_addrs := shm_addrs s; shm_addrs_size := shm_addrs_size s;
     pagesize := pagesize s; fsync_list := fsync_list s; log := log s |}.

Definition set_shm_addrs (v : option (list Z)) (s : state) : state :=
  {| do_fsync_cached := do_fsync_cached s; shm_name := shm_name s; shm_fd := shm_fd s;
     shm_addrs := v; shm_addrs_size := shm_addrs_size s;
     pagesize := pagesize s; fsync_list := fsync_list s; log := log s |}.

Definition set_shm_addrs_size (v : Z) (s : state) : state :=
  {| do_fsync_cached := do_fsync_cached s; shm_name := shm_name s; shm_fd := shm_fd s;
     shm_addrs := shm_addrs s; shm_addrs_size := v;
     pagesize := pagesize s; fsync_list := fsync_list s; log := log s |}.

Definition set_pagesize (v : Z) (s : state) : state :=
  {| do_fsync_cached := do_fsync_cached s; shm_name := shm_name s; shm_fd := shm_fd s;
     shm_addrs := shm_addrs s; shm_addrs_size := shm_addrs_size s;
     pagesize := v; fsync_list := fsync_list s; log := log s |}.

Definition set_fsync_list (v : list (option (list fsync))) (s : state) : state :=
  {| do_fsync_cached := do_fsync_cached s; shm_name := shm_name s; shm_fd := shm_fd s;
     shm_addrs := shm_addrs s; shm_addrs_size := shm_addrs_size s;
     pagesize := pagesize s; fsync_list := v; log := log s |}.

Definition add_event (e : event) (s : state) : state :=
  {| do_fsync_cached := do_fsync_cached s; shm_name := shm_name s; shm_fd := shm_fd s;
     shm_addrs := shm_addrs s; shm_addrs_size := shm_addrs_size s;
     pagesize := pagesize s; fsync_list := fsync_list s; log := e :: log s |}.

(** ** The monad of C computations *)

Inductive outcome (A : Type) : Type :=
| Ret (a : A) (s : state)        (* the function returned [a] *)
| Exit (code : Z) (s : state)    (* [exit(code)] was called *)
| Fault (s : state).             (* undefined behaviour; [s] is the state reached *)

Arguments Ret {A} a s.
Arguments Exit {A} code s.
Arguments Fault {A} s.

Definition M (A : Type) : Type := state -> outcome A.

Definition ret {A} (a : A) : M A := fun s => Ret a s.

Definition bind {A B} (m : M A) (k : A -> M B) : M B := fun s =>
  match m s with
  | Ret a s' => k a s'
  | Exit c s' => Exit c s'
  | Fault s' => Fault s'
  end.

Notation "'do' x <- m ;; k" := (bind m (fun x => k))
  (at level 10, x name, m at level 99, k at level 200).

Definition gets {A} (f : state -> A) : M A := fun s => Ret (f s) s.
Definition modify (f : state -> state) : M unit := fun s => Ret tt (f s).
Definition fault {A} : M A := fun s => Fault s.
Definition exit {A} (code : Z) : M A := fun s => Exit code s.
Definition emit (e : event) : M unit := modify (add_event e).

(** [when c m]: an [if] without [else]. *)
Definition when (c : bool) (m : M unit) : M unit := if c then m else ret tt.

(** An [int] result outside the range of [int] is signed overflow. *)
Definition int_result (z : Z) : M Z :=
  if (INT_MIN <=? z) && (z <=? INT_MAX) then ret z else fault.

(** [a[i]] for a C array held as a list: [None] outside the array. *)
Definition index {A} (l : list A) (i : Z) : option A :=
  if i <? 0 then None else l !! Z.to_nat i.

(** [a[i] = x]; a no-op outside the array (callers check the bounds first). *)
Definition update {A} (l : list A) (i : Z) (x : A) : list A :=
  if i <? 0 then l else <[Z.to_nat i := x]> l.

(** ** Feature gate *)

(** What the first call of [do_fsync] learns from outside: the value of the
    environment variable; the C library's [atoi], with the value it stores
    in [errno] for a string, if it stores one (ERANGE on overflow); and
    [errno] as it stands after the probing system call. *)
Record probe_env : Type := mk_probe_env {
  getenv_WINEFSYNC : option string;
  atoi : string -> Z;
  atoi_errno : string -> option Z;
  errno_after_probe : Z
}.

(** [futex_wait_multiple( futexes, count, timeout )]: the raw system call;
    [do_fsync] ignores its result and reads [errno]. *)
Definition futex_wait_multiple (count : Z) : M unit :=
  emit (EvFutexWaitMultiple count).

(** [errno] as line 83 reads it, after [atoi] has run on the value. *)
Definition errno_read (e : probe_env) (value : string) : Z :=
  default (errno_after_probe e) (atoi_errno e value).

(** The value of
    [getenv("WINEFSYNC") && atoi(getenv("WINEFSYNC")) && errno != ENOSYS]. *)
Definition fsync_enabled_value (e : probe_env) : Z :=
  match getenv_WINEFSYNC e with
  | None => 0
  | Some v =>
      if atoi e v =? 0 then 0
      else if errno_read e v =? ENOSYS then 0 else 1
  end.

(** The evaluation of that expression, left to right: [getenv] is called
    once, and a second time for [atoi] when the first call found the
    variable. *)
Definition eval_fsync_enabled (e : probe_env) : M Z :=
  do _ <- emit (EvGetenv "WINEFSYNC");;
  match getenv_WINEFSYNC e with
  | None => ret 0
  | Some v =>
      do _ <- emit (EvGetenv "WINEFSYNC");;
      if atoi e v =? 0 then ret 0
      else if errno_read e v =? ENOSYS then ret 0 else ret 1
  end.

(** [do_fsync] (the [__linux__] branch). *)
Definition do_fsync (e : probe_env) : M Z :=
  do cached <- gets do_fsync_cached;;
  do _ <- when (cached =? -1)
            (do _ <- futex_wait_multiple 0;;
             do v <- eval_fsync_enabled e;;
             modify (set_do_fsync_cached v));;
  gets do_fsync_cached.

(** The events of the first call: the probe, then one [getenv], or two
    when the variable is set. *)
Definition first_call_events (e : probe_env) : list event :=
  match getenv_WINEFSYNC e with
  | Some _ => [EvGetenv "WINEFSYNC"; EvGetenv "WINEFSYNC"; EvFutexWaitMultiple 0]
  | None => [EvGetenv "WINEFSYNC"; EvFutexWaitMultiple 0]
  end.

(** Number of [getenv] calls of the first call. *)
Definition first_call_getenvs (e : probe_env) : nat :=
  match getenv_WINEFSYNC e with Some _ => 2%nat | None => 1%nat end.

(** ** Shared page pool *)

(** Answers of the C library and the kernel to one call of [get_shm]:
    whether [realloc] succeeds, what the newly allocated tail of the array
    holds before the [memset], and what [mmap] returns. *)
Record shm_env : Type := mk_shm_env {
  realloc_ok : bool;
  realloc_junk : Z;
  mmap_ret : Z
}.

(** The quotient and remainder of an [unsigned int] by the [long]
    [pagesize].  With a 64-bit [long] both operands are converted to
    [long]; with a 32-bit [long] both are converted to [unsigned long].
    Division by zero is a fault. *)
Definition long_operand (dm : data_model) (ps : Z) : Z :=
  match dm with LP64 => ps | ILP32 => to_uintptr ILP32 ps end.

Definition div_by_long (dm : data_model) (n ps : Z) : M Z :=
  if long_operand dm ps =? 0 then fault
  else ret (Z.quot n (long_operand dm ps)).

Definition rem_by_long (dm : data_model) (n ps : Z) : M Z :=
  if long_operand dm ps =? 0 then fault
  else ret (Z.rem n (long_operand dm ps)).

(** [realloc( shm_addrs, new_size * sizeof(shm_addrs[0]) )]: on success the
    old elements are kept and the rest is unspecified; on failure NULL. *)
Definition realloc (e : shm_env) (old : option (list Z)) (new_size : Z)
  : option (list Z) :=
  if realloc_ok e then
    let l := default [] old in
    Some (take (Z.to_nat new_size)
            (l ++ replicate (Z.to_nat new_size - length l)%nat (realloc_junk e)))
  else None.

(** [memset( a + from, 0, count * sizeof(a[0]) )]: [None] when [a] is NULL or
    the range leaves the array. *)
Definition memset_zero (a : option (list Z)) (from count : Z)
  : option (list Z) :=
  match a with
  | None => None
  | Some l =>
      if (0 <=? from) && (0 <=? count) && (from + count <=? Z.of_nat (length l))
      then Some (take (Z.to_nat from) l ++ replicate (Z.to_nat count) 0
                   ++ drop (Z.to_nat (from + count)) l)
      else None
  end.

(** [shm_addrs[entry]], read. *)
Definition load_shm_addr (entry : Z) : M Z := fun s =>
  match shm_addrs s with
  | None => Fault s
  | Some l =>
      match index l entry with
      | Some a => Ret a s
      | None => Fault s
      end
  end.

(** [__sync_val_compare_and_swap( &shm_addrs[entry], expected, new )]. *)
Definition cas_shm_addr (entry expected new : Z) : M Z := fun s =>
  match shm_addrs s with
  | None => Fault s
  | Some l =>
      match index l entry with
      | Some old =>
          if old =? expected
          then Ret old (set_shm_addrs (Some (update l entry new)) s)
          else Ret old s
      | None => Fault s
      end
  end.

(** The growth of the array, lines 125-133 of fsync.c. *)
Definition grow_shm_addrs (e : shm_env) (entry : Z) : M unit :=
  do size <- gets shm_addrs_size;;
  do twice <- int_result (size * 2);;
  do next <- int_result (entry + 1);;
  let new_size := Z.max twice next in
  do old <- gets shm_addrs;;
  let a := realloc e old new_size in
  do _ <- modify (set_shm_addrs a);;
  do _ <- when (bool_decide (a = None))
            (emit (EvERR "Failed to grow shm_addrs array to size %d."));;
  match memset_zero a size (new_size - size) with
  | None => fault
  | Some a' =>
      do _ <- modify (set_shm_addrs (Some a'));;
      modify (set_shm_addrs_size new_size)
  end.

(** The first mapping of a page, lines 135-145 of fsync.c. *)
Definition map_page (dm : data_model) (e : shm_env) (entry : Z) : M unit :=
  do cur <- load_shm_addr entry;;
  when (cur =? 0)
    (let addr := mmap_ret e in
     do _ <- emit (EvMmap entry addr);;
     do _ <- when (addr =? MAP_FAILED dm)
               (emit (EvERR "Failed to map page %d (offset %#lx)."));;
     do _ <- emit (EvTRACE "Mapping page %d at %p.");;
     do old <- cas_shm_addr entry 0 addr;;
     when (negb (old =? 0)) (emit (EvMunmap addr))).

(** [get_shm( idx )]; [idx] is an [unsigned int]. *)
Definition get_shm (dm : data_model) (e : shm_env) (idx : Z) : M Z :=
  do ps <- gets pagesize;;
  do q <- div_by_long dm (to_uint (to_uint idx * 8)) ps;;
  do r <- rem_by_long dm (to_uint (to_uint idx * 8)) ps;;
  let entry := to_int q in
  let offset := to_int r in
  do size <- gets shm_addrs_size;;
  do _ <- when (entry >=? size) (grow_shm_addrs e entry);;
  do _ <- map_page dm e entry;;
  do a <- load_shm_addr entry;;
  ret (to_uintptr dm (a + offset)).

(** ** Handle cache *)

(** The static array [fsync_list_initial_block]: zero until it is linked
    into slot 0 of [fsync_list], and used only through that slot. *)
Definition fsync_list_initial_block (dm : data_model) : list fsync := zero_block dm.

(** [handle_to_index( handle, &entry )]: the pair of [*entry] and the
    returned index, both [UINT_PTR]. *)
Definition handle_to_index (dm : data_model) (handle : Z) : Z * Z :=
  let idx := to_uintptr dm (Z.shiftr (to_uintptr dm handle) 2 - 1) in
  (idx / FSYNC_LIST_BLOCK_SIZE dm, idx mod FSYNC_LIST_BLOCK_SIZE dm).

(** [fsync_list[entry]], read and written. *)
Definition load_block (entry : Z) : M (option (list fsync)) := fun s =>
  match index (fsync_list s) entry with
  | Some b => Ret b s
  | None => Fault s
  end.

Definition store_block (entry : Z) (b : option (list fsync)) : M unit := fun s =>
  match index (fsync_list s) entry with
  | Some _ => Ret tt (set_fsync_list (update (fsync_list s) entry b) s)
  | None => Fault s
  end.

(** [fsync_list[entry][idx]], read; a fault through a NULL block or outside
    the block. *)
Definition load_record (entry idx : Z) : M fsync :=
  do b <- load_block entry;;
  match b with
  | None => fault
  | Some blk =>
      match index blk idx with
      | Some r => ret r
      | None => fault
      end
  end.

Definition store_record (entry idx : Z) (r : fsync) : M unit :=
  do b <- load_block entry;;
  match b with
  | None => fault
  | Some blk =>
      match index blk idx with
      | Some _ => store_block entry (Some (update blk idx r))
      | None => fault
      end
  end.

(** [__sync_val_compare_and_swap( &fsync_list[entry][idx].type, expected, new )]. *)
Definition cas_type (entry idx expected new : Z) : M Z :=
  do r <- load_record entry idx;;
  do _ <- when (type r =? expected)
            (store_record entry idx {| type := new; shm := shm r |});;
  ret (type r).

(** [fsync_list[entry][idx].shm = p]. *)
Definition store_shm (entry idx p : Z) : M unit :=
  do r <- load_record entry idx;;
  store_record entry idx {| type := type r; shm := p |}.

(** [add_to_list( handle, type, shm )].  [anon_mmap_alloc_ok] tells whether
    the allocation of a new block succeeds, should one be needed.  The
    result is the position of the record ([&fsync_list[entry][idx]]) or
    [None] for FALSE. *)
Definition add_to_list (dm : data_model) (anon_mmap_alloc_ok : bool)
    (handle ty p : Z) : M (option (Z * Z)) :=
  let '(entry, idx) := handle_to_index dm handle in
  if entry >=? FSYNC_LIST_ENTRIES then
    do _ <- emit (EvFIXME "too many allocated handles, not caching %p");;
    ret None
  else
    do b <- load_block entry;;
    do allocated <-
      match b with
      | Some _ => ret true
      | None =>
          if entry =? 0 then
            do _ <- store_block 0 (Some (fsync_list_initial_block dm));;
            ret true
          else if anon_mmap_alloc_ok then
            do _ <- store_block entry (Some (zero_block dm));;
            ret true
          else ret false
      end;;
    if allocated then
      do old <- cas_type entry idx 0 ty;;
      do _ <- when (old =? 0) (store_shm entry idx p);;
      ret (Some (entry, idx))
    else ret None.

(** [get_cached_object( handle )]. *)
Definition get_cached_object (dm : data_model) (handle : Z) : M (option (Z * Z)) :=
  let '(entry, idx) := handle_to_index dm handle in
  if entry >=? FSYNC_LIST_ENTRIES then ret None
  else
    do b <- load_block entry;;
    match b with
    | None => ret None
    | Some _ =>
        do r <- load_record entry idx;;
        if type r =? 0 then ret None else ret (Some (entry, idx))
    end.

(** What a caller reads through the pointer [get_cached_object] returned. *)
Definition deref (s : state) (ref : Z * Z) : option fsync :=
  match index (fsync_list s) (fst ref) with
  | Some (Some blk) => index blk (snd ref)
  | _ => None
  end.

(** The record a reader obtains for [handle] in state [s]: the result of
    [get_cached_object] followed through. *)
Definition read_cached (dm : data_model) (handle : Z) (s : state) : option fsync :=
  match get_cached_object dm handle s with
  | Ret (Some ref) s' => deref s' ref
  | _ => None
  end.

(** *** The publication of a record, one shared-memory access at a time

    [add_to_list] makes two writes that other threads can see: the
    compare-and-swap of the type field (line 188) and the store of the shm
    pointer (line 189).  [add_to_list_cas] is the call up to and including
    the compare-and-swap; its result tells where the record is and whether
    the swap took place.  [add_to_list_store] is the rest. *)
Definition add_to_list_cas (dm : data_model) (anon_mmap_alloc_ok : bool)
    (handle ty : Z) : M (option (Z * Z * bool)) :=
  let '(entry, idx) := handle_to_index dm handle in
  if entry >=? FSYNC_LIST_ENTRIES then
    do _ <- emit (EvFIXME "too many allocated handles, not caching %p");;
    ret None
  else
    do b <- load_block entry;;
    do allocated <-
      match b with
      | Some _ => ret true
      | None =>
          if entry =? 0 then
            do _ <- store_block 0 (Some (fsync_list_initial_block dm));;
            ret true
          else if anon_mmap_alloc_ok then
            do _ <- store_block entry (Some (zero_block dm));;
            ret true
          else ret false
      end;;
    if allocated then
      do old <- cas_type entry idx 0 ty;;
      ret (Some (entry, idx, old =? 0))
    else ret None.

Definition add_to_list_store (pending : option (Z * Z * bool)) (p : Z)
  : M (option (Z * Z)) :=
  match pending with
  | None => ret None
  | Some (entry, idx, won) =>
      do _ <- when won (store_shm entry idx p);;
      ret (Some (entry, idx))
  end.

(** ** Object creation protocol *)

(** The reply of the wineserver to a [create_fsync] request;
    [reply_handle] is the handle as [wine_server_ptr_handle] converts it. *)
Record server_reply : Set := mk_server_reply {
  reply_status : Z;
  reply_handle : Z;
  reply_shm_idx : Z
}.

(** The outside world during one call of [create_fsync]: the status of
    [alloc_object_attributes], the server's reply, and what [get_shm] and
    [add_to_list] meet. *)
Record create_env : Type := mk_create_env {
  alloc_object_attributes_status : Z;
  server : server_reply;
  shm_os : shm_env;
  anon_mmap_alloc_ret : bool
}.

Definition status_ok (ret_ : Z) : bool :=
  (ret_ =? 0) || (ret_ =? STATUS_OBJECT_NAME_EXISTS).

(** [create_fsync( type, handle, access, attr, low, high )]: the returned
    status and the value written to [*handle], if any. *)
Definition create_fsync (dm : data_model) (e : create_env)
    (ty access low high : Z) : M (Z * option Z) :=
  if negb (alloc_object_attributes_status e =? 0)
  then ret (alloc_object_attributes_status e, None)
  else
    do _ <- emit (EvServerCall access low high);;
    let ret_ := reply_status (server e) in
    if status_ok ret_ then
      let handle := reply_handle (server e) in
      let shm_idx := reply_shm_idx (server e) in
      do p <- get_shm dm (shm_os e) shm_idx;;
      do _ <- add_to_list dm (anon_mmap_alloc_ret e) handle ty p;;
      do _ <- emit (EvTRACE "-> handle %p, shm index %d.");;
      ret (ret_, Some handle)
    else ret (ret_, None).

(** [fsync_create_semaphore( handle, access, attr, initial, max )]. *)
Definition fsync_create_semaphore (dm : data_model) (e : create_env)
    (access initial max : Z) : M (Z * option Z) :=
  do _ <- emit (EvTRACE "name %s, initial %d, max %d.");;
  create_fsync dm e FSYNC_SEMAPHORE access initial max.

(** ** Initialisation *)

(** The outside world during [fsync_init]: what [do_fsync] sees, what the
    probing [create_fsync] meets, the results of [stat] ([st_ino] is the
    inode field of the buffer after the call), of [shm_open] (with [errno]
    on failure), of [sysconf] and of [calloc]. *)
Record init_env : Type := mk_init_env {
  gate : probe_env;
  probe_create : create_env;
  stat_ok : bool;
  st_ino : Z;
  shm_open_ret : Z;
  shm_open_errno : Z;
  sysconf_pagesize : Z;
  calloc_ok : bool
}.

Definition diag_mismatch : string :=
  "Server is running with WINEFSYNC but this process is not, please enable WINEFSYNC or restart wineserver.".

Definition diag_no_shm : string :=
  "Failed to open fsync shared memory file; make sure no stale wineserver instances are running without WINEFSYNC.".

(** The name of the shared file, from the inode number. *)
Definition make_shm_name (dm : data_model) (ino : Z) : shm_name_t :=
  if negb (ino =? to_uintptr dm ino)
  then NameWide (to_uintptr dm (Z.shiftr ino 32)) (to_uintptr dm ino)
  else NameShort (to_uintptr dm ino).

(** [fsync_init()]. *)
Definition fsync_init (dm : data_model) (e : init_env) : M unit :=
  do enabled <- do_fsync (gate e);;
  if enabled =? 0 then
    do r <- create_fsync dm (probe_create e) 0 0 0 0;;
    if negb (fst r =? STATUS_NOT_IMPLEMENTED) then
      do _ <- emit (EvERR diag_mismatch);;
      exit 1
    else ret tt
  else
    do _ <- when (negb (stat_ok e)) (emit (EvERR "Cannot stat %s"));;
    do _ <- modify (set_shm_name (make_shm_name dm (st_ino e)));;
    do _ <- modify (set_shm_fd (shm_open_ret e));;
    if shm_open_ret e =? -1 then
      do _ <- (if shm_open_errno e =? ENOENT
               then emit (EvERR diag_no_shm)
               else emit (EvERR "Failed to initialize shared memory: %s"));;
      exit 1
    else
      do _ <- modify (set_pagesize (sysconf_pagesize e));;
      do _ <- modify (set_shm_addrs
                        (if calloc_ok e then Some (replicate 128 0) else None));;
      modify (set_shm_addrs_size 128).

(** ** Two threads mapping the same page

    Lines 135-147 of [get_shm], for threads that share the array slot
    [shm_addrs[entry]] (the array already holds the slot, so no thread
    takes the growth branch).  A thread advances by one access to shared
    memory or one system call at a time. *)
Inductive shm_pc : Set :=
| AtCheck                (* line 135: about to test [shm_addrs[entry]] *)
| AtMmap                 (* line 137: about to call [mmap] *)
| AtCas (addr : Z)       (* line 143: about to compare-and-swap *)
| AtMunmap (addr : Z)    (* line 144: lost, about to call [munmap] *)
| AtReturn               (* line 147: about to read the slot and return *)
| Returned (p : Z).

Inductive tid : Set := T1 | T2.

(** The slot, the pages of the shared file this process has mapped, and
    where each thread stands. *)
Record shm_race : Type := mk_shm_race {
  slot : Z;
  mappings : gset Z;
  thread1 : shm_pc;
  thread2 : shm_pc
}.

Definition thread_pc (t : tid) (c : shm_race) : shm_pc :=
  match t with T1 => thread1 c | T2 => thread2 c end.

Definition set_thread (t : tid) (pc : shm_pc) (c : shm_race) : shm_race :=
  match t with
  | T1 => {| slot := slot c; mappings := mappings c; thread1 := pc; thread2 := thread2 c |}
  | T2 => {| slot := slot c; mappings := mappings c; thread1 := thread1 c; thread2 := pc |}
  end.

Definition set_slot (v : Z) (c : shm_race) : shm_race :=
  {| slot := v; mappings := mappings c; thread1 := thread1 c; thread2 := thread2 c |}.

Definition set_mappings (m : gset Z) (c : shm_race) : shm_race :=
  {| slot := slot c; mappings := m; thread1 := thread1 c; thread2 := thread2 c |}.

(** One step of thread [t]; [mmap_of t] is the address the kernel gives to
    [t]'s call of [mmap] ([MAP_FAILED] creates no mapping). *)
Definition race_step (dm : data_model) (mmap_of : tid -> Z) (offset : Z)
    (t : tid) (c : shm_race) : shm_race :=
  match thread_pc t c with
  | AtCheck =>
      if slot c =? 0 then set_thread t AtMmap c else set_thread t AtReturn c
  | AtMmap =>
      let addr := mmap_of t in
      set_thread t (AtCas addr)
        (if addr =? MAP_FAILED dm then c
         else set_mappings ({[ addr ]} ∪ mappings c) c)
  | AtCas addr =>
      if slot c =? 0 then set_thread t AtReturn (set_slot addr c)
      else set_thread t (AtMunmap addr) c
  | AtMunmap addr =>
      set_thread t AtReturn (set_mappings (mappings c ∖ {[ addr ]}) c)
  | AtReturn => set_thread t (Returned (to_uintptr dm (slot c + offset))) c
  | Returned _ => c
  end.

Fixpoint race_run (dm : data_model) (mmap_of : tid -> Z) (offset : Z)
    (sched : list tid) (c : shm_race) : shm_race :=
  match sched with
  | [] => c
  | t :: rest => race_run dm mmap_of offset rest (race_step dm mmap_of offset t c)
  end.

(** Both threads enter line 135 with the page not yet mapped. *)
Definition race_start : shm_race :=
  {| slot := 0; mappings := ∅; thread1 := AtCheck; thread2 := AtCheck |}.

(** ** Derived notions used in the statements *)

(** The page and the offset as the specification writes them, over the
    integers: [slot_index * unit_size / pagesize] and
    [slot_index * unit_size % pagesize] with the unit the size of a
    semaphore's state block. *)
Definition spec_page (slot_index ps : Z) : Z := slot_index * sizeof_semaphore / ps.
Definition spec_offset (slot_index ps : Z) : Z := (slot_index * sizeof_semaphore) mod ps.

(** The page and the offset as lines 122-123 compute them for a positive
    [pagesize] that fits a [long]. *)
Definition shm_entry (idx ps : Z) : Z := to_int (Z.quot (to_uint (to_uint idx * 8)) ps).
Definition shm_offset (idx ps : Z) : Z := to_int (Z.rem (to_uint (to_uint idx * 8)) ps).

(** The page pool as [fsync_init] leaves it and [get_shm] keeps it: a page
    size between 4 bytes and 1 GiB, and an array of [shm_addrs_size]
    elements. *)
Definition pool_wf (s : state) : Prop :=
  4 <= pagesize s <= 2 ^ 30 /\
  exists l, shm_addrs s = Some l /\ Z.of_nat (length l) = shm_addrs_size s.

(** The handle cache as the program keeps it: [FSYNC_LIST_ENTRIES] slots,
    every allocated block of [FSYNC_LIST_BLOCK_SIZE] records. *)
Definition cache_wf (dm : data_model) (s : state) : Prop :=
  Z.of_nat (length (fsync_list s)) = FSYNC_LIST_ENTRIES /\
  forall (i : nat) (blk : list fsync), fsync_list s !! i = Some (Some blk) ->
    Z.of_nat (length blk) = FSYNC_LIST_BLOCK_SIZE dm.

(** The record of the cache at a position; zero where the block is not
    allocated yet (a new block is zero-filled). *)
Definition record_at (s : state) (ref : Z * Z) : fsync :=
  default zero_fsync (deref s ref).

(** Number of probing system calls, of reads of the environment and of
    requests to the server in a log. *)
Definition is_probe (ev : event) : bool :=
  match ev with EvFutexWaitMultiple _ => true | _ => false end.

Definition is_getenv (ev : event) : bool :=
  match ev with EvGetenv _ => true | _ => false end.

Definition is_server_call (ev : event) : bool :=
  match ev with EvServerCall _ _ _ => true | _ => false end.

Definition count_probes (l : list event) : nat := length (List.filter is_probe l).
Definition count_getenv (l : list event) : nat := length (List.filter is_getenv l).
Definition count_server_calls (l : list event) : nat :=
  length (List.filter is_server_call l).

(** Successive calls of [do_fsync], each with what the outside world would
    answer at that time; the results in call order and the final state. *)
Fixpoint do_fsync_calls (es : list probe_env) (s : state) : list Z * state :=
  match es with
  | [] => ([], s)
  | e :: rest =>
      match do_fsync e s with
      | Ret v s' => let '(vs, s'') := do_fsync_calls rest s' in (v :: vs, s'')
      | _ => ([], s)
      end
  end.

(** The record after lines 188-189 ran on it: the winner of the
    compare-and-swap writes both fields, a loser writes nothing. *)
Definition published (old : fsync) (ty p : Z) : fsync :=
  if type old =? 0 then {| type := ty; shm := p |} else old.

(** The block a handle-cache slot stands for: the allocated block, or the
    zero-filled block that the first insertion will link there. *)
Definition block_of (dm : data_model) (s : state) (entry : Z) : list fsync :=
  match index (fsync_list s) entry with
  | Some (Some blk) => blk
  | _ => zero_block dm
  end.


(** Successive calls of [add_to_list], each with the answer the block
    allocator would give it. *)
Record add_call : Set := mk_add_call {
  call_alloc_ok : bool;
  call_handle : Z;
  call_type : Z;
  call_shm : Z
}.

Fixpoint add_to_list_calls (dm : data_model) (calls : list add_call) : M unit :=
  match calls with
  | [] => ret tt
  | c :: rest =>
      do _ <- add_to_list dm (call_alloc_ok c) (call_handle c) (call_type c) (call_shm c);;
      add_to_list_calls dm rest
  end.

(** A boolean form of [cache_wf], for concrete states. *)
Definition cache_wfb (dm : data_model) (s : state) : bool :=
  (Z.of_nat (length (fsync_list s)) =? FSYNC_LIST_ENTRIES) &&
  forallb (fun b : option (list fsync) =>
             match b with
             | None => true
             | Some blk => Z.of_nat (length blk) =? FSYNC_LIST_BLOCK_SIZE dm
             end) (fsync_list s).

(** The state of a process that has cached one semaphore: handle 8, state
    block at address 4242. *)
Definition one_semaphore_state : state :=
  match add_to_list LP64 true 8 FSYNC_SEMAPHORE 4242 initial_state with
  | Ret _ s => s
  | _ => initial_state
  end.

(** The record after the compare-and-swap of line 188 alone: the winner
    has written the type, the shm pointer is still the old one. *)
Definition type_swapped (old : fsync) (ty : Z) : fsync :=
  if type old =? 0 then {| type := ty; shm := shm old |} else old.

(** The size of the array of page pointers after lines 125-133. *)
Definition grown_size (size entry : Z) : Z :=
  if entry >=? size then Z.max (size * 2) (entry + 1) else size.

(** The array of page pointers after lines 125-133, when [realloc]
    succeeded: the old elements, then zeros. *)
Definition grown (l : list Z) (size entry : Z) : list Z :=
  l ++ replicate (Z.to_nat (grown_size size entry - size)) 0.

(** Two outside worlds for [do_fsync]: the variable set to 1 on a kernel
    with the futex operation, and the variable unset. *)
Definition env_enabled : probe_env :=
  {| getenv_WINEFSYNC := Some "1"%string;
     atoi := fun v => if String.eqb v "1" then 1 else 0;
     atoi_errno := fun _ => None;
     errno_after_probe := 0 |}.

Definition env_disabled : probe_env :=
  {| getenv_WINEFSYNC := None;
     atoi := fun v => if String.eqb v "1" then 1 else 0;
     atoi_errno := fun _ => None;
     errno_after_probe := 0 |}.

(** The address [get_shm] leaves in slot [entry] of the array [l]: the one
    already there, or the one [mmap] returns. *)
Definition page_address (e : shm_env) (l : list Z) (entry : Z) : Z :=
  match index l entry with
  | Some c => if c =? 0 then mmap_ret e else c
  | None => mmap_ret e
  end.

(** Two states agree on everything but the page-pointer array, its size
    and the log. *)
Definition same_but_pool (s s' : state) : Prop :=
  do_fsync_cached s' = do_fsync_cached s /\ shm_name s' = shm_name s /\
  shm_fd s' = shm_fd s /\ pagesize s' = pagesize s /\ fsync_list s' = fsync_list s.

(** Successive calls of [get_shm], each with the answers of the outside
    world and its slot index. *)
Fixpoint get_shm_calls (dm : data_model) (calls : list (shm_env * Z)) : M unit :=
  match calls with
  | [] => ret tt
  | (e, idx) :: rest => do _ <- get_shm dm e idx;; get_shm_calls dm rest
  end.

(** An outside world in which [fsync_init] succeeds with 4 KiB pages, and
    the state it leaves. *)
Definition shm_env_ok : shm_env :=
  {| realloc_ok := true; realloc_junk := 0xAAAAAAAA; mmap_ret := 0x7f0000001000 |}.

Definition shm_env_no_memory : shm_env :=
  {| realloc_ok := false; realloc_junk := 0; mmap_ret := 0x7f0000001000 |}.

Definition reply_not_implemented : server_reply :=
  {| reply_status := STATUS_NOT_IMPLEMENTED; reply_handle := 0; reply_shm_idx := 0 |}.

Definition create_env_not_implemented : create_env :=
  {| alloc_object_attributes_status := 0; server := reply_not_implemented;
     shm_os := shm_env_ok; anon_mmap_alloc_ret := true |}.

Definition init_env_enabled : init_env :=
  {| gate := env_enabled; probe_create := create_env_not_implemented;
     stat_ok := true; st_ino := 1234; shm_open_ret := 5; shm_open_errno := 0;
     sysconf_pagesize := 4096; calloc_ok := true |}.

Definition initialised_state : state :=
  match fsync_init LP64 init_env_enabled initial_state with
  | Ret _ s => s
  | _ => initial_state
  end.

(** Invariants of the race on a slot.  [race_results_inv]: a thread past
    its compare-and-swap sees a published slot, and a thread that has
    returned has returned the published address plus the offset. *)
Definition race_results_inv (dm : data_model) (mmap_of : tid -> Z) (offset : Z)
    (c : shm_race) : Prop :=
  (slot c = 0 \/ slot c = mmap_of T1 \/ slot c = mmap_of T2) /\
  forall t, match thread_pc t c with
            | AtCheck | AtMmap => True
            | AtCas a => a = mmap_of t
            | AtMunmap a => a = mmap_of t /\ slot c <> 0
            | AtReturn => slot c <> 0
            | Returned p => slot c <> 0 /\ p = to_uintptr dm (slot c + offset)
            end.

(** A thread between its [mmap] and the outcome of its compare-and-swap. *)
Definition in_flight (pc : shm_pc) : bool :=
  match pc with AtCas _ | AtMunmap _ => true | _ => false end.

(** A thread whose mapping is live: in flight, or the winner. *)
Definition holds_mapping (mmap_of : tid -> Z) (t : tid) (c : shm_race) : bool :=
  in_flight (thread_pc t c) || (slot c =? mmap_of t).

(** [race_maps_inv]: the slot holds the address of a thread only once that
    thread has won, and the live mappings are those of the threads in
    flight and of the winner. *)
Definition race_maps_inv (mmap_of : tid -> Z) (c : shm_race) : Prop :=
  (forall t, match thread_pc t c with
             | AtCheck | AtMmap => slot c <> mmap_of t
             | AtCas a | AtMunmap a => a = mmap_of t /\ slot c <> mmap_of t
             | AtReturn | Returned _ => True
             end) /\
  forall x, x ∈ mappings c <->
            (x = mmap_of T1 /\ holds_mapping mmap_of T1 c = true) \/
            (x = mmap_of T2 /\ holds_mapping mmap_of T2 c = true).

(** An upper bound on the steps a thread still takes. *)
Definition steps_left (pc : shm_pc) : nat :=
  match pc with
  | AtCheck => 5 | AtMmap => 4 | AtCas _ => 3 | AtMunmap _ => 2
  | AtReturn => 1 | Returned _ => 0
  end.

Definition tid_eqb (t u : tid) : bool :=
  match t, u with T1, T1 | T2, T2 => true | _, _ => false end.

Definition count_steps (t : tid) (sched : list tid) : nat :=
  length (List.filter (tid_eqb t) sched).

(** A reply of the server with success for a handle beyond the cache:
    handle 0x1000000 has index 4194303, in block 1023. *)
Definition create_env_far_handle : create_env :=
  {| alloc_object_attributes_status := 0;
     server := {| reply_status := STATUS_SUCCESS; reply_handle := 0x1000000;
                  reply_shm_idx := 7 |};
     shm_os := shm_env_ok; anon_mmap_alloc_ret := true |}.

(** A reply of the server with success for handle 8 and slot index 7. *)
Definition create_env_success : create_env :=
  {| alloc_object_attributes_status := 0;
     server := {| reply_status := STATUS_SUCCESS; reply_handle := 8;
                  reply_shm_idx := 7 |};
     shm_os := shm_env_ok; anon_mmap_alloc_ret := true |}.

(** ntstatus.h: one more failure status, for examples. *)
Definition STATUS_ACCESS_DENIED : Z := 0xC0000022.

(** A process without WINEFSYNC whose probe the server answers with [st]. *)
Definition init_env_disabled (st : Z) : init_env :=
  {| gate := env_disabled;
     probe_create :=
       {| alloc_object_attributes_status := 0;
          server := {| reply_status := st; reply_handle := 0; reply_shm_idx := 0 |};
          shm_os := shm_env_ok; anon_mmap_alloc_ret := true |};
     stat_ok := true; st_ino := 1234; shm_open_ret := 5; shm_open_errno := 0;
     sysconf_pagesize := 4096; calloc_ok := true |}.

(** ** Further notions used in the statements *)

(** Number of [mmap] calls for a page, and of [munmap] calls, in a log. *)
Definition is_mmap_of (entry : Z) (ev : event) : bool :=
  match ev with EvMmap e _ => e =? entry | _ => false end.

Definition is_munmap (ev : event) : bool :=
  match ev with EvMunmap _ => true | _ => false end.

Definition count_mmaps (entry : Z) (l : list event) : nat :=
  length (List.filter (is_mmap_of entry) l).

Definition count_munmaps (l : list event) : nat := length (List.filter is_munmap l).

(** The slot of a page holds an address. *)
Definition page_mapped (s : state) (entry : Z) : bool :=
  match shm_addrs s with
  | Some l =>
      match index l entry with
      | Some c => negb (c =? 0)
      | None => false
      end
  | None => false
  end.

(** Every [mmap] of a sequence of [get_shm] calls returns an address. *)
Definition mmap_never_null (calls : list (shm_env * Z)) : Prop :=
  Forall (fun c => mmap_ret (fst c) <> 0) calls.

(** The state of an initialised process that has created one semaphore
    (handle 8, slot index 7), and a later reply of the server that names
    the same handle value with another slot. *)
Definition one_created_state : state :=
  match fsync_create_semaphore LP64 create_env_success 0 0 5 initialised_state with
  | Ret _ s => s
  | _ => initialised_state
  end.

Definition create_env_reused_handle : create_env :=
  {| alloc_object_attributes_status := 0;
     server := {| reply_status := STATUS_OBJECT_NAME_EXISTS; reply_handle := 8;
                  reply_shm_idx := 600 |};
     shm_os := {| realloc_ok := true; realloc_junk := 0; mmap_ret := 0x7f0000002000 |};
     anon_mmap_alloc_ret := true |}.

(** ** Two threads in [get_shm], growth of the array included

    Lines 125-147 of [get_shm] for two threads that ask for slots of the
    same page, one access to shared memory or one library call at a time.
    Shared are the contents of the block [shm_addrs] points to,
    [shm_addrs_size] and the mappings of the process.  [realloc] extends
    the block in place, as it may (a [realloc] that moves the block leaves
    the other thread with a pointer to freed memory).  The arguments of the
    [memset] of line 131 are evaluated in one step and the call is made in
    the next. *)
Inductive grow_pc : Set :=
| GAtSizeCheck                             (* line 125 *)
| GAtNewSize                               (* line 127 *)
| GAtRealloc (new_size : Z)                (* line 129 *)
| GAtMemsetArgs (new_size : Z)             (* line 131, the arguments *)
| GAtMemset (from count new_size : Z)      (* line 131, the call *)
| GAtSetSize (new_size : Z)                (* line 132 *)
| GAtCheck                                 (* line 135 *)
| GAtMmap                                  (* line 137 *)
| GAtCas (addr : Z)                        (* line 143 *)
| GAtMunmap (addr : Z)                     (* line 144 *)
| GAtReturn                                (* line 147 *)
| GReturned (p : Z)
| GFaulted.

Record grow_race : Type := mk_grow_race {
  g_addrs : list Z;
  g_size : Z;
  g_mappings : list Z;
  g_thread1 : grow_pc;
  g_thread2 : grow_pc
}.

Definition g_thread_pc (t : tid) (c : grow_race) : grow_pc :=
  match t with T1 => g_thread1 c | T2 => g_thread2 c end.

Definition g_set_thread (t : tid) (pc : grow_pc) (c : grow_race) : grow_race :=
  match t with
  | T1 => {| g_addrs := g_addrs c; g_size := g_size c; g_mappings := g_mappings c;
             g_thread1 := pc; g_thread2 := g_thread2 c |}
  | T2 => {| g_addrs := g_addrs c; g_size := g_size c; g_mappings := g_mappings c;
             g_thread1 := g_thread1 c; g_thread2 := pc |}
  end.

Definition g_set_addrs (l : list Z) (c : grow_race) : grow_race :=
  {| g_addrs := l; g_size := g_size c; g_mappings := g_mappings c;
     g_thread1 := g_thread1 c; g_thread2 := g_thread2 c |}.

Definition g_set_size (v : Z) (c : grow_race) : grow_race :=
  {| g_addrs := g_addrs c; g_size := v; g_mappings := g_mappings c;
     g_thread1 := g_thread1 c; g_thread2 := g_thread2 c |}.

Definition g_set_mappings (m : list Z) (c : grow_race) : grow_race :=
  {| g_addrs := g_addrs c; g_size := g_size c; g_mappings := m;
     g_thread1 := g_thread1 c; g_thread2 := g_thread2 c |}.

(** One step of thread [t] for the page [entry]; [e] gives the junk in the
    new tail of the block, [mmap_of t] the address of [t]'s mapping. *)
Definition grow_race_step (dm : data_model) (e : shm_env) (mmap_of : tid -> Z)
    (entry offset : Z) (t : tid) (c : grow_race) : grow_race :=
  match g_thread_pc t c with
  | GAtSizeCheck =>
      if entry >=? g_size c then g_set_thread t GAtNewSize c
      else g_set_thread t GAtCheck c
  | GAtNewSize =>
      g_set_thread t (GAtRealloc (Z.max (g_size c * 2) (entry + 1))) c
  | GAtRealloc new_size =>
      match realloc e (Some (g_addrs c)) new_size with
      | Some l => g_set_thread t (GAtMemsetArgs new_size) (g_set_addrs l c)
      | None => g_set_thread t GFaulted c
      end
  | GAtMemsetArgs new_size =>
      g_set_thread t (GAtMemset (g_size c) (new_size - g_size c) new_size) c
  | GAtMemset from count new_size =>
      match memset_zero (Some (g_addrs c)) from count with
      | Some l => g_set_thread t (GAtSetSize new_size) (g_set_addrs l c)
      | None => g_set_thread t GFaulted c
      end
  | GAtSetSize new_size => g_set_thread t GAtCheck (g_set_size new_size c)
  | GAtCheck =>
      match index (g_addrs c) entry with
      | Some cur => if cur =? 0 then g_set_thread t GAtMmap c
                    else g_set_thread t GAtReturn c
      | None => g_set_thread t GFaulted c
      end
  | GAtMmap =>
      let addr := mmap_of t in
      g_set_thread t (GAtCas addr)
        (if addr =? MAP_FAILED dm then c
         else g_set_mappings (addr :: g_mappings c) c)
  | GAtCas addr =>
      match index (g_addrs c) entry with
      | Some cur =>
          if cur =? 0
          then g_set_thread t GAtReturn (g_set_addrs (update (g_addrs c) entry addr) c)
          else g_set_thread t (GAtMunmap addr) c
      | None => g_set_thread t GFaulted c
      end
  | GAtMunmap addr =>
      g_set_thread t GAtReturn
        (g_set_mappings (List.filter (fun a => negb (a =? addr)) (g_mappings c)) c)
  | GAtReturn =>
      match index (g_addrs c) entry with
      | Some cur => g_set_thread t (GReturned (to_uintptr dm (cur + offset))) c
      | None => g_set_thread t GFaulted c
      end
  | GReturned _ => c
  | GFaulted => c
  end.

Fixpoint grow_race_run (dm : data_model) (e : shm_env) (mmap_of : tid -> Z)
    (entry offset : Z) (sched : list tid) (c : grow_race) : grow_race :=
  match sched with
  | [] => c
  | t :: rest =>
      grow_race_run dm e mmap_of entry offset rest
        (grow_race_step dm e mmap_of entry offset t c)
  end.

(** Both threads enter line 125 in the pool as [fsync_init] left it. *)
Definition grow_race_start : grow_race :=
  {| g_addrs := replicate 128 0; g_size := 128; g_mappings := [];
     g_thread1 := GAtSizeCheck; g_thread2 := GAtSizeCheck |}.

(** Two mappings for the two threads. *)
Definition two_mappings (t : tid) : Z :=
  match t with T1 => 0x7f0000001000 | T2 => 0x7f0000002000 end.

(** A schedule of the two threads, both asking for slot index 65536 (page
    128, outside the array of 128 slots): the second thread evaluates the
    arguments of its [memset] before the first has stored the new size,
    and calls [memset] after the first has published its mapping. *)
Definition growth_race_schedule : list tid :=
  [T1; T2; T1; T2; T1; T2; T1; T2;      (* both up to the call of memset *)
   T1; T1; T1; T1; T1; T1;              (* the first clears, maps, returns *)
   T2; T2; T2; T2; T2; T2].             (* the second clears again, maps, returns *)

(** * Properties *)

(** ** Arrays *)

Lemma index_Some {A} (l : list A) (i : Z) (x : A) :
  index l i = Some x <-> 0 <= i /\ l !! Z.to_nat i = Some x.
Proof.
  unfold index. destruct (Z.ltb_spec i 0); split; intros H1.
  - discriminate.
  - lia.
  - split; [lia | exact H1].
  - apply H1.
Qed.

Lemma index_in_range {A} (l : list A) (i : Z) :
  0 <= i < Z.of_nat (length l) -> exists x, index l i = Some x.
Proof.
  intros Hi. destruct (lookup_lt_is_Some_2 l (Z.to_nat i)) as [x Hx]; [lia |].
  exists x. apply index_Some. split; [lia | exact Hx].
Qed.

Lemma index_out_of_range {A} (l : list A) (i : Z) :
  Z.of_nat (length l) <= i -> index l i = None.
Proof.
  intros Hi. unfold index. destruct (Z.ltb_spec i 0); [reflexivity |].
  apply lookup_ge_None. lia.
Qed.

Lemma index_bound {A} (l : list A) (i : Z) (x : A) :
  index l i = Some x -> 0 <= i < Z.of_nat (length l).
Proof.
  intros H. apply index_Some in H as [H0 H]. apply lookup_lt_Some in H. lia.
Qed.

Lemma length_update {A} (l : list A) (i : Z) (x : A) :
  length (update l i x) = length l.
Proof. unfold update. destruct (i <? 0); [reflexivity | apply length_insert]. Qed.

Lemma index_update_eq {A} (l : list A) (i : Z) (x : A) :
  0 <= i < Z.of_nat (length l) -> index (update l i x) i = Some x.
Proof.
  intros Hi. unfold index, update. destruct (Z.ltb_spec i 0); [lia |].
  apply list_lookup_insert_eq. lia.
Qed.

Lemma index_update_ne {A} (l : list A) (i j : Z) (x : A) :
  i <> j -> index (update l i x) j = index l j.
Proof.
  intros Hne. unfold index, update.
  destruct (Z.ltb_spec j 0); [reflexivity |].
  destruct (Z.ltb_spec i 0); [reflexivity |].
  apply list_lookup_insert_ne. lia.
Qed.

Lemma update_same {A} (l : list A) (i : Z) (x : A) :
  index l i = Some x -> update l i x = l.
Proof.
  intros H. apply index_Some in H as [H0 H]. unfold update.
  destruct (Z.ltb_spec i 0); [lia |]. apply list_insert_id, H.
Qed.

(** ** Handle indices *)

Lemma FSYNC_LIST_BLOCK_SIZE_pos dm : 0 < FSYNC_LIST_BLOCK_SIZE dm.
Proof. destruct dm; reflexivity. Qed.

Lemma ptr_modulus_pos dm : 0 < ptr_modulus dm.
Proof. destruct dm; reflexivity. Qed.

Lemma handle_to_index_range dm handle :
  0 <= fst (handle_to_index dm handle) /\
  0 <= snd (handle_to_index dm handle) < FSYNC_LIST_BLOCK_SIZE dm.
Proof.
  unfold handle_to_index. cbn [fst snd].
  pose proof (FSYNC_LIST_BLOCK_SIZE_pos dm) as Hb.
  pose proof (ptr_modulus_pos dm) as Hm.
  set (i := to_uintptr dm _).
  assert (0 <= i) by (subst i; unfold to_uintptr; apply Z.mod_pos_bound, Hm).
  split.
  - apply Z.div_pos; lia.
  - apply Z.mod_pos_bound, Hb.
Qed.

Lemma null_handle_entry dm handle :
  Z.shiftr (to_uintptr dm handle) 2 = 0 ->
  FSYNC_LIST_ENTRIES <= fst (handle_to_index dm handle).
Proof.
  intros H. unfold handle_to_index. rewrite H. destruct dm; vm_compute; discriminate.
Qed.

(** ** Handle cache: what one call does *)

Lemma set_fsync_list_id s : set_fsync_list (fsync_list s) s = s.
Proof. destruct s; reflexivity. Qed.

Lemma update_update {A} (l : list A) (i : Z) (x y : A) :
  update (update l i x) i y = update l i y.
Proof.
  unfold update. destruct (i <? 0); [reflexivity | apply list_insert_insert_eq].
Qed.

Lemma set_fsync_list_twice u v s :
  set_fsync_list u (set_fsync_list v s) = set_fsync_list u s.
Proof. reflexivity. Qed.

Lemma load_block_eq entry b s :
  index (fsync_list s) entry = Some b -> load_block entry s = Ret b s.
Proof. intros H. unfold load_block. rewrite H. reflexivity. Qed.

Lemma store_block_eq entry b0 b s :
  index (fsync_list s) entry = Some b0 ->
  store_block entry b s = Ret tt (set_fsync_list (update (fsync_list s) entry b) s).
Proof. intros H. unfold store_block. rewrite H. reflexivity. Qed.

Lemma load_record_eq entry idx blk r s :
  index (fsync_list s) entry = Some (Some blk) -> index blk idx = Some r ->
  load_record entry idx s = Ret r s.
Proof.
  intros Hb Hr. unfold load_record, bind. rewrite (load_block_eq _ _ _ Hb), Hr.
  reflexivity.
Qed.

Lemma store_record_eq entry idx blk r0 r s :
  index (fsync_list s) entry = Some (Some blk) -> index blk idx = Some r0 ->
  store_record entry idx r s =
  Ret tt (set_fsync_list (update (fsync_list s) entry (Some (update blk idx r))) s).
Proof.
  intros Hb Hr. unfold store_record, bind. rewrite (load_block_eq _ _ _ Hb), Hr.
  apply (store_block_eq _ _ _ _ Hb).
Qed.

Lemma publish_eq entry idx blk r ty p s :
  index (fsync_list s) entry = Some (Some blk) -> index blk idx = Some r ->
  (do old <- cas_type entry idx 0 ty;;
   do _ <- when (old =? 0) (store_shm entry idx p);;
   ret (Some (entry, idx))) s =
  Ret (Some (entry, idx))
    (set_fsync_list
       (update (fsync_list s) entry (Some (update blk idx (published r ty p)))) s).
Proof.
  intros Hb Hr.
  pose proof (index_bound _ _ _ Hb) as Hbe.
  pose proof (index_bound _ _ _ Hr) as Hri.
  unfold cas_type, published.
  unfold bind at 1. unfold bind at 1. rewrite (load_record_eq _ _ _ _ _ Hb Hr).
  unfold bind at 1. unfold when at 1.
  destruct (type r =? 0) eqn:Ht.
  - rewrite (store_record_eq _ _ _ _ _ _ Hb Hr). unfold ret at 1.
    unfold bind at 1. unfold when. rewrite Ht. unfold store_shm.
    set (s1 := set_fsync_list _ s).
    assert (Hb1 : index (fsync_list s1) entry
                  = Some (Some (update blk idx {| type := ty; shm := shm r |}))).
    { subst s1. cbn [fsync_list set_fsync_list]. apply index_update_eq, Hbe. }
    assert (Hr1 : index (update blk idx {| type := ty; shm := shm r |}) idx
                  = Some {| type := ty; shm := shm r |}).
    { apply index_update_eq, Hri. }
    unfold bind at 1. rewrite (load_record_eq _ _ _ _ _ Hb1 Hr1).
    rewrite (store_record_eq _ _ _ _ _ _ Hb1 Hr1).
    unfold ret. subst s1. cbn [fsync_list set_fsync_list type shm].
    rewrite !update_update. reflexivity.
  - unfold ret at 1. unfold ret at 1. unfold bind, when, ret. rewrite Ht.
    rewrite (update_same _ _ _ Hr), (update_same _ _ _ Hb), set_fsync_list_id.
    reflexivity.
Qed.

Lemma length_zero_block dm :
  Z.of_nat (length (zero_block dm)) = FSYNC_LIST_BLOCK_SIZE dm.
Proof.
  unfold zero_block. rewrite length_replicate.
  pose proof (FSYNC_LIST_BLOCK_SIZE_pos dm). lia.
Qed.

Lemma index_zero_block dm idx :
  0 <= idx < FSYNC_LIST_BLOCK_SIZE dm -> index (zero_block dm) idx = Some zero_fsync.
Proof.
  intros H. apply index_Some. split; [lia |].
  unfold zero_block. apply lookup_replicate_2. lia.
Qed.

Lemma length_block_of dm s entry :
  cache_wf dm s -> Z.of_nat (length (block_of dm s entry)) = FSYNC_LIST_BLOCK_SIZE dm.
Proof.
  intros [_ Hblk]. unfold block_of.
  destruct (index (fsync_list s) entry) as [[blk|]|] eqn:E;
    try apply length_zero_block.
  apply index_Some in E as [_ E]. apply (Hblk _ _ E).
Qed.

Lemma record_at_block_of dm s entry idx :
  0 <= idx < FSYNC_LIST_BLOCK_SIZE dm ->
  cache_wf dm s ->
  index (block_of dm s entry) idx = Some (record_at s (entry, idx)).
Proof.
  intros Hi Hwf. pose proof (length_block_of dm s entry Hwf) as Hlen.
  unfold record_at, deref, block_of in *. cbn [fst snd].
  destruct (index (fsync_list s) entry) as [[blk|]|] eqn:E.
  - destruct (index_in_range blk idx) as [r Hr]; [lia |]. rewrite Hr. reflexivity.
  - cbn. apply index_zero_block, Hi.
  - cbn. apply index_zero_block, Hi.
Qed.

(** [add_to_list] on a handle outside the supported range. *)
Lemma add_to_list_out_of_range dm ok handle ty p s :
  FSYNC_LIST_ENTRIES <= fst (handle_to_index dm handle) ->
  add_to_list dm ok handle ty p s =
  Ret None (add_event (EvFIXME "too many allocated handles, not caching %p") s).
Proof.
  intros H. unfold add_to_list. destruct (handle_to_index dm handle) as [entry idx].
  cbn [fst] in H. destruct (Z.geb_spec entry FSYNC_LIST_ENTRIES); [| lia].
  reflexivity.
Qed.

Lemma get_cached_object_out_of_range dm handle s :
  FSYNC_LIST_ENTRIES <= fst (handle_to_index dm handle) ->
  get_cached_object dm handle s = Ret None s.
Proof.
  intros H. unfold get_cached_object. destruct (handle_to_index dm handle) as [entry idx].
  cbn [fst] in H. destruct (Z.geb_spec entry FSYNC_LIST_ENTRIES); [| lia].
  reflexivity.
Qed.

(** [add_to_list] on a handle inside the range, when a block is there or
    can be had. *)
Lemma add_to_list_in_range dm ok handle ty p s entry idx :
  cache_wf dm s ->
  handle_to_index dm handle = (entry, idx) ->
  entry < FSYNC_LIST_ENTRIES ->
  (index (fsync_list s) entry = Some None -> entry <> 0 -> ok = true) ->
  add_to_list dm ok handle ty p s =
  Ret (Some (entry, idx))
    (set_fsync_list
       (update (fsync_list s) entry
          (Some (update (block_of dm s entry) idx
                   (published (record_at s (entry, idx)) ty p)))) s).
Proof.
  intros Hwf Hidx Hlt Hok.
  pose proof (handle_to_index_range dm handle) as [He Hi]. rewrite Hidx in He, Hi.
  cbn [fst snd] in He, Hi.
  pose proof (record_at_block_of dm s entry idx Hi Hwf) as Hrec.
  destruct Hwf as [Hlen Hblk].
  destruct (index_in_range (fsync_list s) entry) as [b Hb]; [lia |].
  unfold add_to_list. rewrite Hidx.
  destruct (Z.geb_spec entry FSYNC_LIST_ENTRIES); [lia |].
  unfold bind at 1. rewrite (load_block_eq _ _ _ Hb).
  unfold block_of in *. rewrite Hb in *.
  destruct b as [blk|].
  - unfold bind at 1. unfold ret at 1. apply publish_eq; assumption.
  - assert (Hlink : forall s1, fsync_list s1 = update (fsync_list s) entry (Some (zero_block dm)) ->
       s1 = set_fsync_list (fsync_list s1) s ->
       (do old <- cas_type entry idx 0 ty;;
        do _ <- when (old =? 0) (store_shm entry idx p);;
        ret (Some (entry, idx))) s1 =
       Ret (Some (entry, idx))
         (set_fsync_list
            (update (fsync_list s) entry
               (Some (update (zero_block dm) idx
                        (published (record_at s (entry, idx)) ty p)))) s)).
    { intros s1 Hfl Hs1.
      rewrite (publish_eq entry idx (zero_block dm) (record_at s (entry, idx)) ty p s1).
      - rewrite Hfl, update_update. rewrite Hs1. reflexivity.
      - rewrite Hfl. apply index_update_eq. lia.
      - exact Hrec. }
    destruct (Z.eqb_spec entry 0) as [-> | Hne].
    + unfold bind at 1. unfold bind at 1.
      rewrite (store_block_eq _ _ _ _ Hb). unfold ret at 1.
      apply Hlink; reflexivity.
    + rewrite (Hok eq_refl Hne).
      unfold bind at 1. unfold bind at 1.
      rewrite (store_block_eq _ _ _ _ Hb). unfold ret at 1.
      apply Hlink; reflexivity.
Qed.

(** A failed allocation of a new block: nothing is cached. *)
Lemma add_to_list_alloc_failed dm handle ty p s entry idx :
  handle_to_index dm handle = (entry, idx) ->
  entry < FSYNC_LIST_ENTRIES ->
  index (fsync_list s) entry = Some None -> entry <> 0 ->
  add_to_list dm false handle ty p s = Ret None s.
Proof.
  intros Hidx Hlt Hb Hne. unfold add_to_list. rewrite Hidx.
  destruct (Z.geb_spec entry FSYNC_LIST_ENTRIES); [lia |].
  unfold bind at 1. rewrite (load_block_eq _ _ _ Hb).
  destruct (Z.eqb_spec entry 0); [contradiction |]. reflexivity.
Qed.

Lemma get_cached_object_in_range dm handle s entry idx :
  cache_wf dm s ->
  handle_to_index dm handle = (entry, idx) ->
  entry < FSYNC_LIST_ENTRIES ->
  get_cached_object dm handle s =
  Ret (if type (record_at s (entry, idx)) =? 0 then None else Some (entry, idx)) s.
Proof.
  intros Hwf Hidx Hlt.
  pose proof (handle_to_index_range dm handle) as [He Hi]. rewrite Hidx in He, Hi.
  cbn [fst snd] in He, Hi.
  pose proof (record_at_block_of dm s entry idx Hi Hwf) as Hrec.
  destruct (index_in_range (fsync_list s) entry) as [b Hb]; [destruct Hwf; lia |].
  unfold get_cached_object. rewrite Hidx.
  destruct (Z.geb_spec entry FSYNC_LIST_ENTRIES); [lia |].
  unfold bind at 1. rewrite (load_block_eq _ _ _ Hb).
  destruct b as [blk|].
  - unfold block_of in Hrec. rewrite Hb in Hrec.
    unfold bind. rewrite (load_record_eq _ _ _ _ _ Hb Hrec).
    destruct (type (record_at s (entry, idx)) =? 0); reflexivity.
  - unfold record_at, deref. cbn [fst snd]. rewrite Hb. reflexivity.
Qed.

Lemma record_at_update dm s entry idx rec ref :
  cache_wf dm s ->
  0 <= entry < FSYNC_LIST_ENTRIES ->
  0 <= idx < FSYNC_LIST_BLOCK_SIZE dm ->
  record_at
    (set_fsync_list
       (update (fsync_list s) entry (Some (update (block_of dm s entry) idx rec))) s)
    ref
  = if decide (ref = (entry, idx)) then rec else record_at s ref.
Proof.
  intros Hwf He Hi. pose proof (length_block_of dm s entry Hwf) as Hlen.
  destruct ref as [e' i']. unfold record_at at 1, deref.
  cbn [fst snd fsync_list set_fsync_list].
  destruct (Z.eq_dec e' entry) as [-> | Hne].
  - rewrite index_update_eq by (destruct Hwf; lia).
    destruct (Z.eq_dec i' idx) as [-> | Hni].
    + rewrite index_update_eq by lia. rewrite decide_True by reflexivity. reflexivity.
    + rewrite index_update_ne by congruence.
      rewrite decide_False by congruence.
      unfold record_at, deref, block_of. cbn [fst snd].
      destruct (index (fsync_list s) entry) as [[blk|]|]; try reflexivity.
      * unfold index. destruct (i' <? 0); [reflexivity |].
        unfold zero_block. destruct (replicate _ _ !! _) eqn:E; [| reflexivity].
        apply lookup_replicate in E as [-> _]. reflexivity.
      * unfold index. destruct (i' <? 0); [reflexivity |].
        unfold zero_block. destruct (replicate _ _ !! _) eqn:E; [| reflexivity].
        apply lookup_replicate in E as [-> _]. reflexivity.
  - rewrite index_update_ne by congruence.
    rewrite decide_False by congruence. reflexivity.
Qed.

Lemma cache_wf_update dm s entry idx rec :
  cache_wf dm s ->
  cache_wf dm
    (set_fsync_list
       (update (fsync_list s) entry (Some (update (block_of dm s entry) idx rec))) s).
Proof.
  intros Hwf. pose proof (length_block_of dm s entry Hwf) as Hlen.
  destruct Hwf as [Hl Hblk]. split; cbn [fsync_list set_fsync_list].
  - rewrite length_update. exact Hl.
  - intros i blk. unfold update. destruct (entry <? 0); [apply Hblk |].
    destruct (decide (Z.to_nat entry = i)) as [<- | Hne].
    + intros H. apply list_lookup_insert_Some in H as [(_ & H & _) | (? & _)]; [| congruence].
      injection H as <-. fold (update (block_of dm s entry) idx rec).
      rewrite length_update. exact Hlen.
    + rewrite list_lookup_insert_ne by exact Hne. apply Hblk.
Qed.

Lemma cache_wf_add_event dm ev s : cache_wf dm s -> cache_wf dm (add_event ev s).
Proof. intros H. exact H. Qed.

(** Every call of [add_to_list] on a well-formed cache returns; it touches
    at most the record of its handle, and that one by [published]. *)
Lemma add_to_list_total dm ok handle ty p s :
  cache_wf dm s ->
  exists r s',
    add_to_list dm ok handle ty p s = Ret r s' /\
    cache_wf dm s' /\
    (r = None \/ r = Some (handle_to_index dm handle)) /\
    (forall ref, record_at s' ref =
       if decide (r = Some ref) then published (record_at s ref) ty p
       else record_at s ref) /\
    do_fsync_cached s' = do_fsync_cached s /\ shm_addrs s' = shm_addrs s /\
    shm_addrs_size s' = shm_addrs_size s /\ pagesize s' = pagesize s.
Proof.
  intros Hwf.
  pose proof (handle_to_index_range dm handle) as [He Hi].
  destruct (handle_to_index dm handle) as [entry idx] eqn:Hidx. cbn [fst snd] in He, Hi.
  destruct (Z.le_gt_cases FSYNC_LIST_ENTRIES entry) as [Hge | Hlt].
  - exists None, (add_event (EvFIXME "too many allocated handles, not caching %p") s).
    split; [apply add_to_list_out_of_range; rewrite Hidx; exact Hge |].
    split; [exact Hwf |]. split; [left; reflexivity |].
    split; [| repeat split; reflexivity].
    intros ref. rewrite decide_False by discriminate. reflexivity.
  - destruct (index_in_range (fsync_list s) entry) as [b Hb]; [destruct Hwf; lia |].
    assert (Hcase : (index (fsync_list s) entry = Some None -> entry <> 0 -> ok = true)
                    \/ (b = None /\ entry <> 0 /\ ok = false)).
    { destruct b as [blk|]; [left; intros; congruence |].
      destruct (Z.eq_dec entry 0); [left; intros; contradiction |].
      destruct ok; [left; reflexivity | right; auto]. }
    destruct Hcase as [Hok | (-> & Hne & ->)].
    + eexists _, _. split; [apply (add_to_list_in_range _ _ _ _ _ _ _ _ Hwf Hidx Hlt Hok) |].
      split; [apply cache_wf_update, Hwf |].
      split; [right; reflexivity |].
      split; [| repeat split; reflexivity].
      intros ref. rewrite (record_at_update dm s entry idx _ ref Hwf) by lia.
      destruct (decide (ref = (entry, idx))) as [-> | Hne].
      * rewrite decide_True by reflexivity. reflexivity.
      * rewrite decide_False by congruence. reflexivity.
    + exists None, s. split; [apply (add_to_list_alloc_failed _ _ _ _ _ _ _ Hidx Hlt Hb Hne) |].
      split; [exact Hwf |]. split; [left; reflexivity |].
      split; [| repeat split; reflexivity].
      intros ref. rewrite decide_False by discriminate. reflexivity.
Qed.

Lemma cache_wf_initial dm : cache_wf dm initial_state.
Proof.
  split; [reflexivity |]. intros i blk H. cbn in H.
  apply lookup_replicate in H as [H _]. discriminate.
Qed.

(** C10. A handle whose shifted form is zero (the NULL handle and the three
    values next to it) gets the index [(handle >> 2) - 1] wrapped to the top
    of the [UINT_PTR] range, whose block index is above FSYNC_LIST_ENTRIES.
    In every state, whatever the arrays hold or however long they are,
    [get_cached_object] returns NULL and [add_to_list] declines to cache;
    neither faults, so neither reads or writes the cache arrays at that
    index, and [add_to_list] leaves the cache as it was. *)
Theorem null_handle_is_never_cached dm handle ok ty p s :
  Z.shiftr (to_uintptr dm handle) 2 = 0 ->
  fst (handle_to_index dm handle) = (ptr_modulus dm - 1) / FSYNC_LIST_BLOCK_SIZE dm /\
  FSYNC_LIST_ENTRIES < fst (handle_to_index dm handle) /\
  get_cached_object dm handle s = Ret None s /\
  exists s', add_to_list dm ok handle ty p s = Ret None s' /\
             fsync_list s' = fsync_list s.
Proof.
  intros H.
  assert (He : fst (handle_to_index dm handle)
               = (ptr_modulus dm - 1) / FSYNC_LIST_BLOCK_SIZE dm).
  { unfold handle_to_index. rewrite H. destruct dm; reflexivity. }
  assert (Hgt : FSYNC_LIST_ENTRIES < fst (handle_to_index dm handle)).
  { rewrite He. destruct dm; reflexivity. }
  split; [exact He |]. split; [exact Hgt |].
  split; [apply get_cached_object_out_of_range; lia |].
  eexists. split; [apply add_to_list_out_of_range; lia | reflexivity].
Qed.

Lemma null_handle_is_never_cached_witness :
  Z.shiftr (to_uintptr LP64 0) 2 = 0 /\
  fst (handle_to_index LP64 0) = (ptr_modulus LP64 - 1) / FSYNC_LIST_BLOCK_SIZE LP64 /\
  FSYNC_LIST_ENTRIES < fst (handle_to_index LP64 0) /\
  get_cached_object LP64 0 initial_state = Ret None initial_state /\
  exists s', add_to_list LP64 true 0 FSYNC_SEMAPHORE 4096 initial_state = Ret None s' /\
             fsync_list s' = fsync_list initial_state.
Proof.
  split; [reflexivity |].
  apply (null_handle_is_never_cached LP64 0 true FSYNC_SEMAPHORE 4096 initial_state).
  reflexivity.
Defined.

(** ** Handle cache: publication *)

Lemma published_nonzero old ty p : type old <> 0 -> published old ty p = old.
Proof.
  intros H. unfold published. destruct (Z.eqb_spec (type old) 0); [contradiction | reflexivity].
Qed.

Lemma published_zero old ty p : type old = 0 -> published old ty p = {| type := ty; shm := p |}.
Proof. intros H. unfold published. rewrite H. reflexivity. Qed.

Lemma add_to_list_keeps_published dm ok handle ty p s ref :
  cache_wf dm s -> type (record_at s ref) <> 0 ->
  exists r s', add_to_list dm ok handle ty p s = Ret r s' /\ cache_wf dm s' /\
               record_at s' ref = record_at s ref.
Proof.
  intros Hwf Hty.
  destruct (add_to_list_total dm ok handle ty p s Hwf) as (r & s' & Hrun & Hwf' & _ & Hrec & _).
  exists r, s'. split; [exact Hrun |]. split; [exact Hwf' |].
  rewrite Hrec. destruct (decide (r = Some ref)); [apply published_nonzero, Hty | reflexivity].
Qed.

Lemma add_to_list_calls_keep_published dm calls : forall s ref,
  cache_wf dm s -> type (record_at s ref) <> 0 ->
  exists s', add_to_list_calls dm calls s = Ret tt s' /\ cache_wf dm s' /\
             record_at s' ref = record_at s ref.
Proof.
  induction calls as [| c rest IH]; intros s ref Hwf Hty.
  - exists s. repeat split; try reflexivity; apply Hwf.
  - destruct (add_to_list_keeps_published dm (call_alloc_ok c) (call_handle c)
                (call_type c) (call_shm c) s ref Hwf Hty)
      as (r & s1 & Hrun & Hwf1 & Hrec1).
    destruct (IH s1 ref Hwf1) as (s' & Hrest & Hwf' & Hrec'); [congruence |].
    exists s'. split.
    + cbn [add_to_list_calls]. unfold bind. rewrite Hrun. exact Hrest.
    + split; [exact Hwf' | congruence].
Qed.

(** C7. The type field of a record goes from 0 to nonzero by the
    compare-and-swap of [add_to_list] and then stays: a call for a handle
    whose record has type 0 wins the swap and writes the type and the shm
    pointer; a call for a handle whose record has a nonzero type loses it
    and writes neither.  So once the type of a record is nonzero, no later
    sequence of [add_to_list] calls, for the same handle or any other,
    changes its type or its shm pointer. *)
Theorem published_record_is_final dm s handle :
  cache_wf dm s ->
  (forall ok ty p r s',
     add_to_list dm ok handle ty p s = Ret (Some r) s' ->
     r = handle_to_index dm handle /\
     (type (record_at s r) = 0 -> record_at s' r = {| type := ty; shm := p |}) /\
     (type (record_at s r) <> 0 -> record_at s' r = record_at s r)) /\
  (type (record_at s (handle_to_index dm handle)) <> 0 ->
   forall calls, exists s',
     add_to_list_calls dm calls s = Ret tt s' /\
     record_at s' (handle_to_index dm handle) = record_at s (handle_to_index dm handle)).
Proof.
  intros Hwf. split.
  - intros ok ty p r s' Hrun.
    destruct (add_to_list_total dm ok handle ty p s Hwf)
      as (r0 & s0 & Hrun0 & _ & Hr & Hrec & _).
    rewrite Hrun in Hrun0. injection Hrun0 as <- <-.
    destruct Hr as [Hr | Hr]; [discriminate |]. injection Hr as ->.
    split; [reflexivity |]. specialize (Hrec (handle_to_index dm handle)).
    rewrite decide_True in Hrec by reflexivity. rewrite Hrec.
    split; intros H; [apply published_zero, H | apply published_nonzero, H].
  - intros Hty calls.
    destruct (add_to_list_calls_keep_published dm calls s _ Hwf Hty) as (s' & Hrun & _ & Hrec).
    exists s'. split; assumption.
Qed.

Lemma cache_wfb_sound dm s : cache_wfb dm s = true -> cache_wf dm s.
Proof.
  unfold cache_wfb. intros H. apply andb_prop in H as [Hl Hb].
  split; [apply Z.eqb_eq, Hl |].
  intros i blk Hi. rewrite forallb_forall in Hb.
  specialize (Hb (Some blk)). cbn in Hb. apply Z.eqb_eq, Hb.
  apply list_elem_of_In, list_elem_of_lookup. exists i. exact Hi.
Qed.

Lemma published_record_is_final_witness :
  cache_wf LP64 one_semaphore_state /\
  (forall ok ty p r s',
     add_to_list LP64 ok 8 ty p one_semaphore_state = Ret (Some r) s' ->
     r = handle_to_index LP64 8 /\
     (type (record_at one_semaphore_state r) = 0 ->
      record_at s' r = {| type := ty; shm := p |}) /\
     (type (record_at one_semaphore_state r) <> 0 ->
      record_at s' r = record_at one_semaphore_state r)) /\
  (type (record_at one_semaphore_state (handle_to_index LP64 8)) <> 0 ->
   forall calls, exists s',
     add_to_list_calls LP64 calls one_semaphore_state = Ret tt s' /\
     record_at s' (handle_to_index LP64 8)
     = record_at one_semaphore_state (handle_to_index LP64 8)).
Proof.
  assert (Hwf : cache_wf LP64 one_semaphore_state)
    by (apply cache_wfb_sound; vm_compute; reflexivity).
  split; [exact Hwf |].
  apply (published_record_is_final LP64 one_semaphore_state 8 Hwf).
Defined.

(** [add_to_list] is its two shared-memory steps, one after the other. *)
Lemma add_to_list_steps dm ok handle ty p s :
  add_to_list dm ok handle ty p s =
  (do pending <- add_to_list_cas dm ok handle ty;; add_to_list_store pending p) s.
Proof.
  unfold add_to_list, add_to_list_cas, add_to_list_store.
  destruct (handle_to_index dm handle) as [entry idx].
  destruct (entry >=? FSYNC_LIST_ENTRIES); [reflexivity |].
  unfold bind, ret.
  destruct (load_block entry s) as [[blk|] s0 | |]; try reflexivity.
  - destruct (cas_type entry idx 0 ty s0); reflexivity.
  - destruct (entry =? 0).
    + destruct (store_block 0 _ s0) as [[] s1 | |]; try reflexivity.
      destruct (cas_type entry idx 0 ty s1); reflexivity.
    + destruct ok; [| reflexivity].
      destruct (store_block entry _ s0) as [[] s1 | |]; try reflexivity.
      destruct (cas_type entry idx 0 ty s1); reflexivity.
Qed.

Lemma cas_eq entry idx blk r ty s :
  index (fsync_list s) entry = Some (Some blk) -> index blk idx = Some r ->
  (do old <- cas_type entry idx 0 ty;; ret (Some (entry, idx, old =? 0))) s =
  Ret (Some (entry, idx, type r =? 0))
    (set_fsync_list
       (update (fsync_list s) entry (Some (update blk idx (type_swapped r ty)))) s).
Proof.
  intros Hb Hr. unfold cas_type, type_swapped, bind, when, ret.
  rewrite (load_record_eq _ _ _ _ _ Hb Hr).
  destruct (type r =? 0) eqn:Ht.
  - rewrite (store_record_eq _ _ _ _ _ _ Hb Hr). rewrite ?Ht. reflexivity.
  - rewrite (update_same _ _ _ Hr), (update_same _ _ _ Hb), set_fsync_list_id.
    rewrite ?Ht. reflexivity.
Qed.

Lemma add_to_list_cas_in_range dm ok handle ty s entry idx :
  cache_wf dm s ->
  handle_to_index dm handle = (entry, idx) ->
  entry < FSYNC_LIST_ENTRIES ->
  (index (fsync_list s) entry = Some None -> entry <> 0 -> ok = true) ->
  add_to_list_cas dm ok handle ty s =
  Ret (Some (entry, idx, type (record_at s (entry, idx)) =? 0))
    (set_fsync_list
       (update (fsync_list s) entry
          (Some (update (block_of dm s entry) idx
                   (type_swapped (record_at s (entry, idx)) ty)))) s).
Proof.
  intros Hwf Hidx Hlt Hok.
  pose proof (handle_to_index_range dm handle) as [He Hi]. rewrite Hidx in He, Hi.
  cbn [fst snd] in He, Hi.
  pose proof (record_at_block_of dm s entry idx Hi Hwf) as Hrec.
  destruct Hwf as [Hlen Hblk].
  destruct (index_in_range (fsync_list s) entry) as [b Hb]; [lia |].
  unfold add_to_list_cas. rewrite Hidx.
  destruct (Z.geb_spec entry FSYNC_LIST_ENTRIES); [lia |].
  unfold bind at 1. rewrite (load_block_eq _ _ _ Hb).
  unfold block_of in *. rewrite Hb in *.
  destruct b as [blk|].
  - unfold bind at 1. unfold ret at 1. apply cas_eq; assumption.
  - assert (Hlink : forall s1,
       fsync_list s1 = update (fsync_list s) entry (Some (zero_block dm)) ->
       s1 = set_fsync_list (fsync_list s1) s ->
       (do old <- cas_type entry idx 0 ty;; ret (Some (entry, idx, old =? 0))) s1 =
       Ret (Some (entry, idx, type (record_at s (entry, idx)) =? 0))
         (set_fsync_list
            (update (fsync_list s) entry
               (Some (update (zero_block dm) idx
                        (type_swapped (record_at s (entry, idx)) ty)))) s)).
    { intros s1 Hfl Hs1.
      rewrite (cas_eq entry idx (zero_block dm) (record_at s (entry, idx)) ty s1).
      - rewrite Hfl, update_update. rewrite Hs1. reflexivity.
      - rewrite Hfl. apply index_update_eq. lia.
      - exact Hrec. }
    destruct (Z.eqb_spec entry 0) as [-> | Hne].
    + unfold bind at 1. unfold bind at 1.
      rewrite (store_block_eq _ _ _ _ Hb). unfold ret at 1.
      apply Hlink; reflexivity.
    + rewrite (Hok eq_refl Hne).
      unfold bind at 1. unfold bind at 1.
      rewrite (store_block_eq _ _ _ _ Hb). unfold ret at 1.
      apply Hlink; reflexivity.
Qed.

(** A call of [add_to_list] that returns a record was in range and had a
    block. *)
Lemma add_to_list_Some_inv dm ok handle ty p s r s' :
  cache_wf dm s ->
  add_to_list dm ok handle ty p s = Ret (Some r) s' ->
  r = handle_to_index dm handle /\
  0 <= fst r < FSYNC_LIST_ENTRIES /\
  0 <= snd r < FSYNC_LIST_BLOCK_SIZE dm /\
  (index (fsync_list s) (fst r) = Some None -> fst r <> 0 -> ok = true).
Proof.
  intros Hwf Hrun.
  pose proof (handle_to_index_range dm handle) as [He Hi].
  destruct (handle_to_index dm handle) as [entry idx] eqn:Hidx. cbn [fst snd] in He, Hi.
  destruct (Z.le_gt_cases FSYNC_LIST_ENTRIES entry) as [Hge | Hlt].
  { rewrite add_to_list_out_of_range in Hrun by (rewrite Hidx; exact Hge). discriminate. }
  assert (Hok : index (fsync_list s) entry = Some None -> entry <> 0 -> ok = true).
  { intros Hb Hne. destruct ok; [reflexivity |].
    rewrite (add_to_list_alloc_failed _ _ _ _ _ _ _ Hidx Hlt Hb Hne) in Hrun. discriminate. }
  rewrite (add_to_list_in_range _ _ _ _ _ _ _ _ Hwf Hidx Hlt Hok) in Hrun.
  injection Hrun as <- _. cbn [fst snd]. repeat split; try lia. exact Hok.
Qed.

Lemma deref_of_nonzero s ref :
  type (record_at s ref) <> 0 -> deref s ref = Some (record_at s ref).
Proof.
  unfold record_at. destruct (deref s ref); cbn; [reflexivity | congruence].
Qed.

(** What a reader obtains for a handle in range. *)
Lemma read_cached_in_range dm handle s entry idx :
  cache_wf dm s ->
  handle_to_index dm handle = (entry, idx) ->
  entry < FSYNC_LIST_ENTRIES ->
  read_cached dm handle s =
  if type (record_at s (entry, idx)) =? 0 then None else Some (record_at s (entry, idx)).
Proof.
  intros Hwf Hidx Hlt. unfold read_cached.
  rewrite (get_cached_object_in_range _ _ _ _ _ Hwf Hidx Hlt).
  destruct (Z.eqb_spec (type (record_at s (entry, idx))) 0); [reflexivity |].
  apply deref_of_nonzero. assumption.
Qed.

(** A call of [add_to_list] that loses the compare-and-swap changes
    nothing at all. *)
Lemma add_to_list_lost dm ok handle ty p s :
  cache_wf dm s ->
  fst (handle_to_index dm handle) < FSYNC_LIST_ENTRIES ->
  type (record_at s (handle_to_index dm handle)) <> 0 ->
  add_to_list dm ok handle ty p s = Ret (Some (handle_to_index dm handle)) s.
Proof.
  intros Hwf Hlt Hty.
  pose proof (handle_to_index_range dm handle) as [He Hi].
  destruct (handle_to_index dm handle) as [entry idx] eqn:Hidx. cbn [fst snd] in *.
  pose proof (record_at_block_of dm s entry idx Hi Hwf) as Hrec.
  assert (Hb : index (fsync_list s) entry = Some (Some (block_of dm s entry))).
  { unfold record_at, deref, block_of in *. cbn [fst snd] in *.
    destruct (index (fsync_list s) entry) as [[blk|]|]; [reflexivity | |];
      cbn in Hty; contradiction. }
  rewrite (add_to_list_in_range dm ok handle ty p s entry idx Hwf Hidx Hlt)
    by (intros Hn; rewrite Hb in Hn; discriminate).
  rewrite (published_nonzero _ _ _ Hty).
  rewrite (update_same _ _ _ Hrec), (update_same _ _ _ Hb), set_fsync_list_id.
  reflexivity.
Qed.

(** C1, as the code has it.  Once [add_to_list( h, t, p )] has returned a
    record: if the call won the compare-and-swap (the type field was 0),
    [get_cached_object( h )] returns the complete record [{t, p}], or NULL
    when [t] is 0; if it lost (the type field was not 0), the call has
    changed nothing and [get_cached_object( h )] returns the record as it
    stood before the call, complete or not.  The call publishes in two
    steps, the type first and the shm pointer second: between them a
    reader obtains the record with the type [t] and the shm pointer not
    yet stored, and so does any other [add_to_list] for the handle, which
    loses, returns, and leaves the record as it is. *)
Theorem add_to_list_then_get_cached_object dm ok handle ty p s r s' :
  cache_wf dm s ->
  add_to_list dm ok handle ty p s = Ret (Some r) s' ->
  (type (record_at s r) = 0 -> ty <> 0 ->
   get_cached_object dm handle s' = Ret (Some r) s' /\
   read_cached dm handle s' = Some {| type := ty; shm := p |}) /\
  (type (record_at s r) = 0 -> ty = 0 ->
   get_cached_object dm handle s' = Ret None s') /\
  (type (record_at s r) <> 0 ->
   s' = s /\
   get_cached_object dm handle s' = Ret (Some r) s' /\
   read_cached dm handle s' = Some (record_at s r)) /\
  exists s1,
    add_to_list_cas dm ok handle ty s
    = Ret (Some (r, type (record_at s r) =? 0)) s1 /\
    add_to_list_store (Some (r, type (record_at s r) =? 0)) p s1 = Ret (Some r) s' /\
    (type (record_at s r) = 0 -> ty <> 0 ->
     read_cached dm handle s1 = Some {| type := ty; shm := shm (record_at s r) |} /\
     forall ok' ty' p',
       add_to_list dm ok' handle ty' p' s1 = Ret (Some r) s1).
Proof.
  intros Hwf Hrun.
  destruct (add_to_list_Some_inv _ _ _ _ _ _ _ _ Hwf Hrun) as (Hr & He & Hi & Hok).
  destruct r as [entry idx]. cbn [fst snd] in He, Hi, Hok. symmetry in Hr.
  pose proof Hrun as Hrun'.
  rewrite (add_to_list_in_range _ _ _ _ _ _ _ _ Hwf Hr (proj2 He) Hok) in Hrun'.
  injection Hrun' as Hs'.
  assert (Hwf' : cache_wf dm s') by (rewrite <- Hs'; apply cache_wf_update, Hwf).
  assert (Hrec' : record_at s' (entry, idx) = published (record_at s (entry, idx)) ty p).
  { rewrite <- Hs'. rewrite (record_at_update dm s entry idx _ _ Hwf He Hi).
    rewrite decide_True by reflexivity. reflexivity. }
  pose proof (get_cached_object_in_range _ _ _ _ _ Hwf' Hr (proj2 He)) as Hget.
  pose proof (read_cached_in_range _ _ _ _ _ Hwf' Hr (proj2 He)) as Hread.
  rewrite Hrec' in Hget, Hread.
  split; [| split; [| split]].
  - intros H0 Hty. rewrite (published_zero _ _ _ H0) in Hget, Hread. cbn [type] in *.
    destruct (Z.eqb_spec ty 0); [contradiction |]. split; assumption.
  - intros H0 Hty. rewrite (published_zero _ _ _ H0) in Hget. cbn [type] in *.
    subst ty. exact Hget.
  - intros Hn. rewrite (published_nonzero _ _ _ Hn) in Hget, Hread.
    destruct (Z.eqb_spec (type (record_at s (entry, idx))) 0); [contradiction |].
    split; [| split; assumption].
    pose proof (add_to_list_lost dm ok handle ty p s Hwf) as Hlost.
    rewrite Hr in Hlost. cbn [fst] in Hlost. rewrite (Hlost (proj2 He) Hn) in Hrun.
    injection Hrun as <-. reflexivity.
  - pose proof (add_to_list_cas_in_range _ _ _ ty _ _ _ Hwf Hr (proj2 He) Hok) as Hcas.
    eexists. split; [exact Hcas |]. split.
    + pose proof (add_to_list_steps dm ok handle ty p s) as Hsteps.
      unfold bind in Hsteps. rewrite Hcas in Hsteps. rewrite <- Hsteps. exact Hrun.
    + intros H0 Hty.
      set (s1 := set_fsync_list _ s).
      assert (Hwf1 : cache_wf dm s1) by (apply cache_wf_update, Hwf).
      assert (Hrec1 : record_at s1 (entry, idx)
                      = {| type := ty; shm := shm (record_at s (entry, idx)) |}).
      { subst s1. rewrite (record_at_update dm s entry idx _ _ Hwf He Hi).
        rewrite decide_True by reflexivity.
        unfold type_swapped. rewrite H0. reflexivity. }
      split.
      * rewrite (read_cached_in_range dm handle s1 entry idx Hwf1 Hr (proj2 He)).
        rewrite Hrec1. cbn [type].
        destruct (Z.eqb_spec ty 0); [contradiction | reflexivity].
      * intros ok' ty' p'.
        pose proof (add_to_list_lost dm ok' handle ty' p' s1 Hwf1) as Hlost.
        rewrite Hr in Hlost. cbn [fst] in Hlost. apply Hlost; [lia |].
        rewrite Hrec1. exact Hty.
Qed.

Lemma add_to_list_then_get_cached_object_witness :
  exists s' r,
    cache_wf LP64 initial_state /\
    add_to_list LP64 true 8 FSYNC_SEMAPHORE 4242 initial_state = Ret (Some r) s' /\
    get_cached_object LP64 8 s' = Ret (Some r) s' /\
    read_cached LP64 8 s' = Some {| type := FSYNC_SEMAPHORE; shm := 4242 |}.
Proof.
  destruct (add_to_list LP64 true 8 FSYNC_SEMAPHORE 4242 initial_state)
    as [[r|] s' | |] eqn:Hrun; try (vm_compute in Hrun; discriminate).
  exists s', r.
  split; [apply cache_wf_initial |]. split; [reflexivity |].
  apply (add_to_list_then_get_cached_object LP64 true 8 FSYNC_SEMAPHORE 4242
           initial_state r s' (cache_wf_initial LP64) Hrun).
  - assert (r = (0, 1)) as -> by (vm_compute in Hrun; congruence). reflexivity.
  - discriminate.
Defined.

(** C1, the claim as the specification words it, refuted: the writer of
    line 188-189 has made the type of handle 8 nonzero and has not yet
    stored the shm pointer 4242; a reader then obtains from
    [get_cached_object] a record with the type set and the pointer unset,
    which is neither NULL nor the complete record. *)
Lemma add_to_list_type_visible_before_shm :
  exists pending s1,
    add_to_list_cas LP64 true 8 FSYNC_SEMAPHORE initial_state = Ret pending s1 /\
    add_to_list_store pending 4242 s1
    = add_to_list LP64 true 8 FSYNC_SEMAPHORE 4242 initial_state /\
    read_cached LP64 8 s1 = Some {| type := FSYNC_SEMAPHORE; shm := 0 |} /\
    read_cached LP64 8 s1 <> None /\
    read_cached LP64 8 s1 <> Some {| type := FSYNC_SEMAPHORE; shm := 4242 |}.
Proof.
  destruct (add_to_list_cas LP64 true 8 FSYNC_SEMAPHORE initial_state)
    as [pending s1 | |] eqn:Hcas; try (vm_compute in Hcas; discriminate).
  exists pending, s1. split; [reflexivity |].
  pose proof (add_to_list_steps LP64 true 8 FSYNC_SEMAPHORE 4242 initial_state) as Hsteps.
  unfold bind in Hsteps. rewrite Hcas in Hsteps.
  split; [symmetry; exact Hsteps |].
  assert (Hread : read_cached LP64 8 s1 = Some {| type := FSYNC_SEMAPHORE; shm := 0 |}).
  { vm_compute in Hcas. injection Hcas as _ <-. vm_compute. reflexivity. }
  rewrite Hread. repeat split; discriminate.
Qed.

(** ** Feature gate *)

Lemma fsync_enabled_value_bool e : fsync_enabled_value e = 0 \/ fsync_enabled_value e = 1.
Proof.
  unfold fsync_enabled_value. destruct (getenv_WINEFSYNC e) as [v|]; [| left; reflexivity].
  destruct (atoi e v =? 0); [left; reflexivity |].
  destruct (errno_read e v =? ENOSYS); [left | right]; reflexivity.
Qed.

Lemma do_fsync_first e s :
  do_fsync_cached s = -1 ->
  exists s',
    do_fsync e s = Ret (fsync_enabled_value e) s' /\
    do_fsync_cached s' = fsync_enabled_value e /\
    log s' = first_call_events e ++ log s /\
    shm_name s' = shm_name s /\ shm_fd s' = shm_fd s /\
    shm_addrs s' = shm_addrs s /\ shm_addrs_size s' = shm_addrs_size s /\
    pagesize s' = pagesize s /\ fsync_list s' = fsync_list s.
Proof.
  intros H. unfold do_fsync, bind, gets, when, eval_fsync_enabled, futex_wait_multiple,
    emit, modify, bind, ret, fsync_enabled_value, first_call_events.
  rewrite H. cbn [Z.eqb Pos.eqb].
  destruct (getenv_WINEFSYNC e) as [v|].
  - destruct (atoi e v =? 0); [eexists; repeat split |].
    destruct (errno_read e v =? ENOSYS); eexists; repeat split.
  - eexists; repeat split.
Qed.

Lemma do_fsync_cached_hit e s :
  do_fsync_cached s <> -1 -> do_fsync e s = Ret (do_fsync_cached s) s.
Proof.
  intros H. unfold do_fsync, bind, gets, when.
  destruct (Z.eqb_spec (do_fsync_cached s) (-1)); [contradiction | reflexivity].
Qed.

Lemma do_fsync_calls_cached es : forall s,
  do_fsync_cached s <> -1 ->
  do_fsync_calls es s = (map (fun _ => do_fsync_cached s) es, s).
Proof.
  induction es as [| e rest IH]; intros s H; [reflexivity |].
  cbn [do_fsync_calls map]. rewrite (do_fsync_cached_hit e s H), (IH s H). reflexivity.
Qed.

Lemma first_call_counts e l :
  count_probes (first_call_events e ++ l) = S (count_probes l) /\
  count_getenv (first_call_events e ++ l)
  = (count_getenv l + first_call_getenvs e)%nat.
Proof.
  unfold count_probes, count_getenv, first_call_events, first_call_getenvs.
  destruct (getenv_WINEFSYNC e); cbn; split; lia.
Qed.

(** C6. The decision of [do_fsync] is computed at most once: whatever the
    state of the process, the first call runs the probing system call and
    reads the environment (one [getenv], and a second one for [atoi] when
    the variable is set) only if no decision is cached, and every later
    call, whatever the environment and [errno] have become, runs neither
    and returns the value the first call returned. *)
Theorem do_fsync_decided_once e es s :
  exists v s1,
    do_fsync e s = Ret v s1 /\
    do_fsync_calls es s1 = (map (fun _ => v) es, s1) /\
    (do_fsync_cached s = -1 ->
     v = fsync_enabled_value e /\
     count_probes (log s1) = S (count_probes (log s)) /\
     count_getenv (log s1) = (count_getenv (log s) + first_call_getenvs e)%nat) /\
    (do_fsync_cached s <> -1 -> v = do_fsync_cached s /\ s1 = s).
Proof.
  destruct (Z.eq_dec (do_fsync_cached s) (-1)) as [Heq | Hne].
  - destruct (do_fsync_first e s Heq) as (s1 & Hrun & Hc & Hlog & _).
    exists (fsync_enabled_value e), s1. split; [exact Hrun |].
    split.
    + rewrite (do_fsync_calls_cached es s1), Hc; [reflexivity |]. rewrite Hc.
      destruct (fsync_enabled_value_bool e) as [-> | ->]; discriminate.
    + split; [| contradiction]. intros _. split; [reflexivity |].
      rewrite Hlog. apply first_call_counts.
  - exists (do_fsync_cached s), s. split; [apply (do_fsync_cached_hit e s Hne) |].
    split; [apply (do_fsync_calls_cached es s Hne) |].
    split; [contradiction | intros _; split; reflexivity].
Qed.

Lemma do_fsync_decided_once_witness :
  exists v s1,
    do_fsync env_enabled initial_state = Ret v s1 /\
    do_fsync_calls [env_disabled; env_enabled] s1 = ([v; v], s1) /\
    (do_fsync_cached initial_state = -1 ->
     v = fsync_enabled_value env_enabled /\
     count_probes (log s1) = S (count_probes (log initial_state)) /\
     count_getenv (log s1) = (count_getenv (log initial_state) + 2)%nat) /\
    (do_fsync_cached initial_state <> -1 ->
     v = do_fsync_cached initial_state /\ s1 = initial_state).
Proof.
  exact (do_fsync_decided_once env_enabled [env_disabled; env_enabled] initial_state).
Defined.

(** ** Shared page pool: arithmetic *)

Lemma to_uint_range x : 0 <= to_uint x < 2 ^ 32.
Proof. unfold to_uint. apply Z.mod_pos_bound. reflexivity. Qed.

Lemma to_int_small x : - 2 ^ 31 <= x < 2 ^ 31 -> to_int x = x.
Proof. intros H. unfold to_int. rewrite Z.mod_small; lia. Qed.

Lemma long_operand_small dm ps : 0 <= ps <= 2 ^ 30 -> long_operand dm ps = ps.
Proof.
  intros H. destruct dm; [| reflexivity]. unfold long_operand, to_uintptr, ptr_modulus.
  cbn [ptr_bits]. apply Z.mod_small. lia.
Qed.

Lemma shm_entry_eq idx ps :
  4 <= ps <= 2 ^ 30 ->
  shm_entry idx ps = to_uint (to_uint idx * 8) / ps /\ 0 <= shm_entry idx ps < 2 ^ 30.
Proof.
  intros Hps. unfold shm_entry. pose proof (to_uint_range (to_uint idx * 8)) as Hn.
  set (n := to_uint (to_uint idx * 8)) in *.
  rewrite Z.quot_div_nonneg by lia.
  assert (0 <= n / ps < 2 ^ 30).
  { split; [apply Z.div_pos; lia |].
    apply Z.div_lt_upper_bound; [lia |]. change (2 ^ 32) with (4 * 2 ^ 30) in Hn. nia. }
  rewrite to_int_small by lia. split; [reflexivity | assumption].
Qed.

Lemma shm_offset_eq idx ps :
  4 <= ps <= 2 ^ 30 ->
  shm_offset idx ps = to_uint (to_uint idx * 8) mod ps /\ 0 <= shm_offset idx ps < ps.
Proof.
  intros Hps. unfold shm_offset. pose proof (to_uint_range (to_uint idx * 8)) as Hn.
  set (n := to_uint (to_uint idx * 8)) in *.
  rewrite Z.rem_mod_nonneg by lia.
  pose proof (Z.mod_pos_bound n ps ltac:(lia)) as Hm.
  rewrite to_int_small by lia. split; [reflexivity | assumption].
Qed.

(** ** Shared page pool: what one call does *)

Lemma set_shm_addrs_id s : set_shm_addrs (shm_addrs s) s = s.
Proof. destruct s; reflexivity. Qed.

Lemma load_shm_addr_eq entry l a s :
  shm_addrs s = Some l -> index l entry = Some a -> load_shm_addr entry s = Ret a s.
Proof. intros Hl Ha. unfold load_shm_addr. rewrite Hl, Ha. reflexivity. Qed.

Lemma grown_size_ge size entry : 0 <= size -> size <= grown_size size entry /\ entry < grown_size size entry.
Proof.
  intros H. unfold grown_size. destruct (Z.geb_spec entry size); lia.
Qed.

Lemma length_grown l size entry :
  Z.of_nat (length l) = size -> Z.of_nat (length (grown l size entry)) = grown_size size entry.
Proof.
  intros H. unfold grown. rewrite length_app, length_replicate.
  pose proof (grown_size_ge size entry ltac:(lia)). lia.
Qed.

Lemma index_grown_old l size entry i c :
  index l i = Some c -> index (grown l size entry) i = Some c.
Proof.
  intros H. apply index_Some in H as [H0 H]. apply index_Some. split; [exact H0 |].
  unfold grown. apply lookup_app_l_Some, H.
Qed.

Lemma index_grown_new l size entry i :
  Z.of_nat (length l) = size -> size <= i < grown_size size entry ->
  index (grown l size entry) i = Some 0.
Proof.
  intros Hl Hi. apply index_Some. split; [lia |]. unfold grown.
  rewrite lookup_app_r by lia. apply lookup_replicate_2. lia.
Qed.

(** The growth of the array when [realloc] succeeds. *)
Lemma grow_shm_addrs_ok e entry l s :
  shm_addrs s = Some l -> Z.of_nat (length l) = shm_addrs_size s ->
  shm_addrs_size s <= entry < 2 ^ 30 ->
  realloc_ok e = true ->
  grow_shm_addrs e entry s =
  Ret tt (set_shm_addrs_size (grown_size (shm_addrs_size s) entry)
            (set_shm_addrs (Some (grown l (shm_addrs_size s) entry)) s)).
Proof.
  intros Hl Hlen He Hok. unfold grow_shm_addrs.
  set (size := shm_addrs_size s) in *.
  assert (Hgs : grown_size size entry = Z.max (size * 2) (entry + 1)).
  { unfold grown_size. destruct (Z.geb_spec entry size); [reflexivity | lia]. }
  unfold bind at 1. unfold gets at 1. fold size.
  unfold int_result.
  assert (H1 : (INT_MIN <=? size * 2) && (size * 2 <=? INT_MAX) = true).
  { apply andb_true_intro. unfold INT_MIN, INT_MAX. split; apply Z.leb_le; lia. }
  assert (H2 : (INT_MIN <=? entry + 1) && (entry + 1 <=? INT_MAX) = true).
  { apply andb_true_intro. unfold INT_MIN, INT_MAX. split; apply Z.leb_le; lia. }
  rewrite H1, H2. unfold bind, ret, gets, modify, when.
  cbn [shm_addrs set_shm_addrs]. rewrite Hl.
  unfold realloc. rewrite Hok. cbn [default].
  rewrite bool_decide_false by discriminate.
  rewrite <- Hgs. set (new := grown_size size entry).
  assert (Hnew : size <= new /\ entry < new) by (apply grown_size_ge; lia).
  set (lr := take (Z.to_nat new) _).
  assert (Hlr : lr = l ++ replicate (Z.to_nat new - length l)%nat (realloc_junk e)).
  { subst lr. apply take_ge. rewrite length_app, length_replicate. lia. }
  assert (Hlenr : length lr = Z.to_nat new).
  { rewrite Hlr, length_app, length_replicate. lia. }
  unfold memset_zero.
  assert (Hc : (0 <=? size) && (0 <=? new - size) && (size + (new - size) <=? Z.of_nat (length lr)) = true).
  { rewrite Hlenr. repeat (apply andb_true_intro; split); apply Z.leb_le; lia. }
  rewrite Hc. cbn [shm_addrs_size set_shm_addrs fsync_list pagesize log do_fsync_cached shm_name shm_fd].
  assert (Ht : take (Z.to_nat size) lr = l).
  { rewrite Hlr. rewrite take_app_length' by lia. reflexivity. }
  assert (Hd : drop (Z.to_nat (size + (new - size))) lr = []).
  { apply drop_ge. lia. }
  rewrite Ht, Hd, app_nil_r. reflexivity.
Qed.

(** The growth of the array when [realloc] fails: the failure is logged,
    and the [memset] that follows writes through the NULL array. *)
Lemma grow_shm_addrs_failed e entry s :
  0 <= shm_addrs_size s <= entry -> entry < 2 ^ 30 ->
  realloc_ok e = false ->
  grow_shm_addrs e entry s =
  Fault (add_event (EvERR "Failed to grow shm_addrs array to size %d.")
           (set_shm_addrs None s)).
Proof.
  intros He He' Hok. unfold grow_shm_addrs.
  set (size := shm_addrs_size s) in *.
  unfold bind at 1. unfold gets at 1. fold size.
  unfold int_result.
  assert (H1 : (INT_MIN <=? size * 2) && (size * 2 <=? INT_MAX) = true).
  { apply andb_true_intro. unfold INT_MIN, INT_MAX. split; apply Z.leb_le; lia. }
  assert (H2 : (INT_MIN <=? entry + 1) && (entry + 1 <=? INT_MAX) = true).
  { apply andb_true_intro. unfold INT_MIN, INT_MAX. split; apply Z.leb_le; lia. }
  rewrite H1, H2. unfold bind, ret, gets, modify, when, realloc. rewrite Hok.
  reflexivity.
Qed.

Lemma same_but_pool_refl s : same_but_pool s s.
Proof. repeat split. Qed.

Lemma same_but_pool_trans s1 s2 s3 :
  same_but_pool s1 s2 -> same_but_pool s2 s3 -> same_but_pool s1 s3.
Proof.
  unfold same_but_pool. intros (?&?&?&?&?) (?&?&?&?&?). repeat split; congruence.
Qed.

(** Lines 135-145 on a slot inside the array. *)
Lemma map_page_eq dm e entry l cur s :
  shm_addrs s = Some l -> index l entry = Some cur ->
  exists s',
    map_page dm e entry s = Ret tt s' /\
    shm_addrs s' = Some (update l entry (page_address e l entry)) /\
    index (update l entry (page_address e l entry)) entry = Some (page_address e l entry) /\
    shm_addrs_size s' = shm_addrs_size s /\
    same_but_pool s s' /\
    (cur <> 0 -> s' = s) /\
    (cur = 0 ->
     log s' = EvTRACE "Mapping page %d at %p."
              :: (if mmap_ret e =? MAP_FAILED dm
                  then [EvERR "Failed to map page %d (offset %#lx)."] else [])
              ++ EvMmap entry (mmap_ret e) :: log s).
Proof.
  intros Hl Hc. pose proof (index_bound _ _ _ Hc) as Hb.
  unfold map_page, page_address. rewrite Hc.
  unfold bind at 1. rewrite (load_shm_addr_eq _ _ _ _ Hl Hc).
  unfold when at 1. destruct (Z.eqb_spec cur 0) as [-> | Hne].
  - unfold bind, emit, modify, when, ret, cas_shm_addr.
    destruct (mmap_ret e =? MAP_FAILED dm);
      cbn [shm_addrs add_event]; rewrite Hl, Hc; cbn [Z.eqb negb];
      (eexists; split; [reflexivity |]);
      (split; [reflexivity |]);
      (split; [apply index_update_eq, Hb |]);
      (split; [reflexivity |]);
      (split; [repeat split |]);
      (split; [intros H; contradiction | intros _; reflexivity]).
  - exists s. split; [reflexivity |].
    rewrite (update_same _ _ _ Hc).
    repeat split; try assumption; try reflexivity. intros; contradiction.
Qed.

(** [get_shm] in a well-formed pool, when the array needs no growth or
    [realloc] succeeds: the call returns the address in the page's slot
    plus the offset. *)
Lemma get_shm_ok dm e idx s l :
  pool_wf s -> shm_addrs s = Some l ->
  shm_entry idx (pagesize s) < shm_addrs_size s \/ realloc_ok e = true ->
  let entry := shm_entry idx (pagesize s) in
  let g := grown l (shm_addrs_size s) entry in
  exists s',
    get_shm dm e idx s
    = Ret (to_uintptr dm (page_address e g entry + shm_offset idx (pagesize s))) s' /\
    shm_addrs s' = Some (update g entry (page_address e g entry)) /\
    index (update g entry (page_address e g entry)) entry = Some (page_address e g entry) /\
    shm_addrs_size s' = grown_size (shm_addrs_size s) entry /\
    same_but_pool s s' /\
    pool_wf s'.
Proof.
  intros Hwf Hl Hcase entry g. pose proof Hwf as [Hps (l0 & Hl0 & Hlen)].
  rewrite Hl in Hl0. injection Hl0 as <-.
  pose proof (shm_entry_eq idx (pagesize s) Hps) as [_ He]. fold entry in He.
  assert (Hfinish : forall s1,
    shm_addrs s1 = Some g -> shm_addrs_size s1 = grown_size (shm_addrs_size s) entry ->
    same_but_pool s s1 ->
    exists s',
      (do _ <- map_page dm e entry;;
       do a <- load_shm_addr entry;;
       ret (to_uintptr dm (a + shm_offset idx (pagesize s)))) s1
      = Ret (to_uintptr dm (page_address e g entry + shm_offset idx (pagesize s))) s' /\
      shm_addrs s' = Some (update g entry (page_address e g entry)) /\
      index (update g entry (page_address e g entry)) entry = Some (page_address e g entry) /\
      shm_addrs_size s' = grown_size (shm_addrs_size s) entry /\
      same_but_pool s s' /\ pool_wf s').
  { intros s1 Hg Hsz Hsame.
    pose proof (length_grown l _ entry Hlen) as Hleng. fold g in Hleng.
    pose proof (grown_size_ge (shm_addrs_size s) entry ltac:(lia)) as [Hgs1 Hgs2].
    destruct (index_in_range g entry) as [cur Hcur]; [lia |].
    destruct (map_page_eq dm e entry g cur s1 Hg Hcur)
      as (s' & Hrun & Hl' & Hidx & Hsz' & Hsame' & _).
    exists s'. unfold bind. rewrite Hrun.
    rewrite (load_shm_addr_eq _ _ _ _ Hl' Hidx).
    split; [reflexivity |]. split; [exact Hl' |]. split; [exact Hidx |].
    split; [congruence |].
    split; [eapply same_but_pool_trans; eassumption |].
    split.
    - destruct Hsame as (_&_&_&Hp&_), Hsame' as (_&_&_&Hp'&_). rewrite Hp', Hp. exact Hps.
    - eexists. split; [exact Hl' |]. rewrite length_update. congruence. }
  unfold get_shm. unfold bind at 1. unfold gets at 1.
  unfold div_by_long, rem_by_long. rewrite (long_operand_small dm (pagesize s) ltac:(lia)).
  destruct (Z.eqb_spec (pagesize s) 0); [lia |].
  unfold bind at 1. unfold ret at 1. unfold bind at 1. unfold ret at 1.
  fold (shm_entry idx (pagesize s)). fold (shm_offset idx (pagesize s)). fold entry.
  unfold bind at 1. unfold gets at 1.
  unfold bind at 1. unfold when at 1.
  destruct (Z.geb_spec entry (shm_addrs_size s)) as [Hge | Hlt].
  - destruct Hcase as [Hlt | Hok]; [lia |].
    rewrite (grow_shm_addrs_ok e entry l s Hl Hlen ltac:(lia) Hok).
    apply Hfinish; [reflexivity | reflexivity | repeat split].
  - unfold ret at 1.
    assert (Hg : g = l).
    { subst g. unfold grown, grown_size.
      destruct (Z.geb_spec entry (shm_addrs_size s)); [lia |].
      rewrite Z.sub_diag. apply app_nil_r. }
    apply Hfinish; [rewrite Hg; exact Hl | | apply same_but_pool_refl].
    unfold grown_size. destruct (Z.geb_spec entry (shm_addrs_size s)); [lia | reflexivity].
Qed.

(** [get_shm] when the page is outside the array and [realloc] fails. *)
Lemma get_shm_realloc_failed dm e idx s :
  pool_wf s -> shm_addrs_size s <= shm_entry idx (pagesize s) -> realloc_ok e = false ->
  get_shm dm e idx s =
  Fault (add_event (EvERR "Failed to grow shm_addrs array to size %d.")
           (set_shm_addrs None s)).
Proof.
  intros [Hps (l & Hl & Hlen)] Hge Hok.
  pose proof (shm_entry_eq idx (pagesize s) Hps) as [_ He].
  unfold get_shm. unfold bind at 1. unfold gets at 1.
  unfold div_by_long, rem_by_long. rewrite (long_operand_small dm (pagesize s) ltac:(lia)).
  destruct (Z.eqb_spec (pagesize s) 0); [lia |].
  unfold bind at 1. unfold ret at 1. unfold bind at 1. unfold ret at 1.
  fold (shm_entry idx (pagesize s)).
  unfold bind at 1. unfold gets at 1.
  unfold bind at 1. unfold when at 1.
  destruct (Z.geb_spec (shm_entry idx (pagesize s)) (shm_addrs_size s)); [| lia].
  rewrite (grow_shm_addrs_failed e (shm_entry idx (pagesize s)) s ltac:(lia) ltac:(lia) Hok).
  reflexivity.
Qed.

Lemma pool_wf_initialised : pool_wf initialised_state.
Proof.
  split; [vm_compute; split; discriminate |].
  eexists. split; reflexivity.
Qed.

(** A call of [get_shm] that returns did not need [realloc] or got it. *)
Lemma get_shm_Ret_inv dm e idx s p s' :
  pool_wf s -> get_shm dm e idx s = Ret p s' ->
  shm_entry idx (pagesize s) < shm_addrs_size s \/ realloc_ok e = true.
Proof.
  intros Hwf Hrun.
  destruct (Z.lt_ge_cases (shm_entry idx (pagesize s)) (shm_addrs_size s)) as [Hlt | Hge];
    [left; exact Hlt |].
  destruct (realloc_ok e) eqn:Hok; [right; reflexivity |].
  rewrite (get_shm_realloc_failed dm e idx s Hwf Hge Hok) in Hrun. discriminate.
Qed.

(** C4, at the failing input.  The page pool is as [fsync_init] left it
    (128 slots, 4 KiB pages); slot index 65536 lies in page 128, so the
    array must grow, and [realloc] fails.  The failure is logged, and the
    call does not return a pointer: it goes on to clear and read the array
    through the NULL pointer it has just stored in [shm_addrs]. *)
Theorem get_shm_realloc_failure_faults :
  shm_entry 65536 (pagesize initialised_state) = 128 /\
  shm_addrs_size initialised_state = 128 /\
  get_shm LP64 shm_env_no_memory 65536 initialised_state =
  Fault (add_event (EvERR "Failed to grow shm_addrs array to size %d.")
           (set_shm_addrs None initialised_state)).
Proof.
  split; [reflexivity |]. split; [reflexivity |].
  apply get_shm_realloc_failed.
  - apply pool_wf_initialised.
  - vm_compute. discriminate.
  - reflexivity.
Qed.

(** The other half of C4 holds: a failure of [mmap] is logged and the call
    returns a pointer all the same, the failure value plus the offset. *)
Lemma get_shm_mmap_failure_returns dm e idx s l :
  pool_wf s -> shm_addrs s = Some l ->
  shm_entry idx (pagesize s) < shm_addrs_size s ->
  index l (shm_entry idx (pagesize s)) = Some 0 ->
  mmap_ret e = MAP_FAILED dm ->
  exists s',
    get_shm dm e idx s
    = Ret (to_uintptr dm (MAP_FAILED dm + shm_offset idx (pagesize s))) s' /\
    In (EvERR "Failed to map page %d (offset %#lx).") (log s').
Proof.
  intros Hwf Hl Hlt Hcur Hfail. pose proof Hwf as [Hps (l0 & Hl0 & Hlen)].
  rewrite Hl in Hl0. injection Hl0 as <-.
  pose proof (shm_entry_eq idx (pagesize s) Hps) as [_ He].
  unfold get_shm. unfold bind at 1. unfold gets at 1.
  unfold div_by_long, rem_by_long. rewrite (long_operand_small dm (pagesize s) ltac:(lia)).
  destruct (Z.eqb_spec (pagesize s) 0); [lia |].
  unfold bind at 1. unfold ret at 1. unfold bind at 1. unfold ret at 1.
  fold (shm_entry idx (pagesize s)). fold (shm_offset idx (pagesize s)).
  unfold bind at 1. unfold gets at 1.
  unfold bind at 1. unfold when at 1.
  destruct (Z.geb_spec (shm_entry idx (pagesize s)) (shm_addrs_size s)); [lia |].
  unfold ret at 1.
  destruct (map_page_eq dm e _ l 0 s Hl Hcur) as (s' & Hrun & Hl' & Hidx & _ & _ & _ & Hlog).
  unfold bind. rewrite Hrun. rewrite (load_shm_addr_eq _ _ _ _ Hl' Hidx).
  exists s'. unfold page_address. rewrite Hcur. cbn [Z.eqb]. rewrite Hfail.
  split; [reflexivity |].
  rewrite (Hlog eq_refl), Hfail, Z.eqb_refl. right. left. reflexivity.
Qed.

Lemma spec_page_is_shm_entry idx ps :
  0 <= idx < 2 ^ 29 -> 4 <= ps <= 2 ^ 30 ->
  shm_entry idx ps = spec_page idx ps /\ shm_offset idx ps = spec_offset idx ps.
Proof.
  intros Hi Hps.
  destruct (shm_entry_eq idx ps Hps) as [-> _], (shm_offset_eq idx ps Hps) as [-> _].
  unfold spec_page, spec_offset, sizeof_semaphore, to_uint.
  rewrite (Z.mod_small idx) by lia. rewrite (Z.mod_small (idx * 8)) by lia.
  split; reflexivity.
Qed.

(** C9, as the code has it.  For a slot index below 2^29, so that
    [idx * 8] does not wrap in [unsigned int], and a page size between 4
    bytes and 1 GiB, [get_shm] uses the page [idx * 8 / pagesize] and the
    offset [idx * 8 % pagesize], 8 being the size of a semaphore's state
    block: it returns the address in that page's slot plus that offset.
    When the page is outside the array the array grows to
    [max( 2 * size, page + 1 )] elements (given that [realloc] succeeds),
    otherwise it keeps its size; the other slots keep their contents. *)
Theorem get_shm_page_and_offset dm e idx s l :
  pool_wf s -> shm_addrs s = Some l ->
  0 <= idx < 2 ^ 29 ->
  let page := spec_page idx (pagesize s) in
  let offset := spec_offset idx (pagesize s) in
  let size := shm_addrs_size s in
  page < size \/ realloc_ok e = true ->
  exists s' l' a,
    get_shm dm e idx s = Ret (to_uintptr dm (a + offset)) s' /\
    shm_addrs s' = Some l' /\ index l' page = Some a /\
    shm_addrs_size s' = (if page >=? size then Z.max (size * 2) (page + 1) else size) /\
    Z.of_nat (length l') = shm_addrs_size s' /\
    (forall i c, i <> page -> index l i = Some c -> index l' i = Some c).
Proof.
  intros Hwf Hl Hidx page offset size Hcase.
  pose proof Hwf as [Hps _].
  destruct (spec_page_is_shm_entry idx (pagesize s) Hidx Hps) as [Hpage Hoff].
  fold page in Hpage. fold offset in Hoff.
  destruct (get_shm_ok dm e idx s l Hwf Hl) as (s' & Hrun & Hl' & Hi' & Hsz & _ & Hwf').
  { rewrite Hpage. exact Hcase. }
  rewrite Hpage, Hoff in *.
  eexists s', _, _. split; [exact Hrun |]. split; [exact Hl' |]. split; [exact Hi' |].
  split; [exact Hsz |]. split.
  - destruct Hwf' as [_ (l1 & Hl1 & Hlen1)]. congruence.
  - intros i c Hne Hc. rewrite index_update_ne by congruence.
    apply index_grown_old, Hc.
Qed.

Lemma get_shm_page_and_offset_witness :
  pool_wf initialised_state /\
  spec_page 65536 (pagesize initialised_state) = 128 /\
  spec_offset 65540 (pagesize initialised_state) = 32 /\
  exists s' l' a,
    get_shm LP64 shm_env_ok 65540 initialised_state = Ret (to_uintptr LP64 (a + 32)) s' /\
    shm_addrs s' = Some l' /\ index l' 128 = Some a /\
    shm_addrs_size s' = 256 /\
    Z.of_nat (length l') = shm_addrs_size s' /\
    (forall i c, i <> 128 -> index (replicate 128 0) i = Some c -> index l' i = Some c).
Proof.
  split; [apply pool_wf_initialised |]. split; [reflexivity |]. split; [reflexivity |].
  apply (get_shm_page_and_offset LP64 shm_env_ok 65540 initialised_state (replicate 128 0)
           pool_wf_initialised eq_refl).
  - split; [discriminate | reflexivity].
  - right. reflexivity.
Defined.

(** C9, the claim as the specification words it, refuted at slot index
    2^29 with 4 KiB pages: the product [idx * 8] wraps to 0 in
    [unsigned int], so [get_shm] uses page 0 and does not grow its array of
    128 slots, where the formula over the integers gives page 1048576. *)
Lemma get_shm_index_wraps :
  spec_page (2 ^ 29) (pagesize initialised_state) = 1048576 /\
  shm_entry (2 ^ 29) (pagesize initialised_state) = 0 /\
  exists s' l',
    get_shm LP64 shm_env_ok (2 ^ 29) initialised_state = Ret (mmap_ret shm_env_ok) s' /\
    shm_addrs s' = Some l' /\
    shm_addrs_size s' = 128 /\
    index l' 0 = Some (mmap_ret shm_env_ok) /\
    index l' 1048576 = None.
Proof.
  split; [reflexivity |]. split; [reflexivity |].
  destruct (get_shm LP64 shm_env_ok (2 ^ 29) initialised_state) as [p s' | |] eqn:Hrun;
    try (vm_compute in Hrun; discriminate).
  vm_compute in Hrun. injection Hrun as <- <-.
  eexists _, _. split; [reflexivity |]. split; [reflexivity |].
  split; [reflexivity |]. split; reflexivity.
Qed.

(** ** Shared page pool: stability of mapped pages *)

Lemma grown_same l size entry :
  Z.of_nat (length l) = size -> entry < size -> grown l size entry = l.
Proof.
  intros Hl Hlt. unfold grown, grown_size.
  destruct (Z.geb_spec entry size); [lia |]. rewrite Z.sub_diag. apply app_nil_r.
Qed.

(** A page once mapped stays where it is, whatever [get_shm] is called for. *)
Lemma get_shm_keeps_pages dm e idx s p s' l i c :
  pool_wf s -> shm_addrs s = Some l -> index l i = Some c -> c <> 0 ->
  get_shm dm e idx s = Ret p s' ->
  exists l', shm_addrs s' = Some l' /\ index l' i = Some c /\
             pool_wf s' /\ pagesize s' = pagesize s.
Proof.
  intros Hwf Hl Hc Hne Hrun.
  pose proof (get_shm_Ret_inv dm e idx s p s' Hwf Hrun) as Hcase.
  destruct (get_shm_ok dm e idx s l Hwf Hl Hcase) as (s1 & Hrun1 & Hl1 & _ & _ & Hsame & Hwf1).
  rewrite Hrun in Hrun1. injection Hrun1 as _ <-.
  eexists. split; [exact Hl1 |].
  split; [| split; [exact Hwf1 | apply Hsame]].
  set (entry := shm_entry idx (pagesize s)) in *.
  pose proof (index_grown_old l (shm_addrs_size s) entry i c Hc) as Hg.
  destruct (Z.eq_dec i entry) as [-> | Hni].
  - unfold page_address. rewrite Hg.
    destruct (Z.eqb_spec c 0); [contradiction |].
    rewrite (update_same _ _ _ Hg). exact Hg.
  - rewrite index_update_ne by congruence. exact Hg.
Qed.

Lemma get_shm_calls_keep_pages dm calls : forall s s' l i c,
  pool_wf s -> shm_addrs s = Some l -> index l i = Some c -> c <> 0 ->
  get_shm_calls dm calls s = Ret tt s' ->
  exists l', shm_addrs s' = Some l' /\ index l' i = Some c /\
             pool_wf s' /\ pagesize s' = pagesize s.
Proof.
  induction calls as [| [e idx] rest IH]; intros s s' l i c Hwf Hl Hc Hne Hrun.
  - injection Hrun as <-. exists l. repeat split; try assumption; apply Hwf.
  - cbn [get_shm_calls] in Hrun. unfold bind in Hrun.
    destruct (get_shm dm e idx s) as [p s1 | |] eqn:H1; try discriminate.
    destruct (get_shm_keeps_pages dm e idx s p s1 l i c Hwf Hl Hc Hne H1)
      as (l1 & Hl1 & Hc1 & Hwf1 & Hps1).
    destruct (IH s1 s' l1 i c Hwf1 Hl1 Hc1 Hne Hrun) as (l' & Hl' & Hc' & Hwf' & Hps').
    exists l'. repeat split; try assumption; try apply Hwf'. congruence.
Qed.

(** [get_shm] for a slot whose page is mapped: the published address plus
    the offset, and no change to the array. *)
Lemma get_shm_mapped dm e idx s l a :
  pool_wf s -> shm_addrs s = Some l ->
  index l (shm_entry idx (pagesize s)) = Some a -> a <> 0 ->
  exists s',
    get_shm dm e idx s = Ret (to_uintptr dm (a + shm_offset idx (pagesize s))) s' /\
    shm_addrs s' = shm_addrs s /\ shm_addrs_size s' = shm_addrs_size s.
Proof.
  intros Hwf Hl Ha Hne. pose proof Hwf as [_ (l0 & Hl0 & Hlen)].
  rewrite Hl in Hl0. injection Hl0 as <-.
  pose proof (index_bound _ _ _ Ha) as Hb.
  destruct (get_shm_ok dm e idx s l Hwf Hl) as (s' & Hrun & Hl' & _ & Hsz & _).
  { left. lia. }
  rewrite (grown_same l _ _ Hlen) in Hrun, Hl' by lia.
  unfold page_address in Hrun, Hl'. rewrite Ha in Hrun, Hl'.
  destruct (Z.eqb_spec a 0); [contradiction |].
  rewrite (update_same _ _ _ Ha) in Hl'.
  exists s'. split; [exact Hrun |]. split; [congruence |].
  rewrite Hsz. unfold grown_size.
  destruct (Z.geb_spec (shm_entry idx (pagesize s)) (shm_addrs_size s)); [lia | reflexivity].
Qed.

(** Repeated calls of [get_shm] for one slot index return one pointer,
    whatever other slots are asked for in between. *)
Lemma get_shm_idempotent dm e1 idx s p1 s1 calls s2 e2 :
  pool_wf s -> mmap_ret e1 <> 0 ->
  get_shm dm e1 idx s = Ret p1 s1 ->
  get_shm_calls dm calls s1 = Ret tt s2 ->
  exists s3, get_shm dm e2 idx s2 = Ret p1 s3 /\ shm_addrs s3 = shm_addrs s2.
Proof.
  intros Hwf Hmm Hrun1 Hcalls. pose proof Hwf as [_ (l & Hl & Hlen)].
  pose proof (get_shm_Ret_inv dm e1 idx s p1 s1 Hwf Hrun1) as Hcase.
  destruct (get_shm_ok dm e1 idx s l Hwf Hl Hcase)
    as (s1' & Hrun1' & Hl1 & Hi1 & _ & Hsame1 & Hwf1).
  rewrite Hrun1 in Hrun1'. injection Hrun1' as Hp1 <-.
  set (entry := shm_entry idx (pagesize s)) in *.
  set (a := page_address e1 (grown l (shm_addrs_size s) entry) entry) in *.
  assert (Ha : a <> 0).
  { subst a. unfold page_address.
    destruct (index (grown l (shm_addrs_size s) entry) entry) as [c|]; [| exact Hmm].
    destruct (Z.eqb_spec c 0); [exact Hmm | assumption]. }
  destruct (get_shm_calls_keep_pages dm calls s1 s2 _ entry a Hwf1 Hl1 Hi1 Ha Hcalls)
    as (l2 & Hl2 & Hi2 & Hwf2 & Hps2).
  assert (Hps : pagesize s2 = pagesize s) by (rewrite Hps2; apply Hsame1).
  destruct (get_shm_mapped dm e2 idx s2 l2 a Hwf2 Hl2) as (s3 & Hrun3 & Hl3 & _).
  { rewrite Hps. exact Hi2. }
  { exact Ha. }
  exists s3. split; [| exact Hl3]. rewrite Hrun3, Hps, Hp1. reflexivity.
Qed.

(** ** Two threads mapping the same page *)

Lemma race_results_inv_start dm mmap_of offset :
  race_results_inv dm mmap_of offset race_start.
Proof. split; [left; reflexivity |]. intros []; exact I. Qed.

Lemma race_results_inv_step dm mmap_of offset t c :
  mmap_of T1 <> 0 -> mmap_of T2 <> 0 ->
  race_results_inv dm mmap_of offset c ->
  race_results_inv dm mmap_of offset (race_step dm mmap_of offset t c).
Proof.
  intros H1 H2 [Hs Hpc].
  assert (Hm : forall u, mmap_of u <> 0) by (intros []; assumption).
  pose proof (Hpc T1) as P1. pose proof (Hpc T2) as P2.
  unfold race_step.
  destruct t; cbn [thread_pc] in *;
    [destruct (thread1 c) eqn:E1 | destruct (thread2 c) eqn:E2];
    repeat match goal with
           | |- context [slot c =? 0] => destruct (Z.eqb_spec (slot c) 0)
           | |- context [?a =? MAP_FAILED dm] => destruct (a =? MAP_FAILED dm)
           end;
    (split;
     [ cbn; try assumption; auto
     | intros []; cbn [thread_pc set_thread set_slot set_mappings slot thread1 thread2];
       rewrite ?E1, ?E2;
       repeat match goal with
              | |- context [match thread1 c with _ => _ end] => destruct (thread1 c)
              | |- context [match thread2 c with _ => _ end] => destruct (thread2 c)
              end;
       intuition (subst; auto; try congruence) ]).
Qed.

Lemma race_results_inv_run dm mmap_of offset sched : forall c,
  mmap_of T1 <> 0 -> mmap_of T2 <> 0 ->
  race_results_inv dm mmap_of offset c ->
  race_results_inv dm mmap_of offset (race_run dm mmap_of offset sched c).
Proof.
  induction sched as [| t rest IH]; intros c H1 H2 Hinv; [exact Hinv |].
  cbn [race_run]. apply IH; try assumption. apply race_results_inv_step; assumption.
Qed.

Lemma race_maps_inv_start mmap_of :
  mmap_of T1 <> 0 -> mmap_of T2 <> 0 -> race_maps_inv mmap_of race_start.
Proof.
  intros H1 H2. split.
  - intros []; cbn; congruence.
  - intros x. unfold holds_mapping. cbn [race_start mappings slot thread_pc thread1 thread2 in_flight orb].
    destruct (Z.eqb_spec 0 (mmap_of T1)); [congruence |].
    destruct (Z.eqb_spec 0 (mmap_of T2)); [congruence |].
    split; [intros Hx; apply not_elem_of_empty in Hx; contradiction |].
    intros [[_ ?] | [_ ?]]; discriminate.
Qed.

Ltac race_cases sl dm :=
  repeat match goal with
         | |- context [sl =? 0] => destruct (Z.eqb_spec sl 0)
         | |- context [?a =? MAP_FAILED dm] =>
             destruct (Z.eqb_spec a (MAP_FAILED dm)); [contradiction |]
         end;
  cbn [thread_pc set_thread set_slot set_mappings slot thread1 thread2 mappings
       in_flight orb] in *.

Ltac race_mappings :=
  repeat match goal with
         | H : _ /\ _ |- _ => destruct H
         end;
  subst;
  repeat match goal with
         | H : context [?a =? ?b] |- _ => destruct (Z.eqb_spec a b); try congruence
         | |- context [?a =? ?b] => destruct (Z.eqb_spec a b); try congruence
         end;
  repeat match goal with
         | H : context [in_flight ?pc] |- _ => destruct (in_flight pc)
         end;
  cbn [orb] in *; set_unfold; intuition congruence.

Lemma race_maps_inv_step dm mmap_of offset t c :
  mmap_of T1 <> 0 -> mmap_of T2 <> 0 -> mmap_of T1 <> mmap_of T2 ->
  mmap_of T1 <> MAP_FAILED dm -> mmap_of T2 <> MAP_FAILED dm ->
  race_results_inv dm mmap_of offset c ->
  race_maps_inv mmap_of c ->
  race_maps_inv mmap_of (race_step dm mmap_of offset t c).
Proof.
  intros H1 H2 Hd F1 F2 [Hs Hr] [Hpc Hmap].
  pose proof (Hpc T1) as P1. pose proof (Hpc T2) as P2.
  pose proof (Hr T1) as R1. pose proof (Hr T2) as R2.
  clear Hpc Hr.
  destruct c as [sl maps pc1 pc2].
  unfold race_maps_inv, holds_mapping, race_step in *.
  cbn [thread_pc slot mappings thread1 thread2] in *.
  destruct t; cbn [thread_pc thread1 thread2].
  - destruct pc1; cbn [in_flight orb] in *; race_cases sl dm.
    all: split;
      [ intros []; cbn [thread_pc thread1 thread2]; try tauto;
        try (destruct pc2; intuition congruence)
      | intros x; specialize (Hmap x); clear P2 R2; race_mappings ].
  - destruct pc2; cbn [in_flight orb] in *; race_cases sl dm.
    all: split;
      [ intros []; cbn [thread_pc thread1 thread2]; try tauto;
        try (destruct pc1; intuition congruence)
      | intros x; specialize (Hmap x); clear P1 R1; race_mappings ].
Qed.

Lemma race_maps_inv_run dm mmap_of offset sched : forall c,
  mmap_of T1 <> 0 -> mmap_of T2 <> 0 -> mmap_of T1 <> mmap_of T2 ->
  mmap_of T1 <> MAP_FAILED dm -> mmap_of T2 <> MAP_FAILED dm ->
  race_results_inv dm mmap_of offset c -> race_maps_inv mmap_of c ->
  race_maps_inv mmap_of (race_run dm mmap_of offset sched c).
Proof.
  induction sched as [| t rest IH]; intros c H1 H2 Hd F1 F2 Hr Hm; [exact Hm |].
  cbn [race_run]. apply IH; try assumption.
  - apply race_results_inv_step; assumption.
  - apply race_maps_inv_step; assumption.
Qed.

(** A thread returns within five steps of its own, whatever the other does. *)
Lemma race_step_progress dm mmap_of offset t u c :
  (steps_left (thread_pc u (race_step dm mmap_of offset t c))
   <= steps_left (thread_pc u c) - (if tid_eqb u t then 1 else 0))%nat.
Proof.
  unfold race_step.
  destruct t, u; cbn [tid_eqb thread_pc];
    try (destruct (thread1 c) eqn:E1); try (destruct (thread2 c) eqn:E2);
    repeat match goal with
           | |- context [if ?b then _ else _] => destruct b
           end;
    cbn [thread_pc set_thread set_slot set_mappings thread1 thread2 steps_left];
    rewrite ?E1, ?E2; cbn [steps_left]; lia.
Qed.

Lemma race_run_progress dm mmap_of offset u sched : forall c,
  (steps_left (thread_pc u (race_run dm mmap_of offset sched c))
   <= steps_left (thread_pc u c) - count_steps u sched)%nat.
Proof.
  induction sched as [| t rest IH]; intros c; [cbn; lia |].
  cbn [race_run]. specialize (IH (race_step dm mmap_of offset t c)).
  pose proof (race_step_progress dm mmap_of offset t u c) as Hstep.
  unfold count_steps in *. cbn [List.filter].
  destruct (tid_eqb u t); cbn [length]; lia.
Qed.

Lemma race_terminates dm mmap_of offset u sched :
  (5 <= count_steps u sched)%nat ->
  exists p, thread_pc u (race_run dm mmap_of offset sched race_start) = Returned p.
Proof.
  intros H. pose proof (race_run_progress dm mmap_of offset u sched race_start) as Hp.
  assert (Hs : (steps_left (thread_pc u race_start) <= 5)%nat) by (destruct u; cbn; lia).
  destruct (thread_pc u (race_run dm mmap_of offset sched race_start)) eqn:E;
    cbn [steps_left] in Hp; try lia.
  eexists. reflexivity.
Qed.

(** C5, as the code has it.  Repeated calls of [get_shm] for one slot
    index, made one at a time, return one and the same pointer, whatever
    calls for other slots come in between (the calls return, and [mmap]
    does not return NULL).  When two threads race to map a page whose slot
    is already inside the array of page pointers, so that neither takes
    the growth branch of lines 125-133, in any interleaving of their
    steps: each returns after at most five steps of its own; both return
    the address that won the compare-and-swap plus the offset; and if the
    two [mmap] calls succeeded, the only mapping left is the published
    one, the loser having unmapped its own. *)
Theorem get_shm_same_pointer dm :
  (forall e1 idx s p1 s1 calls s2 e2,
     pool_wf s -> mmap_ret e1 <> 0 ->
     get_shm dm e1 idx s = Ret p1 s1 ->
     get_shm_calls dm calls s1 = Ret tt s2 ->
     exists s3, get_shm dm e2 idx s2 = Ret p1 s3 /\ shm_addrs s3 = shm_addrs s2) /\
  (forall mmap_of offset sched,
     mmap_of T1 <> 0 -> mmap_of T2 <> 0 ->
     let c := race_run dm mmap_of offset sched race_start in
     ((5 <= count_steps T1 sched)%nat -> exists p, thread1 c = Returned p) /\
     ((5 <= count_steps T2 sched)%nat -> exists q, thread2 c = Returned q) /\
     (forall p q, thread1 c = Returned p -> thread2 c = Returned q ->
        p = q /\ p = to_uintptr dm (slot c + offset) /\
        (slot c = mmap_of T1 \/ slot c = mmap_of T2) /\
        (mmap_of T1 <> mmap_of T2 ->
         mmap_of T1 <> MAP_FAILED dm -> mmap_of T2 <> MAP_FAILED dm ->
         mappings c = {[ slot c ]}))).
Proof.
  split.
  - intros e1 idx s p1 s1 calls s2 e2. apply get_shm_idempotent.
  - intros mmap_of offset sched H1 H2 c.
    split; [apply (race_terminates dm mmap_of offset T1) |].
    split; [apply (race_terminates dm mmap_of offset T2) |].
    intros p q Hp Hq.
    pose proof (race_results_inv_run dm mmap_of offset sched race_start H1 H2
                  (race_results_inv_start dm mmap_of offset)) as [Hs Hr].
    fold c in Hs, Hr.
    pose proof (Hr T1) as R1. pose proof (Hr T2) as R2. cbn [thread_pc] in R1, R2.
    rewrite Hp in R1. rewrite Hq in R2. destruct R1 as [Hn ->], R2 as [_ ->].
    split; [reflexivity |]. split; [reflexivity |].
    split; [destruct Hs as [? | ?]; [contradiction | assumption] |].
    intros Hd F1 F2.
    pose proof (race_maps_inv_run dm mmap_of offset sched race_start H1 H2 Hd F1 F2
                  (race_results_inv_start dm mmap_of offset)
                  (race_maps_inv_start mmap_of H1 H2)) as [_ Hmap].
    fold c in Hmap. unfold holds_mapping in Hmap. cbn [thread_pc] in Hmap.
    rewrite Hp, Hq in Hmap. cbn [in_flight orb] in Hmap.
    apply set_eq. intros x. rewrite Hmap, elem_of_singleton.
    destruct (Z.eqb_spec (slot c) (mmap_of T1)), (Z.eqb_spec (slot c) (mmap_of T2));
      destruct Hs as [? | [? | ?]]; intuition congruence.
Qed.

Lemma get_shm_same_pointer_witness :
  (exists p1 s1 s2 s3,
     pool_wf initialised_state /\ mmap_ret shm_env_ok <> 0 /\
     get_shm LP64 shm_env_ok 40 initialised_state = Ret p1 s1 /\
     get_shm_calls LP64 [(shm_env_ok, 65540)] s1 = Ret tt s2 /\
     get_shm LP64 shm_env_no_memory 40 s2 = Ret p1 s3 /\ shm_addrs s3 = shm_addrs s2) /\
  (let mmap_of := fun t => match t with T1 => 4096 | T2 => 8192 end in
   let c := race_run LP64 mmap_of 320 [T1; T2; T1; T2; T2; T1; T1; T2; T2; T1] race_start in
   thread1 c = Returned 8512 /\ thread2 c = Returned 8512 /\
   8512 = to_uintptr LP64 (slot c + 320) /\ mappings c = {[ slot c ]}).
Proof.
  pose proof (get_shm_same_pointer LP64) as [Hseq Hrace].
  split.
  - destruct (get_shm LP64 shm_env_ok 40 initialised_state) as [p1 s1 | |] eqn:H1;
      try (vm_compute in H1; discriminate).
    destruct (get_shm_calls LP64 [(shm_env_ok, 65540)] s1) as [[] s2 | |] eqn:H2;
      try (vm_compute in H1; injection H1 as <- <-; vm_compute in H2; discriminate).
    destruct (Hseq shm_env_ok 40 initialised_state p1 s1 _ s2 shm_env_no_memory
                pool_wf_initialised ltac:(discriminate) H1 H2) as (s3 & H3 & H4).
    exists p1, s1, s2, s3.
    repeat split; try assumption; try apply pool_wf_initialised; try discriminate.
  - intros mmap_of c.
    destruct (Hrace mmap_of 320 [T1; T2; T1; T2; T2; T1; T1; T2; T2; T1]
                ltac:(discriminate) ltac:(discriminate)) as (_ & _ & Hboth).
    fold c in Hboth.
    assert (Hp : thread1 c = Returned 8512) by reflexivity.
    assert (Hq : thread2 c = Returned 8512) by reflexivity.
    destruct (Hboth 8512 8512 Hp Hq) as (_ & Hres & _ & Hmaps).
    split; [exact Hp |]. split; [exact Hq |]. split; [exact Hres |].
    apply Hmaps; discriminate.
Defined.

(** C5, the claim as the specification words it, refuted.  Two threads
    call [get_shm] for slot index 65536 with 4 KiB pages and an array of
    128 slots, so both take the growth branch, which nothing serialises.
    In the schedule [growth_race_schedule] the second thread's [memset]
    clears the slot in which the first thread has already published its
    mapping; the second thread then maps the page again and publishes its
    own.  The two callers return different pointers and both mappings stay
    mapped: no loser unmaps.  (Either thread alone returns what the
    sequential [get_shm] returns.) *)
Lemma get_shm_growth_race_different_pointers :
  let c := grow_race_run LP64 shm_env_ok two_mappings 128 0
             growth_race_schedule grow_race_start in
  shm_entry 65536 4096 = 128 /\ shm_offset 65536 4096 = 0 /\
  g_thread1 c = GReturned (two_mappings T1) /\
  g_thread2 c = GReturned (two_mappings T2) /\
  two_mappings T1 <> two_mappings T2 /\
  g_mappings c = [two_mappings T2; two_mappings T1] /\
  g_thread1 (grow_race_run LP64 shm_env_ok two_mappings 128 0
               [T1; T1; T1; T1; T1; T1; T1; T1; T1; T1] grow_race_start)
  = GReturned (two_mappings T1) /\
  exists s', get_shm LP64 shm_env_ok 65536 initialised_state = Ret (two_mappings T1) s'.
Proof.
  cbv zeta. split; [reflexivity |]. split; [reflexivity |].
  split; [vm_compute; reflexivity |]. split; [vm_compute; reflexivity |].
  split; [discriminate |]. split; [vm_compute; reflexivity |].
  split; [vm_compute; reflexivity |].
  destruct (get_shm LP64 shm_env_ok 65536 initialised_state) as [p s' | |] eqn:Hrun;
    try (vm_compute in Hrun; discriminate).
  exists s'. vm_compute in Hrun. injection Hrun as <- _. reflexivity.
Qed.

(** [race_step], case by case. *)
Lemma race_step_check dm mmap_of offset t c :
  thread_pc t c = AtCheck ->
  race_step dm mmap_of offset t c
  = if slot c =? 0 then set_thread t AtMmap c else set_thread t AtReturn c.
Proof. intros H. unfold race_step. rewrite H. reflexivity. Qed.

Lemma race_step_mmap dm mmap_of offset t c :
  thread_pc t c = AtMmap ->
  race_step dm mmap_of offset t c
  = set_thread t (AtCas (mmap_of t))
      (if mmap_of t =? MAP_FAILED dm then c
       else set_mappings ({[ mmap_of t ]} ∪ mappings c) c).
Proof. intros H. unfold race_step. rewrite H. reflexivity. Qed.

Lemma race_step_cas dm mmap_of offset t c addr :
  thread_pc t c = AtCas addr ->
  race_step dm mmap_of offset t c
  = if slot c =? 0 then set_thread t AtReturn (set_slot addr c)
    else set_thread t (AtMunmap addr) c.
Proof. intros H. unfold race_step. rewrite H. reflexivity. Qed.

Lemma race_step_return dm mmap_of offset t c :
  thread_pc t c = AtReturn ->
  race_step dm mmap_of offset t c
  = set_thread t (Returned (to_uintptr dm (slot c + offset))) c.
Proof. intros H. unfold race_step. rewrite H. reflexivity. Qed.

Lemma race_step_returned dm mmap_of offset t c p :
  thread_pc t c = Returned p -> race_step dm mmap_of offset t c = c.
Proof. intros H. unfold race_step. rewrite H. reflexivity. Qed.

Ltac solo_step lem :=
  match goal with
  | |- context [race_step ?dm ?mo ?off T1 (mk_shm_race ?s ?mp ?p1 ?p2)] =>
      rewrite (lem dm mo off T1 (mk_shm_race s mp p1 p2)) by reflexivity;
      cbn [set_thread set_slot set_mappings slot mappings thread1 thread2]
  end.

(** The thread model follows the code: a thread running alone leaves in
    the slot, and returns, what lines 135-147 of [get_shm] do. *)
Lemma race_solo_matches_map_page dm e entry offset l cur m :
  index l entry = Some cur ->
  let c := race_run dm (fun _ => mmap_ret e) offset [T1; T1; T1; T1; T1]
             {| slot := cur; mappings := m; thread1 := AtCheck; thread2 := AtCheck |} in
  slot c = page_address e l entry /\
  thread1 c = Returned (to_uintptr dm (page_address e l entry + offset)).
Proof.
  intros Hc. unfold page_address. rewrite Hc. cbn [race_run].
  solo_step race_step_check.
  destruct (Z.eqb_spec cur 0) as [-> | Hne];
    cbn [set_thread set_slot set_mappings slot mappings thread1 thread2].
  - solo_step race_step_mmap.
    destruct (mmap_ret e =? MAP_FAILED dm);
      cbn [set_thread set_slot set_mappings slot mappings thread1 thread2];
      solo_step (fun d mo o t c => race_step_cas d mo o t c (mmap_ret e));
      cbn [Z.eqb set_thread set_slot set_mappings slot mappings thread1 thread2];
      solo_step race_step_return;
      solo_step (fun d mo o t c =>
                   race_step_returned d mo o t c (to_uintptr dm (mmap_ret e + offset)));
      split; reflexivity.
  - solo_step race_step_return.
    solo_step (fun d mo o t c =>
                 race_step_returned d mo o t c (to_uintptr dm (cur + offset))).
    solo_step (fun d mo o t c =>
                 race_step_returned d mo o t c (to_uintptr dm (cur + offset))).
    solo_step (fun d mo o t c =>
                 race_step_returned d mo o t c (to_uintptr dm (cur + offset))).
    split; reflexivity.
Qed.

(** ** Object creation protocol *)

Lemma status_ok_true st :
  status_ok st = true <-> st = 0 \/ st = STATUS_OBJECT_NAME_EXISTS.
Proof.
  unfold status_ok. rewrite orb_true_iff, !Z.eqb_eq. reflexivity.
Qed.

Lemma status_ok_false st :
  status_ok st = false <-> st <> 0 /\ st <> STATUS_OBJECT_NAME_EXISTS.
Proof.
  unfold status_ok. rewrite orb_false_iff, !Z.eqb_neq. reflexivity.
Qed.

Lemma create_fsync_alloc_failed dm e ty access low high s :
  alloc_object_attributes_status e <> 0 ->
  create_fsync dm e ty access low high s
  = Ret (alloc_object_attributes_status e, None) s.
Proof.
  intros H. unfold create_fsync.
  destruct (Z.eqb_spec (alloc_object_attributes_status e) 0); [contradiction | reflexivity].
Qed.

Lemma create_fsync_failure dm e ty access low high s :
  alloc_object_attributes_status e = 0 ->
  status_ok (reply_status (server e)) = false ->
  create_fsync dm e ty access low high s
  = Ret (reply_status (server e), None) (add_event (EvServerCall access low high) s).
Proof.
  intros Ha Hst. unfold create_fsync. rewrite Ha, Hst. reflexivity.
Qed.

Lemma create_fsync_success dm e ty access low high s :
  alloc_object_attributes_status e = 0 ->
  status_ok (reply_status (server e)) = true ->
  create_fsync dm e ty access low high s
  = (do p <- get_shm dm (shm_os e) (reply_shm_idx (server e));;
     do _ <- add_to_list dm (anon_mmap_alloc_ret e) (reply_handle (server e)) ty p;;
     do _ <- emit (EvTRACE "-> handle %p, shm index %d.");;
     ret (reply_status (server e), Some (reply_handle (server e))))
      (add_event (EvServerCall access low high) s).
Proof.
  intros Ha Hst. unfold create_fsync. rewrite Ha, Hst. reflexivity.
Qed.

Lemma pool_wf_add_event ev s : pool_wf s -> pool_wf (add_event ev s).
Proof. intros H. exact H. Qed.

Lemma cache_wf_same_but_pool dm s s' :
  same_but_pool s s' -> cache_wf dm s -> cache_wf dm s'.
Proof.
  intros (_ & _ & _ & _ & Hfl) [H1 H2]. unfold cache_wf. rewrite Hfl. split; assumption.
Qed.

Lemma record_at_same_list s s' ref :
  fsync_list s' = fsync_list s -> record_at s' ref = record_at s ref.
Proof. intros H. unfold record_at, deref. rewrite H. reflexivity. Qed.

Lemma page_address_grown e l size entry :
  Z.of_nat (length l) = size -> 0 <= entry ->
  page_address e (grown l size entry) entry = page_address e l entry.
Proof.
  intros Hlen He. unfold page_address.
  destruct (index l entry) as [c|] eqn:Hc.
  - rewrite (index_grown_old l size entry entry c Hc). reflexivity.
  - assert (Hge : size <= entry).
    { destruct (Z.lt_ge_cases entry size) as [Hlt | ?]; [| assumption].
      destruct (index_in_range l entry) as [x Hx]; [lia | congruence]. }
    pose proof (grown_size_ge size entry ltac:(lia)) as [_ Hgs].
    rewrite (index_grown_new l size entry entry Hlen) by lia. reflexivity.
Qed.

(** C3, as the code has it.  For any status other than success and
    STATUS_OBJECT_NAME_EXISTS, [create_fsync] returns the status as it
    came, writes no handle, and leaves the handle cache and the page pool
    as they were.  On success or "exists", in a process whose page pool
    [fsync_init] has set up (and whose array can grow if it must),
    [get_shm] is run on the slot index of the reply and [add_to_list] on
    the handle of the reply with the type and the pointer [get_shm]
    returned.  Afterwards the slot of the page holds the address that was
    there or, if there was none, the address [mmap] returned now; the
    array has grown by the rule of [get_shm]; the record of the handle is
    as [add_to_list] leaves it: [{type, pointer}] if the handle is in
    range, a block is to be had and nothing was published, the earlier
    record if something was, and the cache is unchanged if the handle is
    out of range or no block is to be had; and the status and the handle
    are returned. *)
Theorem create_fsync_inserts_on_success_only dm e ty access low high s :
  let st := reply_status (server e) in
  let handle := reply_handle (server e) in
  let shm_idx := reply_shm_idx (server e) in
  let entry := shm_entry shm_idx (pagesize s) in
  alloc_object_attributes_status e = 0 ->
  (st <> 0 -> st <> STATUS_OBJECT_NAME_EXISTS ->
   exists s',
     create_fsync dm e ty access low high s = Ret (st, None) s' /\
     fsync_list s' = fsync_list s /\ shm_addrs s' = shm_addrs s /\
     shm_addrs_size s' = shm_addrs_size s) /\
  (st = 0 \/ st = STATUS_OBJECT_NAME_EXISTS ->
   pool_wf s -> cache_wf dm s ->
   entry < shm_addrs_size s \/ realloc_ok (shm_os e) = true ->
   exists l p s1 r s2,
     shm_addrs s = Some l /\
     get_shm dm (shm_os e) shm_idx (add_event (EvServerCall access low high) s) = Ret p s1 /\
     add_to_list dm (anon_mmap_alloc_ret e) handle ty p s1 = Ret r s2 /\
     create_fsync dm e ty access low high s
     = Ret (st, Some handle) (add_event (EvTRACE "-> handle %p, shm index %d.") s2) /\
     p = to_uintptr dm (page_address (shm_os e) l entry + shm_offset shm_idx (pagesize s)) /\
     shm_addrs s2
     = Some (update (grown l (shm_addrs_size s) entry) entry
               (page_address (shm_os e) l entry)) /\
     index (update (grown l (shm_addrs_size s) entry) entry
              (page_address (shm_os e) l entry)) entry
     = Some (page_address (shm_os e) l entry) /\
     shm_addrs_size s2 = grown_size (shm_addrs_size s) entry /\
     (mmap_ret (shm_os e) <> 0 -> page_mapped s2 entry = true) /\
     (r = None \/ r = Some (handle_to_index dm handle)) /\
     (forall ref, record_at s2 ref =
        if decide (r = Some ref) then published (record_at s ref) ty p
        else record_at s ref) /\
     (r = None -> fsync_list s2 = fsync_list s) /\
     (fst (handle_to_index dm handle) < FSYNC_LIST_ENTRIES ->
      (index (fsync_list s) (fst (handle_to_index dm handle)) = Some None ->
       fst (handle_to_index dm handle) <> 0 -> anon_mmap_alloc_ret e = true) ->
      r = Some (handle_to_index dm handle))).
Proof.
  intros st handle shm_idx entry Ha. split.
  - intros H0 Hex. eexists. split.
    + apply create_fsync_failure; [exact Ha |]. apply status_ok_false. split; assumption.
    + repeat split.
  - intros Hst Hpool Hcache Hcase.
    set (s0 := add_event (EvServerCall access low high) s).
    destruct Hpool as [Hps (l & Hl & Hlen)].
    assert (Hpool0 : pool_wf s0) by (split; [exact Hps | exists l; split; assumption]).
    pose proof (shm_entry_eq shm_idx (pagesize s) Hps) as [_ He]. fold entry in He.
    destruct (get_shm_ok dm (shm_os e) shm_idx s0 l Hpool0 Hl Hcase)
      as (s1 & Hrun1 & Hl1 & Hi1 & Hsz1 & Hsame & _).
    change (pagesize s0) with (pagesize s) in *.
    change (shm_addrs_size s0) with (shm_addrs_size s) in *.
    fold entry in Hrun1, Hl1, Hi1, Hsz1.
    rewrite (page_address_grown (shm_os e) l (shm_addrs_size s) entry Hlen (proj1 He))
      in Hrun1, Hl1, Hi1.
    assert (Hcache1 : cache_wf dm s1) by (apply (cache_wf_same_but_pool dm s0); assumption).
    assert (Hfl1 : fsync_list s1 = fsync_list s) by apply Hsame.
    set (p := to_uintptr dm (page_address (shm_os e) l entry
                             + shm_offset shm_idx (pagesize s))) in *.
    pose proof (handle_to_index_range dm handle) as [Hhe Hhi].
    destruct (add_to_list_total dm (anon_mmap_alloc_ret e) handle ty p s1 Hcache1)
      as (r & s2 & Hrun2 & _ & Hr & Hrec & _ & Hl2 & Hsz2 & _).
    exists l, p, s1, r, s2. split; [exact Hl |]. split; [exact Hrun1 |].
    split; [exact Hrun2 |].
    split.
    { rewrite (create_fsync_success dm e ty access low high s Ha)
        by (apply status_ok_true; exact Hst).
      fold s0 handle shm_idx. unfold bind. rewrite Hrun1, Hrun2. reflexivity. }
    split; [reflexivity |].
    split; [rewrite Hl2; exact Hl1 |]. split; [exact Hi1 |].
    split; [rewrite Hsz2; exact Hsz1 |].
    split.
    { intros Hmm. unfold page_mapped. rewrite Hl2, Hl1, Hi1.
      apply negb_true_iff, Z.eqb_neq. unfold page_address.
      destruct (index l entry) as [c|]; [| exact Hmm].
      destruct (Z.eqb_spec c 0); assumption. }
    split; [exact Hr |].
    split.
    { intros ref. rewrite Hrec.
      rewrite (record_at_same_list s0 s1 ref) by apply Hsame. reflexivity. }
    split.
    { intros ->. rewrite <- Hfl1.
      destruct (Z.le_gt_cases FSYNC_LIST_ENTRIES (fst (handle_to_index dm handle)))
        as [Hfar | Hnear].
      - rewrite (add_to_list_out_of_range dm _ handle ty p s1 Hfar) in Hrun2.
        injection Hrun2 as <-. reflexivity.
      - destruct (handle_to_index dm handle) as [hentry hidx] eqn:Hidx. cbn [fst] in *.
        destruct (index_in_range (fsync_list s1) hentry) as [b Hb];
          [destruct Hcache1; lia |].
        destruct b as [blk|].
        + rewrite (add_to_list_in_range dm _ handle ty p s1 hentry hidx Hcache1 Hidx Hnear)
            in Hrun2 by (intros Hn; rewrite Hb in Hn; discriminate).
          discriminate.
        + destruct (Z.eq_dec hentry 0) as [Hz | Hnz].
          * rewrite (add_to_list_in_range dm _ handle ty p s1 hentry hidx Hcache1 Hidx Hnear)
              in Hrun2 by (intros _ Hc; contradiction).
            discriminate.
          * destruct (anon_mmap_alloc_ret e).
            -- rewrite (add_to_list_in_range dm _ handle ty p s1 hentry hidx Hcache1 Hidx
                          Hnear) in Hrun2 by (intros; reflexivity).
               discriminate.
            -- rewrite (add_to_list_alloc_failed dm handle ty p s1 hentry hidx Hidx Hnear
                          Hb Hnz) in Hrun2.
               injection Hrun2 as <-. reflexivity. }
    intros Hlt Hok.
    destruct (handle_to_index dm handle) as [hentry hidx] eqn:Hidx. cbn [fst] in Hlt, Hok.
    rewrite (add_to_list_in_range dm _ handle ty _ s1 hentry hidx Hcache1 Hidx Hlt) in Hrun2.
    + injection Hrun2 as <- _. reflexivity.
    + rewrite Hfl1. exact Hok.
Qed.

Lemma create_fsync_inserts_on_success_only_witness :
  alloc_object_attributes_status create_env_success = 0 /\
  pool_wf initialised_state /\ cache_wf LP64 initialised_state /\
  exists p s',
    create_fsync LP64 create_env_success FSYNC_SEMAPHORE 0 0 5 initialised_state
    = Ret (STATUS_SUCCESS, Some 8) s' /\
    p = to_uintptr LP64 (mmap_ret shm_env_ok + 56) /\
    page_mapped s' 0 = true /\
    record_at s' (handle_to_index LP64 8) = {| type := FSYNC_SEMAPHORE; shm := p |}.
Proof.
  assert (Hc : cache_wf LP64 initialised_state)
    by (apply cache_wfb_sound; vm_compute; reflexivity).
  split; [reflexivity |]. split; [apply pool_wf_initialised |]. split; [exact Hc |].
  destruct (create_fsync_inserts_on_success_only LP64 create_env_success FSYNC_SEMAPHORE
              0 0 5 initialised_state eq_refl) as [_ Hok].
  destruct (Hok (or_introl eq_refl) pool_wf_initialised Hc (or_intror eq_refl))
    as (l & p & s1 & r & s2 & Hl & _ & _ & Hrun & Hp & _ & _ & _ & Hmapped & _ & Hrec & _ & Hr).
  injection Hl as <-.
  exists p, (add_event (EvTRACE "-> handle %p, shm index %d.") s2).
  split; [exact Hrun |]. split; [exact Hp |].
  split; [apply Hmapped; discriminate |].
  change (record_at (add_event _ s2) (handle_to_index LP64 8))
    with (record_at s2 (handle_to_index LP64 8)).
  rewrite Hrec, decide_True by (apply Hr; [reflexivity | intros; reflexivity]).
  reflexivity.
Defined.

(** C3, the claim as the specification words it, refuted.  A reply of
    success does not always lead to an insertion.  In a process whose page
    pool is not set up (the state in which [fsync_init] sends its probe),
    [create_fsync] faults in [get_shm] after the request: nothing is
    inserted and no status is returned.  In an initialised process, a
    reply of success with a handle beyond the cache returns the status
    with the handle cache exactly as it was. *)
Lemma create_fsync_success_without_insertion :
  (reply_status (server create_env_success) = STATUS_SUCCESS /\
   create_fsync LP64 create_env_success FSYNC_SEMAPHORE 0 0 5 initial_state
   = Fault (add_event (EvServerCall 0 0 5) initial_state)) /\
  (reply_status (server create_env_far_handle) = STATUS_SUCCESS /\
   exists s',
     create_fsync LP64 create_env_far_handle FSYNC_SEMAPHORE 0 0 5 initialised_state
     = Ret (STATUS_SUCCESS, Some (reply_handle (server create_env_far_handle))) s' /\
     fsync_list s' = fsync_list initialised_state).
Proof.
  split; [split; reflexivity |]. split; [reflexivity |].
  destruct (create_fsync LP64 create_env_far_handle FSYNC_SEMAPHORE 0 0 5 initialised_state)
    as [[st h] s' | |] eqn:Hrun; try (vm_compute in Hrun; discriminate).
  exists s'. vm_compute in Hrun. injection Hrun as <- <- <-.
  split; reflexivity.
Qed.

(** C8. For a handle whose block index is FSYNC_LIST_ENTRIES or more,
    [add_to_list] is a soft no-op: in every state it returns FALSE and
    leaves the handle cache as it was.  A [create_fsync] call whose reply
    carries such a handle with success or STATUS_OBJECT_NAME_EXISTS still
    returns that status and the handle (in an initialised process whose
    page pool can serve the slot), with the handle cache unchanged. *)
Theorem create_fsync_handle_beyond_cache dm e ty access low high s :
  let st := reply_status (server e) in
  let handle := reply_handle (server e) in
  FSYNC_LIST_ENTRIES <= fst (handle_to_index dm handle) ->
  (forall ok ty' p s1, exists s1',
     add_to_list dm ok handle ty' p s1 = Ret None s1' /\ fsync_list s1' = fsync_list s1) /\
  (alloc_object_attributes_status e = 0 ->
   st = 0 \/ st = STATUS_OBJECT_NAME_EXISTS ->
   pool_wf s ->
   shm_entry (reply_shm_idx (server e)) (pagesize s) < shm_addrs_size s
   \/ realloc_ok (shm_os e) = true ->
   exists s', create_fsync dm e ty access low high s = Ret (st, Some handle) s' /\
              fsync_list s' = fsync_list s).
Proof.
  intros st handle Hfar. split.
  - intros ok ty' p s1. eexists. split; [apply add_to_list_out_of_range, Hfar | reflexivity].
  - intros Ha Hst Hpool Hcase.
    set (s0 := add_event (EvServerCall access low high) s).
    destruct Hpool as [Hps (l & Hl & Hlen)].
    assert (Hpool0 : pool_wf s0) by (split; [exact Hps | exists l; split; assumption]).
    destruct (get_shm_ok dm (shm_os e) (reply_shm_idx (server e)) s0 l Hpool0 Hl Hcase)
      as (s1 & Hrun1 & _ & _ & _ & Hsame & _).
    eexists. split.
    + rewrite (create_fsync_success dm e ty access low high s Ha)
        by (apply status_ok_true; exact Hst).
      fold s0 handle. unfold bind. rewrite Hrun1.
      rewrite (add_to_list_out_of_range dm _ handle ty _ s1 Hfar). reflexivity.
    + cbn [fsync_list add_event]. apply Hsame.
Qed.

Lemma create_fsync_handle_beyond_cache_witness :
  FSYNC_LIST_ENTRIES <= fst (handle_to_index LP64 0x1000000) /\
  (exists s1',
     add_to_list LP64 true 0x1000000 FSYNC_SEMAPHORE 4242 initial_state = Ret None s1' /\
     fsync_list s1' = fsync_list initial_state) /\
  exists s', create_fsync LP64 create_env_far_handle FSYNC_SEMAPHORE 0 0 5 initialised_state
             = Ret (STATUS_SUCCESS, Some 0x1000000) s' /\
             fsync_list s' = fsync_list initialised_state.
Proof.
  assert (Hfar : FSYNC_LIST_ENTRIES <= fst (handle_to_index LP64 0x1000000))
    by (vm_compute; discriminate).
  destruct (create_fsync_handle_beyond_cache LP64 create_env_far_handle FSYNC_SEMAPHORE
              0 0 5 initialised_state Hfar) as [Hadd Hcreate].
  split; [exact Hfar |]. split; [apply Hadd |].
  apply Hcreate; [reflexivity | left; reflexivity | apply pool_wf_initialised |].
  left. vm_compute. reflexivity.
Defined.

(** ** Initialisation *)

Lemma fsync_init_disabled dm e s s1 :
  do_fsync (gate e) s = Ret 0 s1 ->
  fsync_init dm e s =
  (do r <- create_fsync dm (probe_create e) 0 0 0 0;;
   if negb (fst r =? STATUS_NOT_IMPLEMENTED) then
     do _ <- emit (EvERR diag_mismatch);; exit 1
   else ret tt) s1.
Proof. intros H. unfold fsync_init. unfold bind at 1. rewrite H. reflexivity. Qed.

Lemma fsync_init_enabled dm e s v s1 :
  do_fsync (gate e) s = Ret v s1 -> v <> 0 ->
  fsync_init dm e s =
  (let s2 := set_shm_fd (shm_open_ret e)
               (set_shm_name (make_shm_name dm (st_ino e))
                  (if stat_ok e then s1 else add_event (EvERR "Cannot stat %s") s1)) in
   if shm_open_ret e =? -1 then
     Exit 1 (add_event (EvERR (if shm_open_errno e =? ENOENT then diag_no_shm
                               else "Failed to initialize shared memory: %s")) s2)
   else
     Ret tt (set_shm_addrs_size 128
               (set_shm_addrs (if calloc_ok e then Some (replicate 128 0) else None)
                  (set_pagesize (sysconf_pagesize e) s2)))).
Proof.
  intros H Hv. unfold fsync_init. unfold bind at 1. rewrite H.
  destruct (Z.eqb_spec v 0); [contradiction |].
  unfold bind, when, modify, emit, exit, ret.
  destruct (stat_ok e); cbn [negb];
    destruct (shm_open_ret e =? -1); try reflexivity;
    destruct (shm_open_errno e =? ENOENT); reflexivity.
Qed.

(** C2, as the code has it.  The probe is sent by a process in which the
    subsystem is locally disabled.  If the server answers it with a failure
    other than STATUS_NOT_IMPLEMENTED, the process logs the
    configuration-mismatch diagnostic and calls [exit(1)]; if the server
    answers STATUS_NOT_IMPLEMENTED, [fsync_init] returns.  A process in
    which the subsystem is locally enabled sends no probe: it exits only
    when the shared memory file cannot be opened. *)
Theorem fsync_init_probe dm e s enabled s1 :
  do_fsync (gate e) s = Ret enabled s1 ->
  let st := reply_status (server (probe_create e)) in
  (enabled = 0 -> alloc_object_attributes_status (probe_create e) = 0 ->
   st <> 0 -> st <> STATUS_OBJECT_NAME_EXISTS -> st <> STATUS_NOT_IMPLEMENTED ->
   fsync_init dm e s
   = Exit 1 (add_event (EvERR diag_mismatch) (add_event (EvServerCall 0 0 0) s1))) /\
  (enabled = 0 -> alloc_object_attributes_status (probe_create e) = 0 ->
   st = STATUS_NOT_IMPLEMENTED ->
   fsync_init dm e s = Ret tt (add_event (EvServerCall 0 0 0) s1)) /\
  (enabled <> 0 ->
   exists s',
     count_server_calls (log s') = count_server_calls (log s1) /\
     (shm_open_ret e = -1 -> fsync_init dm e s = Exit 1 s') /\
     (shm_open_ret e <> -1 -> fsync_init dm e s = Ret tt s')).
Proof.
  intros Hgate st. split; [| split].
  - intros -> Ha H0 Hex Hni. rewrite (fsync_init_disabled dm e s s1 Hgate).
    unfold bind at 1.
    rewrite (create_fsync_failure dm (probe_create e) 0 0 0 0 s1 Ha)
      by (apply status_ok_false; split; assumption).
    cbn [fst]. fold st. destruct (Z.eqb_spec st STATUS_NOT_IMPLEMENTED); [contradiction |].
    reflexivity.
  - intros -> Ha Hni. rewrite (fsync_init_disabled dm e s s1 Hgate).
    unfold bind at 1.
    rewrite (create_fsync_failure dm (probe_create e) 0 0 0 0 s1 Ha)
      by (fold st; rewrite Hni; reflexivity).
    cbn [fst]. fold st. rewrite Hni. reflexivity.
  - intros Hen. rewrite (fsync_init_enabled dm e s enabled s1 Hgate Hen). cbv zeta.
    destruct (Z.eqb_spec (shm_open_ret e) (-1)) as [Heq | Hne].
    + eexists. split; [| split; [intros _; reflexivity | intros; contradiction]].
      destruct (stat_ok e); reflexivity.
    + eexists. split; [| split; [intros; contradiction | intros _; reflexivity]].
      destruct (stat_ok e); reflexivity.
Qed.

Lemma fsync_init_probe_witness :
  exists s1,
    do_fsync env_disabled initial_state = Ret 0 s1 /\
    fsync_init LP64 (init_env_disabled STATUS_ACCESS_DENIED) initial_state
    = Exit 1 (add_event (EvERR diag_mismatch) (add_event (EvServerCall 0 0 0) s1)) /\
    fsync_init LP64 (init_env_disabled STATUS_NOT_IMPLEMENTED) initial_state
    = Ret tt (add_event (EvServerCall 0 0 0) s1).
Proof.
  eexists. split; [reflexivity |]. split.
  - apply (fsync_init_probe LP64 (init_env_disabled STATUS_ACCESS_DENIED) initial_state 0 _
             eq_refl); try reflexivity; discriminate.
  - apply (fsync_init_probe LP64 (init_env_disabled STATUS_NOT_IMPLEMENTED) initial_state 0 _
             eq_refl); reflexivity.
Defined.

(** C2, the claim as the specification words it, refuted: the subsystem
    is locally enabled ([do_fsync] returns 1) and the server answers every
    creation request with STATUS_NOT_IMPLEMENTED; [fsync_init] sends no
    request, does not exit, and returns with the page pool set up. *)
Lemma fsync_init_enabled_does_not_probe :
  (exists s1, do_fsync (gate init_env_enabled) initial_state = Ret 1 s1) /\
  reply_status (server (probe_create init_env_enabled)) = STATUS_NOT_IMPLEMENTED /\
  fsync_init LP64 init_env_enabled initial_state = Ret tt initialised_state /\
  count_server_calls (log initialised_state) = 0%nat /\
  (forall s', fsync_init LP64 init_env_enabled initial_state <> Exit 1 s').
Proof.
  split; [eexists; reflexivity |]. split; [reflexivity |].
  assert (H : fsync_init LP64 init_env_enabled initial_state = Ret tt initialised_state)
    by reflexivity.
  split; [exact H |]. split; [reflexivity |].
  intros s'. rewrite H. discriminate.
Qed.

(** * Further properties of the handle cache *)

Lemma shifted_handle_range dm handle :
  0 <= Z.shiftr (to_uintptr dm handle) 2 < ptr_modulus dm / 4.
Proof.
  rewrite Z.shiftr_div_pow2 by lia. change (2 ^ 2) with 4.
  pose proof (Z.mod_pos_bound handle (ptr_modulus dm) (ptr_modulus_pos dm)) as H.
  fold (to_uintptr dm handle) in H.
  split; [apply Z.div_pos; lia |].
  apply Z.div_lt_upper_bound; [lia |].
  assert (4 * (ptr_modulus dm / 4) = ptr_modulus dm) by (destruct dm; reflexivity).
  lia.
Qed.

(** The index before it is split into block and offset. *)
Lemma handle_to_index_flat dm handle :
  let k := Z.shiftr (to_uintptr dm handle) 2 in
  let '(entry, idx) := handle_to_index dm handle in
  entry * FSYNC_LIST_BLOCK_SIZE dm + idx
  = if k =? 0 then ptr_modulus dm - 1 else k - 1.
Proof.
  intros k. unfold handle_to_index. fold k.
  pose proof (shifted_handle_range dm handle) as Hk. fold k in Hk.
  pose proof (FSYNC_LIST_BLOCK_SIZE_pos dm) as Hb.
  assert (Hq : ptr_modulus dm / 4 * 4 = ptr_modulus dm) by (destruct dm; reflexivity).
  set (i := to_uintptr dm (k - 1)).
  assert (Hi : i = if k =? 0 then ptr_modulus dm - 1 else k - 1).
  { subst i. unfold to_uintptr. destruct (Z.eqb_spec k 0) as [-> | Hne].
    - destruct dm; reflexivity.
    - apply Z.mod_small. lia. }
  rewrite <- Hi. rewrite Z.mul_comm. symmetry. apply Z.div_mod. lia.
Qed.

Lemma handle_index_eq_iff dm handle handle' :
  handle_to_index dm handle = handle_to_index dm handle' <->
  Z.shiftr (to_uintptr dm handle) 2 = Z.shiftr (to_uintptr dm handle') 2.
Proof.
  pose proof (handle_to_index_flat dm handle) as H1.
  pose proof (handle_to_index_flat dm handle') as H2.
  pose proof (shifted_handle_range dm handle) as R1.
  pose proof (shifted_handle_range dm handle') as R2.
  assert (Hq : ptr_modulus dm / 4 * 4 = ptr_modulus dm) by (destruct dm; reflexivity).
  cbv zeta in H1, H2. split.
  - intros Heq. rewrite <- Heq in H2.
    destruct (handle_to_index dm handle) as [entry idx].
    rewrite H1 in H2. clear H1 Heq.
    destruct (Z.eqb_spec (Z.shiftr (to_uintptr dm handle) 2) 0),
             (Z.eqb_spec (Z.shiftr (to_uintptr dm handle') 2) 0); lia.
  - intros Heq. unfold handle_to_index. rewrite Heq. reflexivity.
Qed.

(** X1. Two handles share a record of the cache exactly when they agree
    above their two low bits: [handle_to_index] forgets the two low bits
    and nothing else. *)
Theorem handle_to_index_same_record dm handle handle' :
  handle_to_index dm handle = handle_to_index dm handle' <->
  Z.shiftr (to_uintptr dm handle) 2 = Z.shiftr (to_uintptr dm handle') 2.
Proof. apply handle_index_eq_iff. Qed.

(** X2. The handles the cache can hold are those from 4 up to
    [4 * (FSYNC_LIST_ENTRIES * FSYNC_LIST_BLOCK_SIZE) + 3]: exactly for
    these the block index is below FSYNC_LIST_ENTRIES, and then the block
    and the offset are the quotient and the remainder of
    [(handle >> 2) - 1] by the block size. *)
Theorem handle_to_index_in_range dm handle :
  0 <= handle < ptr_modulus dm ->
  (fst (handle_to_index dm handle) < FSYNC_LIST_ENTRIES <->
   4 <= handle < 4 * (FSYNC_LIST_ENTRIES * FSYNC_LIST_BLOCK_SIZE dm + 1)) /\
  (4 <= handle ->
   handle_to_index dm handle
   = ((handle / 4 - 1) / FSYNC_LIST_BLOCK_SIZE dm,
      (handle / 4 - 1) mod FSYNC_LIST_BLOCK_SIZE dm)).
Proof.
  intros Hh. pose proof (FSYNC_LIST_BLOCK_SIZE_pos dm) as Hb.
  assert (Hu : to_uintptr dm handle = handle) by (apply Z.mod_small; exact Hh).
  assert (Hq : ptr_modulus dm / 4 * 4 = ptr_modulus dm) by (destruct dm; reflexivity).
  assert (Hk : Z.shiftr handle 2 = handle / 4) by (rewrite Z.shiftr_div_pow2 by lia; reflexivity).
  assert (Hbig : FSYNC_LIST_ENTRIES * FSYNC_LIST_BLOCK_SIZE dm < ptr_modulus dm / 4)
    by (destruct dm; reflexivity).
  assert (Hform : 4 <= handle ->
     handle_to_index dm handle
     = ((handle / 4 - 1) / FSYNC_LIST_BLOCK_SIZE dm,
        (handle / 4 - 1) mod FSYNC_LIST_BLOCK_SIZE dm)).
  { intros H4. unfold handle_to_index. rewrite Hu, Hk.
    assert (1 <= handle / 4) by (apply Z.div_le_lower_bound; lia).
    assert (handle / 4 < ptr_modulus dm / 4)
      by (apply Z.div_lt_upper_bound; lia).
    unfold to_uintptr. rewrite (Z.mod_small (handle / 4 - 1)) by lia. reflexivity. }
  split; [| exact Hform].
  destruct (Z.lt_ge_cases handle 4) as [Hlt | Hge].
  - assert (Hz : Z.shiftr (to_uintptr dm handle) 2 = 0).
    { rewrite Hu, Hk. apply Z.div_small. lia. }
    pose proof (null_handle_entry dm handle Hz). split; lia.
  - rewrite (Hform Hge). cbn [fst].
    assert (1 <= handle / 4) by (apply Z.div_le_lower_bound; lia).
    split.
    + intros Hlt. split; [lia |].
      assert (handle / 4 - 1 < FSYNC_LIST_ENTRIES * FSYNC_LIST_BLOCK_SIZE dm).
      { destruct (Z.lt_ge_cases (handle / 4 - 1)
                    (FSYNC_LIST_ENTRIES * FSYNC_LIST_BLOCK_SIZE dm)) as [? | Hc];
          [assumption |].
        apply (Z.div_le_mono _ _ (FSYNC_LIST_BLOCK_SIZE dm)) in Hc; [| lia].
        rewrite Z.div_mul in Hc by lia. lia. }
      assert (handle / 4 < FSYNC_LIST_ENTRIES * FSYNC_LIST_BLOCK_SIZE dm + 1) by lia.
      pose proof (Z.mul_div_le handle 4 ltac:(lia)).
      pose proof (Z.mod_pos_bound handle 4 ltac:(lia)).
      pose proof (Z.div_mod handle 4 ltac:(lia)). lia.
    + intros [_ Hlt]. apply Z.div_lt_upper_bound; [lia |].
      assert (handle / 4 < FSYNC_LIST_ENTRIES * FSYNC_LIST_BLOCK_SIZE dm + 1)
        by (apply Z.div_lt_upper_bound; lia).
      lia.
Qed.

Lemma handle_to_index_in_range_witness :
  0 <= 40 < ptr_modulus LP64 /\
  (fst (handle_to_index LP64 40) < FSYNC_LIST_ENTRIES <->
   4 <= 40 < 4 * (FSYNC_LIST_ENTRIES * FSYNC_LIST_BLOCK_SIZE LP64 + 1)) /\
  (4 <= 40 ->
   handle_to_index LP64 40
   = ((40 / 4 - 1) / FSYNC_LIST_BLOCK_SIZE LP64,
      (40 / 4 - 1) mod FSYNC_LIST_BLOCK_SIZE LP64)).
Proof.
  assert (H : 0 <= 40 < ptr_modulus LP64) by (split; [discriminate | reflexivity]).
  split; [exact H |]. apply (handle_to_index_in_range LP64 40 H).
Defined.

(** What a reader obtains for any handle, in or out of the range. *)
Lemma read_cached_eq dm handle s :
  cache_wf dm s ->
  read_cached dm handle s =
  if fst (handle_to_index dm handle) <? FSYNC_LIST_ENTRIES
  then (if type (record_at s (handle_to_index dm handle)) =? 0 then None
        else Some (record_at s (handle_to_index dm handle)))
  else None.
Proof.
  intros Hwf. destruct (handle_to_index dm handle) as [entry idx] eqn:Hidx. cbn [fst].
  destruct (Z.ltb_spec entry FSYNC_LIST_ENTRIES) as [Hlt | Hge].
  - apply (read_cached_in_range dm handle s entry idx Hwf Hidx Hlt).
  - unfold read_cached. rewrite get_cached_object_out_of_range; [reflexivity |].
    rewrite Hidx. exact Hge.
Qed.

Lemma get_cached_object_eq dm handle s :
  cache_wf dm s ->
  get_cached_object dm handle s =
  Ret (if (fst (handle_to_index dm handle) <? FSYNC_LIST_ENTRIES)
          && negb (type (record_at s (handle_to_index dm handle)) =? 0)
       then Some (handle_to_index dm handle) else None) s.
Proof.
  intros Hwf. destruct (handle_to_index dm handle) as [entry idx] eqn:Hidx. cbn [fst].
  destruct (Z.ltb_spec entry FSYNC_LIST_ENTRIES) as [Hlt | Hge]; cbn [andb].
  - rewrite (get_cached_object_in_range dm handle s entry idx Hwf Hidx Hlt).
    destruct (type (record_at s (entry, idx)) =? 0); reflexivity.
  - apply get_cached_object_out_of_range. rewrite Hidx. exact Hge.
Qed.

(** X3. [add_to_list] for one handle leaves the cached object of every
    handle that differs from it above the two low bits as it was: the
    lookup of the other handle gives the same result before and after. *)
Theorem add_to_list_other_handles dm ok handle ty p s handle' :
  cache_wf dm s ->
  Z.shiftr (to_uintptr dm handle') 2 <> Z.shiftr (to_uintptr dm handle) 2 ->
  exists r s',
    add_to_list dm ok handle ty p s = Ret r s' /\
    read_cached dm handle' s' = read_cached dm handle' s /\
    exists found, get_cached_object dm handle' s = Ret found s /\
                  get_cached_object dm handle' s' = Ret found s'.
Proof.
  intros Hwf Hne.
  destruct (add_to_list_total dm ok handle ty p s Hwf)
    as (r & s' & Hrun & Hwf' & Hr & Hrec & _).
  assert (Hsame : record_at s' (handle_to_index dm handle')
                  = record_at s (handle_to_index dm handle')).
  { rewrite Hrec. destruct (decide (r = Some (handle_to_index dm handle'))) as [-> | _];
      [| reflexivity].
    destruct Hr as [Hr | Hr]; [discriminate |].
    assert (Heq : handle_to_index dm handle' = handle_to_index dm handle) by congruence.
    apply handle_index_eq_iff in Heq. contradiction. }
  exists r, s'. split; [exact Hrun |]. split.
  - rewrite (read_cached_eq dm handle' s' Hwf'), (read_cached_eq dm handle' s Hwf), Hsame.
    reflexivity.
  - eexists. split; [apply (get_cached_object_eq dm handle' s Hwf) |].
    rewrite (get_cached_object_eq dm handle' s' Hwf'), Hsame. reflexivity.
Qed.

Lemma add_to_list_other_handles_witness :
  cache_wf LP64 one_semaphore_state /\
  Z.shiftr (to_uintptr LP64 8) 2 <> Z.shiftr (to_uintptr LP64 12) 2 /\
  exists r s',
    add_to_list LP64 true 12 FSYNC_SEMAPHORE 77 one_semaphore_state = Ret r s' /\
    read_cached LP64 8 s' = read_cached LP64 8 one_semaphore_state /\
    exists found, get_cached_object LP64 8 one_semaphore_state = Ret found one_semaphore_state /\
                  get_cached_object LP64 8 s' = Ret found s'.
Proof.
  assert (Hwf : cache_wf LP64 one_semaphore_state)
    by (apply cache_wfb_sound; vm_compute; reflexivity).
  assert (Hne : Z.shiftr (to_uintptr LP64 8) 2 <> Z.shiftr (to_uintptr LP64 12) 2)
    by (vm_compute; discriminate).
  split; [exact Hwf |]. split; [exact Hne |].
  apply (add_to_list_other_handles LP64 true 12 FSYNC_SEMAPHORE 77 one_semaphore_state 8
           Hwf Hne).
Defined.

Lemma add_to_list_calls_total dm calls : forall s,
  cache_wf dm s ->
  exists s', add_to_list_calls dm calls s = Ret tt s' /\ cache_wf dm s' /\
             shm_addrs s' = shm_addrs s /\ shm_addrs_size s' = shm_addrs_size s /\
             pagesize s' = pagesize s /\ do_fsync_cached s' = do_fsync_cached s.
Proof.
  induction calls as [| c rest IH]; intros s Hwf.
  - exists s. repeat split; try reflexivity; apply Hwf.
  - destruct (add_to_list_total dm (call_alloc_ok c) (call_handle c) (call_type c)
                (call_shm c) s Hwf) as (r & s1 & Hrun & Hwf1 & _ & _ & E1 & E2 & E3 & E4).
    destruct (IH s1 Hwf1) as (s' & Hrest & Hwf' & F2 & F3 & F4 & F1).
    exists s'. split; [cbn [add_to_list_calls]; unfold bind; rewrite Hrun; exact Hrest |].
    split; [exact Hwf' |]. repeat split; congruence.
Qed.

(** X4. The handle cache is memory safe for every handle value.  From a
    well-formed cache, any sequence of [add_to_list] calls returns without
    an access outside [fsync_list] or one of its blocks, leaves the cache
    well formed and the page pool alone; then [get_cached_object], for any
    handle at all, returns without changing the state, and what it returns
    is NULL or the position of an allocated record whose type is not 0. *)
Theorem handle_cache_memory_safe dm calls s :
  cache_wf dm s ->
  exists s',
    add_to_list_calls dm calls s = Ret tt s' /\
    cache_wf dm s' /\
    shm_addrs s' = shm_addrs s /\ shm_addrs_size s' = shm_addrs_size s /\
    forall handle, exists found,
      get_cached_object dm handle s' = Ret found s' /\
      (forall ref, found = Some ref ->
         ref = handle_to_index dm handle /\
         0 <= fst ref < FSYNC_LIST_ENTRIES /\
         0 <= snd ref < FSYNC_LIST_BLOCK_SIZE dm /\
         exists rec, deref s' ref = Some rec /\ type rec <> 0).
Proof.
  intros Hwf.
  destruct (add_to_list_calls_total dm calls s Hwf) as (s' & Hrun & Hwf' & E1 & E2 & _).
  exists s'. split; [exact Hrun |]. split; [exact Hwf' |].
  split; [exact E1 |]. split; [exact E2 |].
  intros handle. eexists. split; [apply (get_cached_object_eq dm handle s' Hwf') |].
  intros ref Href.
  pose proof (handle_to_index_range dm handle) as [He Hi].
  destruct (Z.ltb_spec (fst (handle_to_index dm handle)) FSYNC_LIST_ENTRIES) as [Hlt | Hge];
    cbn [andb] in Href; [| discriminate].
  destruct (Z.eqb_spec (type (record_at s' (handle_to_index dm handle))) 0) as [Hz | Hnz];
    cbn [negb] in Href; [discriminate |].
  injection Href as <-. split; [reflexivity |]. split; [lia |]. split; [exact Hi |].
  exists (record_at s' (handle_to_index dm handle)).
  split; [apply deref_of_nonzero, Hnz | exact Hnz].
Qed.

Lemma handle_cache_memory_safe_witness :
  cache_wf LP64 initial_state /\
  exists s',
    add_to_list_calls LP64
      [ {| call_alloc_ok := true; call_handle := 8; call_type := 1; call_shm := 4242 |};
        {| call_alloc_ok := false; call_handle := 0x40000; call_type := 1; call_shm := 8 |};
        {| call_alloc_ok := true; call_handle := 0; call_type := 1; call_shm := 16 |} ]
      initial_state = Ret tt s' /\
    cache_wf LP64 s' /\
    shm_addrs s' = shm_addrs initial_state /\
    shm_addrs_size s' = shm_addrs_size initial_state /\
    forall handle, exists found,
      get_cached_object LP64 handle s' = Ret found s' /\
      (forall ref, found = Some ref ->
         ref = handle_to_index LP64 handle /\
         0 <= fst ref < FSYNC_LIST_ENTRIES /\
         0 <= snd ref < FSYNC_LIST_BLOCK_SIZE LP64 /\
         exists rec, deref s' ref = Some rec /\ type rec <> 0).
Proof.
  split; [apply cache_wf_initial |].
  apply (handle_cache_memory_safe LP64 _ initial_state (cache_wf_initial LP64)).
Defined.

(** X5. Block 0 of the cache is the static initial block: for a handle of
    block 0 [add_to_list] returns its record whether or not an anonymous
    mapping could be had.  For a handle of a later block that is not
    allocated yet, a failed mapping makes [add_to_list] return FALSE with
    the whole state untouched, and the handle stays uncached; a successful
    one makes it return the record. *)
Theorem add_to_list_block_allocation dm handle ty p s :
  cache_wf dm s ->
  fst (handle_to_index dm handle) < FSYNC_LIST_ENTRIES ->
  (fst (handle_to_index dm handle) = 0 ->
   forall ok, exists s',
     add_to_list dm ok handle ty p s = Ret (Some (handle_to_index dm handle)) s') /\
  (fst (handle_to_index dm handle) <> 0 ->
   index (fsync_list s) (fst (handle_to_index dm handle)) = Some None ->
   add_to_list dm false handle ty p s = Ret None s /\
   get_cached_object dm handle s = Ret None s /\
   exists s', add_to_list dm true handle ty p s = Ret (Some (handle_to_index dm handle)) s').
Proof.
  intros Hwf Hlt. destruct (handle_to_index dm handle) as [entry idx] eqn:Hidx.
  cbn [fst] in *. split.
  - intros -> ok. eexists.
    apply (add_to_list_in_range dm ok handle ty p s 0 idx Hwf Hidx Hlt).
    intros _ H. contradiction.
  - intros Hne Hb. split; [| split].
    + apply (add_to_list_alloc_failed dm handle ty p s entry idx Hidx Hlt Hb Hne).
    + rewrite (get_cached_object_in_range dm handle s entry idx Hwf Hidx Hlt).
      unfold record_at, deref. cbn [fst snd]. rewrite Hb. reflexivity.
    + eexists. apply (add_to_list_in_range dm true handle ty p s entry idx Hwf Hidx Hlt).
      intros; reflexivity.
Qed.

Lemma add_to_list_block_allocation_witness :
  cache_wf LP64 initial_state /\
  fst (handle_to_index LP64 0x4004) < FSYNC_LIST_ENTRIES /\
  fst (handle_to_index LP64 0x4004) <> 0 /\
  index (fsync_list initial_state) (fst (handle_to_index LP64 0x4004)) = Some None /\
  add_to_list LP64 false 0x4004 FSYNC_SEMAPHORE 4242 initial_state = Ret None initial_state /\
  get_cached_object LP64 0x4004 initial_state = Ret None initial_state /\
  exists s', add_to_list LP64 true 0x4004 FSYNC_SEMAPHORE 4242 initial_state
             = Ret (Some (handle_to_index LP64 0x4004)) s'.
Proof.
  assert (Hlt : fst (handle_to_index LP64 0x4004) < FSYNC_LIST_ENTRIES) by reflexivity.
  assert (Hne : fst (handle_to_index LP64 0x4004) <> 0) by (vm_compute; discriminate).
  assert (Hb : index (fsync_list initial_state) (fst (handle_to_index LP64 0x4004))
               = Some None) by reflexivity.
  split; [apply cache_wf_initial |]. split; [exact Hlt |]. split; [exact Hne |].
  split; [exact Hb |].
  apply (add_to_list_block_allocation LP64 0x4004 FSYNC_SEMAPHORE 4242 initial_state
           (cache_wf_initial LP64) Hlt); assumption.
Defined.

(** * Further properties of the page pool *)

Lemma long_operand_zero dm : long_operand dm 0 = 0.
Proof. destruct dm; reflexivity. Qed.

Lemma get_shm_pagesize_zero dm e idx s :
  pagesize s = 0 -> get_shm dm e idx s = Fault s.
Proof.
  intros H. unfold get_shm, bind, gets, div_by_long. rewrite H, long_operand_zero.
  reflexivity.
Qed.

(** X6. Before [fsync_init] has set [pagesize] the page pool cannot be
    used: [get_shm] divides by the zero [pagesize] for every slot index.
    This is what happens in a process without WINEFSYNC whose probing
    [create_fsync] the server answers with success or
    STATUS_OBJECT_NAME_EXISTS: [fsync_init] faults inside [get_shm],
    after the request and before any diagnostic or [exit]. *)
Theorem fsync_init_probe_success_faults dm e s s1 :
  do_fsync (gate e) s = Ret 0 s1 ->
  pagesize s1 = 0 ->
  alloc_object_attributes_status (probe_create e) = 0 ->
  reply_status (server (probe_create e)) = 0
  \/ reply_status (server (probe_create e)) = STATUS_OBJECT_NAME_EXISTS ->
  (forall e' idx, get_shm dm e' idx s1 = Fault s1) /\
  fsync_init dm e s = Fault (add_event (EvServerCall 0 0 0) s1).
Proof.
  intros Hgate Hps Ha Hst. split.
  - intros e' idx. apply get_shm_pagesize_zero, Hps.
  - rewrite (fsync_init_disabled dm e s s1 Hgate). unfold bind at 1.
    rewrite (create_fsync_success dm (probe_create e) 0 0 0 0 s1 Ha)
      by (apply status_ok_true; exact Hst).
    unfold bind at 1. rewrite get_shm_pagesize_zero by exact Hps. reflexivity.
Qed.

Lemma fsync_init_probe_success_faults_witness :
  do_fsync (gate (init_env_disabled STATUS_SUCCESS)) initial_state
  = Ret 0 (set_do_fsync_cached 0
             (add_event (EvGetenv "WINEFSYNC")
                (add_event (EvFutexWaitMultiple 0) initial_state))) /\
  fsync_init LP64 (init_env_disabled STATUS_SUCCESS) initial_state
  = Fault (add_event (EvServerCall 0 0 0)
             (set_do_fsync_cached 0
                (add_event (EvGetenv "WINEFSYNC")
                   (add_event (EvFutexWaitMultiple 0) initial_state)))).
Proof.
  split; [reflexivity |].
  apply (fsync_init_probe_success_faults LP64 (init_env_disabled STATUS_SUCCESS)
           initial_state _ eq_refl eq_refl eq_refl (or_introl eq_refl)).
Defined.

Lemma shm_offset_aligned idx ps :
  4 <= ps <= 2 ^ 30 -> (8 | ps) ->
  shm_offset idx ps mod 8 = 0 /\ shm_offset idx ps + 8 <= ps.
Proof.
  intros Hps [k Hk].
  destruct (shm_offset_eq idx ps Hps) as [Hoff Hr]. rewrite Hoff in *.
  set (n := to_uint (to_uint idx * 8)) in *.
  assert (Hn : (8 | n)).
  { subst n. unfold to_uint. rewrite (Z.mod_eq (idx mod 2 ^ 32 * 8)) by lia.
    exists (idx mod 2 ^ 32 - 2 ^ 29 * (idx mod 2 ^ 32 * 8 / 2 ^ 32)).
    change (2 ^ 32) with (2 ^ 29 * 8). lia. }
  assert (Hm : (8 | n mod ps)).
  { rewrite Z.mod_eq by lia. apply Z.divide_sub_r; [exact Hn |].
    apply Z.divide_mul_l. exists k. exact Hk. }
  split; [apply Z.mod_divide; [lia | exact Hm] |].
  destruct Hm as [j Hj]. rewrite Hj in *. lia.
Qed.

(** X7. The state block [get_shm] points to lies inside the page it
    mapped.  With a page size that is a multiple of 8, the returned
    pointer is the address in the page's slot plus an offset that is a
    multiple of 8 and leaves room for the 8 bytes of the block before the
    end of the page; page and offset together are byte
    [(unsigned int)(idx * 8)] of the shared file. *)
Theorem get_shm_block_inside_page dm e idx s p s' :
  pool_wf s -> (8 | pagesize s) ->
  get_shm dm e idx s = Ret p s' ->
  exists l' a,
    shm_addrs s' = Some l' /\
    index l' (shm_entry idx (pagesize s)) = Some a /\
    p = to_uintptr dm (a + shm_offset idx (pagesize s)) /\
    0 <= shm_offset idx (pagesize s) /\
    shm_offset idx (pagesize s) mod 8 = 0 /\
    shm_offset idx (pagesize s) + 8 <= pagesize s /\
    shm_entry idx (pagesize s) * pagesize s + shm_offset idx (pagesize s)
    = to_uint (to_uint idx * 8).
Proof.
  intros Hwf Hdiv Hrun. pose proof Hwf as [Hps (l & Hl & Hlen)].
  pose proof (get_shm_Ret_inv dm e idx s p s' Hwf Hrun) as Hcase.
  destruct (get_shm_ok dm e idx s l Hwf Hl Hcase) as (s1 & Hrun1 & Hl1 & Hi1 & _).
  rewrite Hrun in Hrun1. injection Hrun1 as -> <-.
  destruct (shm_offset_aligned idx (pagesize s) Hps Hdiv) as [Hal Hroom].
  destruct (shm_offset_eq idx (pagesize s) Hps) as [Hoff Hr].
  destruct (shm_entry_eq idx (pagesize s) Hps) as [Hent _].
  eexists _, _. split; [exact Hl1 |]. split; [exact Hi1 |]. split; [reflexivity |].
  split; [lia |]. split; [exact Hal |]. split; [exact Hroom |].
  rewrite Hent, Hoff. rewrite Z.mul_comm. symmetry. apply Z.div_mod. lia.
Qed.

Lemma get_shm_block_inside_page_witness :
  pool_wf initialised_state /\ (8 | pagesize initialised_state) /\
  exists p s' l' a,
    get_shm LP64 shm_env_ok 1023 initialised_state = Ret p s' /\
    shm_addrs s' = Some l' /\
    index l' (shm_entry 1023 (pagesize initialised_state)) = Some a /\
    p = to_uintptr LP64 (a + shm_offset 1023 (pagesize initialised_state)) /\
    shm_offset 1023 (pagesize initialised_state) + 8 <= pagesize initialised_state.
Proof.
  assert (Hd : (8 | pagesize initialised_state)) by (exists 512; reflexivity).
  split; [apply pool_wf_initialised |]. split; [exact Hd |].
  destruct (get_shm LP64 shm_env_ok 1023 initialised_state) as [p s' | |] eqn:Hrun;
    try (vm_compute in Hrun; discriminate).
  destruct (get_shm_block_inside_page LP64 shm_env_ok 1023 initialised_state p s'
              pool_wf_initialised Hd Hrun) as (l' & a & H1 & H2 & H3 & _ & _ & H4 & _).
  exists p, s', l', a. repeat split; assumption.
Defined.

(** What one call of [get_shm] adds to the log: nothing when the page is
    mapped, one [mmap] of the page when it is not. *)
Lemma get_shm_events dm e idx s p s' :
  pool_wf s -> get_shm dm e idx s = Ret p s' ->
  let entry := shm_entry idx (pagesize s) in
  log s' =
  (if page_mapped s entry then []
   else EvTRACE "Mapping page %d at %p."
        :: (if mmap_ret e =? MAP_FAILED dm
            then [EvERR "Failed to map page %d (offset %#lx)."] else [])
        ++ [EvMmap entry (mmap_ret e)]) ++ log s.
Proof.
  intros Hwf Hrun entry. pose proof Hwf as [Hps (l & Hl & Hlen)].
  pose proof (get_shm_Ret_inv dm e idx s p s' Hwf Hrun) as Hcase. fold entry in Hcase.
  pose proof (shm_entry_eq idx (pagesize s) Hps) as [_ He]. fold entry in He.
  assert (Hfinish : forall s1 g cur,
    shm_addrs s1 = Some g -> index g entry = Some cur -> log s1 = log s ->
    page_mapped s entry = negb (cur =? 0) ->
    forall q s2,
      (do _ <- map_page dm e entry;;
       do a <- load_shm_addr entry;;
       ret (to_uintptr dm (a + shm_offset idx (pagesize s)))) s1 = Ret q s2 ->
      log s2 =
      (if page_mapped s entry then []
       else EvTRACE "Mapping page %d at %p."
            :: (if mmap_ret e =? MAP_FAILED dm
                then [EvERR "Failed to map page %d (offset %#lx)."] else [])
            ++ [EvMmap entry (mmap_ret e)]) ++ log s).
  { intros s1 g cur Hg Hcur Hlog Hpm q s2 Hrun2.
    destruct (map_page_eq dm e entry g cur s1 Hg Hcur)
      as (s3 & Hrun3 & Hl3 & Hi3 & _ & _ & Hnz & Hz).
    unfold bind in Hrun2. rewrite Hrun3 in Hrun2.
    rewrite (load_shm_addr_eq _ _ _ _ Hl3 Hi3) in Hrun2. injection Hrun2 as _ <-.
    rewrite Hpm. destruct (Z.eqb_spec cur 0) as [Hc | Hc]; cbn [negb].
    - rewrite (Hz Hc), Hlog. destruct (mmap_ret e =? MAP_FAILED dm); reflexivity.
    - rewrite (Hnz Hc), Hlog. reflexivity. }
  unfold get_shm in Hrun. unfold bind at 1 in Hrun. unfold gets at 1 in Hrun.
  unfold div_by_long, rem_by_long in Hrun.
  rewrite (long_operand_small dm (pagesize s) ltac:(lia)) in Hrun.
  destruct (Z.eqb_spec (pagesize s) 0); [lia |].
  unfold bind at 1 in Hrun. unfold ret at 1 in Hrun.
  unfold bind at 1 in Hrun. unfold ret at 1 in Hrun.
  fold (shm_entry idx (pagesize s)) in Hrun. fold (shm_offset idx (pagesize s)) in Hrun.
  fold entry in Hrun.
  unfold bind at 1 in Hrun. unfold gets at 1 in Hrun.
  unfold bind at 1 in Hrun. unfold when at 1 in Hrun.
  destruct (Z.geb_spec entry (shm_addrs_size s)) as [Hge | Hlt].
  - destruct Hcase as [Hlt | Hok]; [lia |].
    rewrite (grow_shm_addrs_ok e entry l s Hl Hlen ltac:(lia) Hok) in Hrun.
    pose proof (grown_size_ge (shm_addrs_size s) entry ltac:(lia)) as [_ Hgs].
    apply (Hfinish (set_shm_addrs_size (grown_size (shm_addrs_size s) entry)
                      (set_shm_addrs (Some (grown l (shm_addrs_size s) entry)) s))
                   (grown l (shm_addrs_size s) entry) 0 eq_refl) with (q := p);
      [ | reflexivity | | exact Hrun].
    + apply index_grown_new; [exact Hlen | lia].
    + unfold page_mapped. rewrite Hl, index_out_of_range by lia. reflexivity.
  - unfold ret at 1 in Hrun.
    destruct (index_in_range l entry) as [cur Hcur]; [lia |].
    apply (Hfinish s l cur Hl Hcur eq_refl) with (q := p); [| exact Hrun].
    unfold page_mapped. rewrite Hl, Hcur. reflexivity.
Qed.

Lemma count_mmaps_app entry l1 l2 :
  count_mmaps entry (l1 ++ l2) = (count_mmaps entry l1 + count_mmaps entry l2)%nat.
Proof. unfold count_mmaps. rewrite List.filter_app, length_app. reflexivity. Qed.

Lemma count_munmaps_app l1 l2 :
  count_munmaps (l1 ++ l2) = (count_munmaps l1 + count_munmaps l2)%nat.
Proof. unfold count_munmaps. rewrite List.filter_app, length_app. reflexivity. Qed.

(** One call: no [munmap]; at most one [mmap], of a page that was not
    mapped and is mapped afterwards; mapped pages stay mapped. *)
Lemma get_shm_maps_once_step dm e idx s p s' :
  pool_wf s -> mmap_ret e <> 0 -> get_shm dm e idx s = Ret p s' ->
  pool_wf s' /\
  count_munmaps (log s') = count_munmaps (log s) /\
  forall entry,
    (count_mmaps entry (log s') + (if page_mapped s' entry then 0 else 1)
     <= count_mmaps entry (log s) + (if page_mapped s entry then 0 else 1))%nat.
Proof.
  intros Hwf Hmm Hrun. pose proof Hwf as [Hps (l & Hl & Hlen)].
  pose proof (get_shm_events dm e idx s p s' Hwf Hrun) as Hlog. cbv zeta in Hlog.
  pose proof (get_shm_Ret_inv dm e idx s p s' Hwf Hrun) as Hcase.
  destruct (get_shm_ok dm e idx s l Hwf Hl Hcase) as (s1 & Hrun1 & Hl1 & Hi1 & _ & _ & Hwf1).
  rewrite Hrun in Hrun1. injection Hrun1 as _ <-.
  set (E := shm_entry idx (pagesize s)) in *.
  set (g := grown l (shm_addrs_size s) E) in *.
  assert (Hafter : page_mapped s' E = true).
  { unfold page_mapped. rewrite Hl1, Hi1. unfold page_address.
    destruct (index g E) as [c|]; [| apply negb_true_iff, Z.eqb_neq, Hmm].
    destruct (Z.eqb_spec c 0); apply negb_true_iff, Z.eqb_neq; assumption. }
  assert (Hmono : forall entry, page_mapped s entry = true -> page_mapped s' entry = true).
  { intros entry. unfold page_mapped. rewrite Hl, Hl1.
    destruct (index l entry) as [c|] eqn:Hc; [| discriminate].
    intros Hnz. apply negb_true_iff, Z.eqb_neq in Hnz.
    pose proof (index_grown_old l (shm_addrs_size s) E entry c Hc) as Hg. fold g in Hg.
    destruct (Z.eq_dec entry E) as [-> | Hne].
    - rewrite Hi1. unfold page_address. rewrite Hg.
      destruct (Z.eqb_spec c 0); [contradiction |]. apply negb_true_iff, Z.eqb_neq. assumption.
    - rewrite index_update_ne by congruence. rewrite Hg.
      apply negb_true_iff, Z.eqb_neq. assumption. }
  split; [exact Hwf1 |]. split.
  - rewrite Hlog, count_munmaps_app.
    destruct (page_mapped s E); [reflexivity |].
    destruct (mmap_ret e =? MAP_FAILED dm); reflexivity.
  - intros entry. rewrite Hlog, count_mmaps_app.
    destruct (page_mapped s E) eqn:HE.
    + cbn [count_mmaps List.filter length Nat.add].
      destruct (page_mapped s entry) eqn:Hentry; [rewrite (Hmono _ Hentry); lia |].
      destruct (page_mapped s' entry); lia.
    + assert (Hcount : count_mmaps entry
                (EvTRACE "Mapping page %d at %p."
                 :: (if mmap_ret e =? MAP_FAILED dm
                     then [EvERR "Failed to map page %d (offset %#lx)."] else [])
                 ++ [EvMmap E (mmap_ret e)])
              = if E =? entry then 1%nat else 0%nat).
      { unfold count_mmaps. destruct (mmap_ret e =? MAP_FAILED dm); cbn;
          destruct (E =? entry); reflexivity. }
      rewrite Hcount. destruct (Z.eqb_spec E entry) as [Heq | Hne].
      * rewrite <- Heq. rewrite Hafter, HE. lia.
      * destruct (page_mapped s entry) eqn:Hentry; [rewrite (Hmono _ Hentry); lia |].
        destruct (page_mapped s' entry); lia.
Qed.

Lemma get_shm_maps_once_run dm calls : forall s s',
  pool_wf s -> mmap_never_null calls ->
  get_shm_calls dm calls s = Ret tt s' ->
  pool_wf s' /\
  count_munmaps (log s') = count_munmaps (log s) /\
  forall entry,
    (count_mmaps entry (log s') + (if page_mapped s' entry then 0 else 1)
     <= count_mmaps entry (log s) + (if page_mapped s entry then 0 else 1))%nat.
Proof.
  induction calls as [| [e idx] rest IH]; intros s s' Hwf Hnn Hrun.
  - injection Hrun as <-. split; [exact Hwf |]. split; [reflexivity |]. intros; lia.
  - cbn [get_shm_calls] in Hrun. unfold bind in Hrun.
    destruct (get_shm dm e idx s) as [p s1 | |] eqn:H1; try discriminate.
    apply Forall_cons in Hnn as [Hmm Hnn]. cbn [fst] in Hmm.
    destruct (get_shm_maps_once_step dm e idx s p s1 Hwf Hmm H1) as (Hwf1 & Hu1 & Hm1).
    destruct (IH s1 s' Hwf1 Hnn Hrun) as (Hwf' & Hu' & Hm').
    split; [exact Hwf' |]. split; [congruence |].
    intros entry. specialize (Hm1 entry). specialize (Hm' entry). lia.
Qed.

(** X8. A process that calls [get_shm] from one thread maps every page of
    the shared file at most once and never unmaps: over any sequence of
    calls that return, with [mmap] never returning NULL, the log gains no
    [munmap], no [mmap] of a page whose slot held an address at the start,
    and at most one [mmap] of any other page (also when that [mmap]
    failed: the failure value stays in the slot and is not retried). *)
Theorem get_shm_maps_each_page_once dm calls s s' :
  pool_wf s -> mmap_never_null calls ->
  get_shm_calls dm calls s = Ret tt s' ->
  pool_wf s' /\
  count_munmaps (log s') = count_munmaps (log s) /\
  forall entry,
    (count_mmaps entry (log s')
     <= count_mmaps entry (log s) + (if page_mapped s entry then 0 else 1))%nat.
Proof.
  intros Hwf Hnn Hrun.
  destruct (get_shm_maps_once_run dm calls s s' Hwf Hnn Hrun) as (Hwf' & Hu & Hm).
  split; [exact Hwf' |]. split; [exact Hu |].
  intros entry. specialize (Hm entry). lia.
Qed.

Lemma get_shm_maps_each_page_once_witness :
  let calls := [(shm_env_ok, 40); (shm_env_ok, 41); (shm_env_ok, 65540); (shm_env_ok, 40)] in
  pool_wf initialised_state /\ mmap_never_null calls /\
  exists s',
    get_shm_calls LP64 calls initialised_state = Ret tt s' /\
    count_munmaps (log s') = count_munmaps (log initialised_state) /\
    forall entry,
      (count_mmaps entry (log s')
       <= count_mmaps entry (log initialised_state)
          + (if page_mapped initialised_state entry then 0 else 1))%nat.
Proof.
  intros calls.
  assert (Hnn : mmap_never_null calls) by (repeat constructor; discriminate).
  split; [apply pool_wf_initialised |]. split; [exact Hnn |].
  destruct (get_shm_calls LP64 calls initialised_state) as [[] s' | |] eqn:Hrun;
    try (vm_compute in Hrun; discriminate).
  exists s'. split; [reflexivity |].
  apply (get_shm_maps_each_page_once LP64 calls initialised_state s'
           pool_wf_initialised Hnn Hrun).
Defined.

(** * Further properties of initialisation and creation *)

Lemma get_shm_fresh_page dm e idx s l :
  pool_wf s -> shm_addrs s = Some l ->
  index l (shm_entry idx (pagesize s)) = Some 0 ->
  exists s', get_shm dm e idx s
             = Ret (to_uintptr dm (mmap_ret e + shm_offset idx (pagesize s))) s'.
Proof.
  intros Hwf Hl Hz. pose proof Hwf as [_ (l0 & Hl0 & Hlen)].
  rewrite Hl in Hl0. injection Hl0 as <-.
  pose proof (index_bound _ _ _ Hz) as Hb.
  destruct (get_shm_ok dm e idx s l Hwf Hl) as (s' & Hrun & _); [left; lia |].
  rewrite (grown_same l _ _ Hlen) in Hrun by lia.
  unfold page_address in Hrun. rewrite Hz in Hrun. cbn [Z.eqb] in Hrun.
  exists s'. exact Hrun.
Qed.

(** X9. [fsync_init] in a process with the subsystem enabled, when the
    shared file opens and [calloc] succeeds: it returns, leaves the handle
    cache alone, and sets up the page pool with the system's page size and
    128 empty slots.  From that state [get_shm], for every slot index in
    the first 128 pages, needs no [realloc]: it maps the page and returns
    the new mapping plus the offset. *)
Theorem fsync_init_sets_up_pool dm e s v s1 :
  do_fsync (gate e) s = Ret v s1 -> v <> 0 ->
  shm_open_ret e <> -1 -> calloc_ok e = true ->
  4 <= sysconf_pagesize e <= 2 ^ 30 ->
  exists s',
    fsync_init dm e s = Ret tt s' /\
    pool_wf s' /\
    pagesize s' = sysconf_pagesize e /\
    shm_addrs s' = Some (replicate 128 0) /\ shm_addrs_size s' = 128 /\
    shm_fd s' = shm_open_ret e /\
    fsync_list s' = fsync_list s1 /\
    forall e' idx,
      shm_entry idx (sysconf_pagesize e) < 128 ->
      exists s'',
        get_shm dm e' idx s'
        = Ret (to_uintptr dm (mmap_ret e' + shm_offset idx (sysconf_pagesize e))) s''.
Proof.
  intros Hgate Hv Hopen Hcalloc Hps.
  rewrite (fsync_init_enabled dm e s v s1 Hgate Hv). cbv zeta.
  destruct (Z.eqb_spec (shm_open_ret e) (-1)); [contradiction |].
  rewrite Hcalloc. eexists. split; [reflexivity |].
  set (s' := set_shm_addrs_size 128 _).
  assert (Hwf : pool_wf s').
  { split; [exact Hps |]. exists (replicate 128 0). split; reflexivity. }
  split; [exact Hwf |]. split; [reflexivity |]. split; [reflexivity |].
  split; [reflexivity |]. split; [reflexivity |].
  split; [subst s'; destruct (stat_ok e); reflexivity |].
  intros e' idx Hlt.
  pose proof (shm_entry_eq idx (sysconf_pagesize e) Hps) as [_ He].
  apply (get_shm_fresh_page dm e' idx s' (replicate 128 0) Hwf eq_refl).
  apply index_Some. split; [apply He |].
  apply lookup_replicate_2. change (pagesize s') with (sysconf_pagesize e). lia.
Qed.

Lemma fsync_init_sets_up_pool_witness :
  exists s1 s',
    do_fsync (gate init_env_enabled) initial_state = Ret 1 s1 /\
    fsync_init LP64 init_env_enabled initial_state = Ret tt s' /\
    pool_wf s' /\ shm_addrs s' = Some (replicate 128 0) /\
    forall e' idx,
      shm_entry idx 4096 < 128 ->
      exists s'', get_shm LP64 e' idx s'
                  = Ret (to_uintptr LP64 (mmap_ret e' + shm_offset idx 4096)) s''.
Proof.
  destruct (fsync_init_sets_up_pool LP64 init_env_enabled initial_state 1 _ eq_refl)
    as (s' & H1 & H2 & _ & H3 & _ & _ & _ & H4);
    [discriminate | discriminate | reflexivity | split; discriminate |].
  eexists _, s'. split; [reflexivity |]. split; [exact H1 |]. split; [exact H2 |].
  split; [exact H3 | exact H4].
Defined.

Lemma get_shm_null_array dm e idx s :
  4 <= pagesize s <= 2 ^ 30 -> shm_addrs s = None ->
  shm_entry idx (pagesize s) < shm_addrs_size s ->
  get_shm dm e idx s = Fault s.
Proof.
  intros Hps Hnull Hlt.
  unfold get_shm. unfold bind at 1. unfold gets at 1.
  unfold div_by_long, rem_by_long. rewrite (long_operand_small dm (pagesize s) ltac:(lia)).
  destruct (Z.eqb_spec (pagesize s) 0); [lia |].
  unfold bind at 1. unfold ret at 1. unfold bind at 1. unfold ret at 1.
  fold (shm_entry idx (pagesize s)).
  unfold bind at 1. unfold gets at 1.
  unfold bind at 1. unfold when at 1.
  destruct (Z.geb_spec (shm_entry idx (pagesize s)) (shm_addrs_size s)); [lia |].
  unfold ret at 1. unfold bind at 1. unfold map_page. unfold bind at 1.
  unfold load_shm_addr. rewrite Hnull. reflexivity.
Qed.

(** X10. [fsync_init] does not check the result of [calloc].  When
    [calloc] fails it still returns normally, with [shm_addrs] NULL and
    [shm_addrs_size] 128; then [get_shm] faults, reading through the NULL
    array, for every slot index in the first 128 pages. *)
Theorem fsync_init_calloc_failure dm e s v s1 :
  do_fsync (gate e) s = Ret v s1 -> v <> 0 ->
  shm_open_ret e <> -1 -> calloc_ok e = false ->
  4 <= sysconf_pagesize e <= 2 ^ 30 ->
  exists s',
    fsync_init dm e s = Ret tt s' /\
    shm_addrs s' = None /\ shm_addrs_size s' = 128 /\
    forall e' idx,
      shm_entry idx (sysconf_pagesize e) < 128 ->
      get_shm dm e' idx s' = Fault s'.
Proof.
  intros Hgate Hv Hopen Hcalloc Hps.
  rewrite (fsync_init_enabled dm e s v s1 Hgate Hv). cbv zeta.
  destruct (Z.eqb_spec (shm_open_ret e) (-1)); [contradiction |].
  rewrite Hcalloc. eexists. split; [reflexivity |].
  split; [reflexivity |]. split; [reflexivity |].
  intros e' idx Hlt. apply get_shm_null_array; [exact Hps | reflexivity | exact Hlt].
Qed.

Lemma fsync_init_calloc_failure_witness :
  let e := {| gate := env_enabled; probe_create := create_env_not_implemented;
              stat_ok := true; st_ino := 1234; shm_open_ret := 5; shm_open_errno := 0;
              sysconf_pagesize := 4096; calloc_ok := false |} in
  exists s1 s',
    do_fsync (gate e) initial_state = Ret 1 s1 /\
    fsync_init LP64 e initial_state = Ret tt s' /\
    shm_addrs s' = None /\ shm_addrs_size s' = 128 /\
    forall e' idx, shm_entry idx 4096 < 128 -> get_shm LP64 e' idx s' = Fault s'.
Proof.
  intros e.
  destruct (fsync_init_calloc_failure LP64 e initial_state 1 _ eq_refl)
    as (s' & H1 & H2 & H3 & H4);
    [discriminate | discriminate | reflexivity | split; discriminate |].
  eexists _, s'. split; [reflexivity |]. split; [exact H1 |]. split; [exact H2 |].
  split; [exact H3 | exact H4].
Defined.

Lemma pool_wf_same_pool s s' :
  shm_addrs s' = shm_addrs s -> shm_addrs_size s' = shm_addrs_size s ->
  pagesize s' = pagesize s -> pool_wf s -> pool_wf s'.
Proof.
  intros H1 H2 H3 [Hps (l & Hl & Hlen)]. split; [rewrite H3; exact Hps |].
  exists l. split; congruence.
Qed.

(** The successful path of [create_fsync], step by step. *)
Lemma create_fsync_run dm e ty access low high s :
  let st := reply_status (server e) in
  let handle := reply_handle (server e) in
  let shm_idx := reply_shm_idx (server e) in
  pool_wf s -> cache_wf dm s ->
  alloc_object_attributes_status e = 0 ->
  st = 0 \/ st = STATUS_OBJECT_NAME_EXISTS ->
  shm_entry shm_idx (pagesize s) < shm_addrs_size s \/ realloc_ok (shm_os e) = true ->
  exists p r s' l' a,
    create_fsync dm e ty access low high s = Ret (st, Some handle) s' /\
    pool_wf s' /\ cache_wf dm s' /\ pagesize s' = pagesize s /\
    shm_addrs s' = Some l' /\ index l' (shm_entry shm_idx (pagesize s)) = Some a /\
    p = to_uintptr dm (a + shm_offset shm_idx (pagesize s)) /\
    (mmap_ret (shm_os e) <> 0 -> a <> 0) /\
    (r = None \/ r = Some (handle_to_index dm handle)) /\
    (forall ref, record_at s' ref =
       if decide (r = Some ref) then published (record_at s ref) ty p
       else record_at s ref) /\
    (fst (handle_to_index dm handle) < FSYNC_LIST_ENTRIES ->
     (index (fsync_list s) (fst (handle_to_index dm handle)) = Some None ->
      fst (handle_to_index dm handle) <> 0 -> anon_mmap_alloc_ret e = true) ->
     r = Some (handle_to_index dm handle)).
Proof.
  intros st handle shm_idx Hpool Hcache Ha Hst Hcase.
  set (s0 := add_event (EvServerCall access low high) s).
  pose proof Hpool as [Hps (l & Hl & Hlen)].
  assert (Hpool0 : pool_wf s0) by (split; [exact Hps | exists l; split; assumption]).
  destruct (get_shm_ok dm (shm_os e) shm_idx s0 l Hpool0 Hl Hcase)
    as (s1 & Hrun1 & Hl1 & Hi1 & _ & Hsame & Hpool1).
  assert (Hcache1 : cache_wf dm s1) by (apply (cache_wf_same_but_pool dm s0); assumption).
  set (a := page_address (shm_os e) (grown l (shm_addrs_size s0)
               (shm_entry shm_idx (pagesize s0))) (shm_entry shm_idx (pagesize s0))) in *.
  set (p := to_uintptr dm (a + shm_offset shm_idx (pagesize s0))) in *.
  destruct (add_to_list_total dm (anon_mmap_alloc_ret e) handle ty p s1 Hcache1)
    as (r & s2 & Hrun2 & Hcache2 & Hr & Hrec & _ & El & Es & Ep).
  exists p, r, (add_event (EvTRACE "-> handle %p, shm index %d.") s2),
    (update (grown l (shm_addrs_size s0) (shm_entry shm_idx (pagesize s0)))
       (shm_entry shm_idx (pagesize s0)) a), a.
  split.
  { rewrite (create_fsync_success dm e ty access low high s Ha)
      by (apply status_ok_true; exact Hst).
    fold s0 handle shm_idx. unfold bind. rewrite Hrun1, Hrun2. reflexivity. }
  split; [apply (pool_wf_same_pool s1); assumption |].
  split; [exact Hcache2 |].
  split; [cbn [pagesize add_event]; rewrite Ep; apply Hsame |].
  split; [cbn [shm_addrs add_event]; rewrite El; exact Hl1 |].
  split; [exact Hi1 |]. split; [reflexivity |].
  split.
  { intros Hmm. subst a. unfold page_address.
    destruct (index (grown l (shm_addrs_size s0) (shm_entry shm_idx (pagesize s0)))
                (shm_entry shm_idx (pagesize s0))) as [c|]; [| exact Hmm].
    destruct (Z.eqb_spec c 0); assumption. }
  split; [exact Hr |].
  split.
  { intros ref. change (record_at (add_event _ s2) ref) with (record_at s2 ref).
    rewrite Hrec. rewrite (record_at_same_list s0 s1 ref) by apply Hsame. reflexivity. }
  intros Hlt Hok.
  destruct (handle_to_index dm handle) as [entry idx] eqn:Hidx. cbn [fst] in Hlt, Hok.
  assert (Hfl : fsync_list s1 = fsync_list s) by apply Hsame.
  rewrite (add_to_list_in_range dm _ handle ty _ s1 entry idx Hcache1 Hidx Hlt) in Hrun2.
  - injection Hrun2 as <- _. reflexivity.
  - rewrite Hfl. exact Hok.
Qed.

(** X11. A semaphore created through [fsync_create_semaphore] is at once
    usable on the fast path.  In an initialised process, when the server
    replies success or STATUS_OBJECT_NAME_EXISTS with a handle the cache
    can hold and has no record for yet, the call returns the status and
    the handle; afterwards the cache gives, for that handle, a record of
    type FSYNC_SEMAPHORE whose shm pointer is the very pointer [get_shm]
    returns for the slot index of the reply from then on. *)
Theorem fsync_create_semaphore_caches dm e access initial max s :
  let st := reply_status (server e) in
  let handle := reply_handle (server e) in
  let shm_idx := reply_shm_idx (server e) in
  pool_wf s -> cache_wf dm s ->
  alloc_object_attributes_status e = 0 ->
  st = 0 \/ st = STATUS_OBJECT_NAME_EXISTS ->
  shm_entry shm_idx (pagesize s) < shm_addrs_size s \/ realloc_ok (shm_os e) = true ->
  mmap_ret (shm_os e) <> 0 ->
  fst (handle_to_index dm handle) < FSYNC_LIST_ENTRIES ->
  (index (fsync_list s) (fst (handle_to_index dm handle)) = Some None ->
   fst (handle_to_index dm handle) <> 0 -> anon_mmap_alloc_ret e = true) ->
  type (record_at s (handle_to_index dm handle)) = 0 ->
  exists p s',
    fsync_create_semaphore dm e access initial max s = Ret (st, Some handle) s' /\
    read_cached dm handle s' = Some {| type := FSYNC_SEMAPHORE; shm := p |} /\
    forall e2, exists s'', get_shm dm e2 shm_idx s' = Ret p s''.
Proof.
  intros st handle shm_idx Hpool Hcache Ha Hst Hcase Hmm Hlt Hok Hfresh.
  set (s0 := add_event (EvTRACE "name %s, initial %d, max %d.") s).
  destruct (create_fsync_run dm e FSYNC_SEMAPHORE access initial max s0 Hpool Hcache Ha Hst Hcase)
    as (p & r & s' & l' & a & Hrun & Hpool' & Hcache' & Hps & Hl' & Hi' & Hp & Hnz & _ & Hrec & Hr).
  fold st handle shm_idx in Hrun, Hrec, Hr, Hi', Hp.
  specialize (Hr Hlt Hok). specialize (Hrec (handle_to_index dm handle)).
  rewrite decide_True in Hrec by exact Hr.
  change (record_at s0 (handle_to_index dm handle))
    with (record_at s (handle_to_index dm handle)) in Hrec.
  rewrite (published_zero _ _ _ Hfresh) in Hrec.
  exists p, s'. split; [exact Hrun |]. split.
  - rewrite (read_cached_eq dm handle s' Hcache').
    destruct (Z.ltb_spec (fst (handle_to_index dm handle)) FSYNC_LIST_ENTRIES); [| lia].
    rewrite Hrec. reflexivity.
  - intros e2.
    destruct (get_shm_mapped dm e2 shm_idx s' l' a Hpool' Hl') as (s'' & Hrun'' & _).
    + rewrite Hps. exact Hi'.
    + apply Hnz, Hmm.
    + exists s''. rewrite Hrun'', Hps, Hp. reflexivity.
Qed.

Lemma fsync_create_semaphore_caches_witness :
  pool_wf initialised_state /\ cache_wf LP64 initialised_state /\
  type (record_at initialised_state (handle_to_index LP64 8)) = 0 /\
  exists p s',
    fsync_create_semaphore LP64 create_env_success 0 0 5 initialised_state
    = Ret (STATUS_SUCCESS, Some 8) s' /\
    read_cached LP64 8 s' = Some {| type := FSYNC_SEMAPHORE; shm := p |} /\
    forall e2, exists s'', get_shm LP64 e2 7 s' = Ret p s''.
Proof.
  assert (Hc : cache_wf LP64 initialised_state)
    by (apply cache_wfb_sound; vm_compute; reflexivity).
  split; [apply pool_wf_initialised |]. split; [exact Hc |]. split; [reflexivity |].
  apply (fsync_create_semaphore_caches LP64 create_env_success 0 0 5 initialised_state
           pool_wf_initialised Hc eq_refl (or_introl eq_refl) (or_intror eq_refl)).
  - discriminate.
  - reflexivity.
  - intros; reflexivity.
  - reflexivity.
Defined.

(** X12. [create_fsync] never replaces a published record.  When the
    handle of the reply already has a record of nonzero type in the cache
    (a handle value that was cached before), the call returns the status
    and the handle as usual, but the cache keeps the old type and the old
    shm pointer for it, whatever type was asked for and whatever slot the
    reply names. *)
Theorem create_fsync_keeps_published dm e ty access low high s :
  let st := reply_status (server e) in
  let handle := reply_handle (server e) in
  pool_wf s -> cache_wf dm s ->
  alloc_object_attributes_status e = 0 ->
  st = 0 \/ st = STATUS_OBJECT_NAME_EXISTS ->
  shm_entry (reply_shm_idx (server e)) (pagesize s) < shm_addrs_size s
  \/ realloc_ok (shm_os e) = true ->
  type (record_at s (handle_to_index dm handle)) <> 0 ->
  exists s',
    create_fsync dm e ty access low high s = Ret (st, Some handle) s' /\
    record_at s' (handle_to_index dm handle) = record_at s (handle_to_index dm handle) /\
    read_cached dm handle s' = read_cached dm handle s.
Proof.
  intros st handle Hpool Hcache Ha Hst Hcase Hpub.
  destruct (create_fsync_run dm e ty access low high s Hpool Hcache Ha Hst Hcase)
    as (p & r & s' & l' & a & Hrun & _ & Hcache' & _ & _ & _ & _ & _ & _ & Hrec & _).
  fold st handle in Hrun, Hrec.
  assert (Hsame : record_at s' (handle_to_index dm handle)
                  = record_at s (handle_to_index dm handle)).
  { rewrite Hrec. destruct (decide (r = Some (handle_to_index dm handle)));
      [apply published_nonzero, Hpub | reflexivity]. }
  exists s'. split; [exact Hrun |]. split; [exact Hsame |].
  rewrite (read_cached_eq dm handle s' Hcache'), (read_cached_eq dm handle s Hcache), Hsame.
  reflexivity.
Qed.

Lemma create_fsync_keeps_published_witness :
  pool_wf one_created_state /\ cache_wf LP64 one_created_state /\
  type (record_at one_created_state (handle_to_index LP64 8)) <> 0 /\
  exists s',
    create_fsync LP64 create_env_reused_handle FSYNC_SEMAPHORE 0 1 9 one_created_state
    = Ret (STATUS_OBJECT_NAME_EXISTS, Some 8) s' /\
    record_at s' (handle_to_index LP64 8)
    = record_at one_created_state (handle_to_index LP64 8) /\
    read_cached LP64 8 s' = read_cached LP64 8 one_created_state.
Proof.
  assert (Hp : pool_wf one_created_state).
  { split; [vm_compute; split; discriminate |]. eexists. split; reflexivity. }
  assert (Hc : cache_wf LP64 one_created_state)
    by (apply cache_wfb_sound; vm_compute; reflexivity).
  assert (Ht : type (record_at one_created_state (handle_to_index LP64 8)) <> 0)
    by (vm_compute; discriminate).
  split; [exact Hp |]. split; [exact Hc |]. split; [exact Ht |].
  apply (create_fsync_keeps_published LP64 create_env_reused_handle FSYNC_SEMAPHORE 0 1 9
           one_created_state Hp Hc eq_refl (or_intror eq_refl) (or_intror eq_refl) Ht).
Defined.

(** * Further properties of the race on a page *)

Lemma race_step_slot_stable dm mmap_of offset t c :
  slot c <> 0 -> slot (race_step dm mmap_of offset t c) = slot c.
Proof.
  intros Hnz. unfold race_step.
  destruct t; cbn [thread_pc];
    [destruct (thread1 c) | destruct (thread2 c)];
    repeat match goal with
           | |- context [slot c =? 0] => destruct (Z.eqb_spec (slot c) 0); [contradiction |]
           | |- context [if ?b then _ else _] => destruct b
           end;
    reflexivity.
Qed.

Lemma race_run_slot_stable dm mmap_of offset more : forall c,
  slot c <> 0 -> slot (race_run dm mmap_of offset more c) = slot c.
Proof.
  induction more as [| t rest IH]; intros c Hnz; [reflexivity |].
  cbn [race_run]. rewrite IH by (rewrite race_step_slot_stable; assumption).
  apply race_step_slot_stable, Hnz.
Qed.

Lemma race_run_app dm mmap_of offset sched more c :
  race_run dm mmap_of offset (sched ++ more) c
  = race_run dm mmap_of offset more (race_run dm mmap_of offset sched c).
Proof.
  revert c. induction sched as [| t rest IH]; intros c; [reflexivity |].
  cbn [app race_run]. apply IH.
Qed.

(** X13. In the race of two threads for a page, at every point of every
    schedule: the address in the slot, once there, is never replaced; it
    is the address of a live mapping, so the loser's [munmap] never takes
    away the published page; and nothing is mapped but what the two [mmap]
    calls returned.  (Both [mmap] calls succeeded, with distinct
    addresses.) *)
Theorem race_published_page_stays_mapped dm mmap_of offset sched :
  mmap_of T1 <> 0 -> mmap_of T2 <> 0 -> mmap_of T1 <> mmap_of T2 ->
  mmap_of T1 <> MAP_FAILED dm -> mmap_of T2 <> MAP_FAILED dm ->
  let c := race_run dm mmap_of offset sched race_start in
  (slot c = 0 \/ slot c = mmap_of T1 \/ slot c = mmap_of T2) /\
  (slot c <> 0 -> slot c ∈ mappings c) /\
  (forall x, x ∈ mappings c -> x = mmap_of T1 \/ x = mmap_of T2) /\
  (slot c <> 0 -> forall more,
     slot (race_run dm mmap_of offset (sched ++ more) race_start) = slot c).
Proof.
  intros H1 H2 Hd F1 F2 c.
  pose proof (race_results_inv_run dm mmap_of offset sched race_start H1 H2
                (race_results_inv_start dm mmap_of offset)) as [Hs _].
  pose proof (race_maps_inv_run dm mmap_of offset sched race_start H1 H2 Hd F1 F2
                (race_results_inv_start dm mmap_of offset)
                (race_maps_inv_start mmap_of H1 H2)) as [_ Hmap].
  fold c in Hs, Hmap. split; [exact Hs |]. split; [| split].
  - intros Hnz. apply Hmap. unfold holds_mapping.
    destruct Hs as [? | [Hs | Hs]]; [contradiction | left | right];
      (split; [exact Hs |]); rewrite Hs, Z.eqb_refl; apply orb_true_r.
  - intros x Hx. apply Hmap in Hx as [[? _] | [? _]]; [left | right]; assumption.
  - intros Hnz more. rewrite race_run_app. apply race_run_slot_stable, Hnz.
Qed.

Lemma race_published_page_stays_mapped_witness :
  let mmap_of := fun t => match t with T1 => 4096 | T2 => 8192 end in
  let c := race_run LP64 mmap_of 320 [T1; T2; T1; T2; T2] race_start in
  slot c = 8192 /\ thread1 c = AtCas 4096 /\
  (slot c <> 0 -> slot c ∈ mappings c) /\
  (forall x, x ∈ mappings c -> x = 4096 \/ x = 8192) /\
  (slot c <> 0 -> forall more,
     slot (race_run LP64 mmap_of 320 ([T1; T2; T1; T2; T2] ++ more) race_start) = slot c).
Proof.
  intros mmap_of c.
  destruct (race_published_page_stays_mapped LP64 mmap_of 320 [T1; T2; T1; T2; T2])
    as (_ & Hin & Hsub & Hstable); try discriminate.
  split; [reflexivity |]. split; [reflexivity |].
  split; [exact Hin |]. split; [exact Hsub | exact Hstable].
Defined.

(** * Further properties of the feature gate and of initialisation *)

(** X14. The first call of [do_fsync] in a process enables the subsystem
    exactly when WINEFSYNC is set, [atoi] of its value is not 0, and
    [errno], read after [atoi] has run, is not ENOSYS; otherwise it returns
    0.  So an unset variable or a value that reads as 0 disables it; a
    kernel without the futex operation (ENOSYS after the probe) disables it
    when [atoi] leaves [errno] alone, but not when [atoi] overwrites
    [errno] with another value.  The call records its decision and touches
    neither the page pool nor the handle cache. *)
Theorem do_fsync_decision e s :
  do_fsync_cached s = -1 ->
  exists v s',
    do_fsync e s = Ret v s' /\
    (v = 0 \/ v = 1) /\
    (v = 1 <->
     exists value, getenv_WINEFSYNC e = Some value /\ atoi e value <> 0 /\
                   errno_read e value <> ENOSYS) /\
    (forall value, getenv_WINEFSYNC e = Some value ->
       atoi_errno e value = None -> errno_after_probe e = ENOSYS -> v = 0) /\
    (forall value x, getenv_WINEFSYNC e = Some value -> atoi e value <> 0 ->
       atoi_errno e value = Some x -> x <> ENOSYS -> v = 1) /\
    do_fsync_cached s' = v /\
    shm_addrs s' = shm_addrs s /\ shm_addrs_size s' = shm_addrs_size s /\
    pagesize s' = pagesize s /\ fsync_list s' = fsync_list s.
Proof.
  intros Hfresh.
  destruct (do_fsync_first e s Hfresh) as (s' & Hrun & Hc & _ & _ & _ & E1 & E2 & E3 & E4).
  exists (fsync_enabled_value e), s'. split; [exact Hrun |].
  split; [apply fsync_enabled_value_bool |].
  assert (Hiff : fsync_enabled_value e = 1 <->
     exists value, getenv_WINEFSYNC e = Some value /\ atoi e value <> 0 /\
                   errno_read e value <> ENOSYS).
  { unfold fsync_enabled_value. destruct (getenv_WINEFSYNC e) as [value|].
    - destruct (Z.eqb_spec (atoi e value) 0) as [Hz | Hnz].
      + split; [discriminate |]. intros (v' & Hv & Hn & _). injection Hv as <-. contradiction.
      + destruct (Z.eqb_spec (errno_read e value) ENOSYS) as [He | Hne].
        * split; [discriminate |]. intros (v' & Hv & _ & Hn). injection Hv as <-. contradiction.
        * split; [| reflexivity]. intros _. exists value. repeat split; assumption.
    - split; [discriminate |]. intros (v' & Hv & _). discriminate. }
  split; [exact Hiff |]. split; [| split].
  - intros value Hv Hnone Hsys.
    destruct (fsync_enabled_value_bool e) as [H0 | H1]; [exact H0 |].
    apply Hiff in H1 as (v' & Hv' & _ & Hn). rewrite Hv in Hv'. injection Hv' as <-.
    unfold errno_read in Hn. rewrite Hnone in Hn. contradiction.
  - intros value x Hv Hnz Hx Hne. apply Hiff. exists value.
    split; [exact Hv |]. split; [exact Hnz |]. unfold errno_read. rewrite Hx. exact Hne.
  - repeat split; assumption.
Qed.

Lemma do_fsync_decision_witness :
  let e := {| getenv_WINEFSYNC := Some "99999999999999999999"%string;
              atoi := fun _ => -1; atoi_errno := fun _ => Some 34;
              errno_after_probe := ENOSYS |} in
  do_fsync_cached initial_state = -1 /\
  exists s', do_fsync e initial_state = Ret 1 s' /\ do_fsync_cached s' = 1 /\
             do_fsync env_disabled initial_state
             = Ret 0 (set_do_fsync_cached 0
                        (add_event (EvGetenv "WINEFSYNC")
                           (add_event (EvFutexWaitMultiple 0) initial_state))).
Proof.
  intros e. split; [reflexivity |].
  destruct (do_fsync_decision e initial_state eq_refl)
    as (v & s' & Hrun & _ & _ & _ & Hover & Hc & _).
  assert (Hv : v = 1).
  { apply (Hover "99999999999999999999"%string 34); try reflexivity; discriminate. }
  exists s'. rewrite Hv in Hrun, Hc.
  split; [exact Hrun |]. split; [exact Hc | reflexivity].
Defined.

(** X15. [fsync_init] in a process with the subsystem enabled, when the
    shared memory file cannot be opened: the process logs a diagnostic,
    the one about stale servers when [errno] is ENOENT and the general one
    otherwise, and calls [exit(1)]; the page size and the array of page
    pointers are not set up and no request has gone to the server.  A
    failure of [stat] alone does not stop the initialisation: it is logged
    and the pool is set up all the same. *)
Theorem fsync_init_open_failure dm e s v s1 :
  do_fsync (gate e) s = Ret v s1 -> v <> 0 ->
  (shm_open_ret e = -1 ->
   exists s',
     fsync_init dm e s = Exit 1 s' /\
     hd_error (log s')
     = Some (EvERR (if shm_open_errno e =? ENOENT then diag_no_shm
                    else "Failed to initialize shared memory: %s")) /\
     pagesize s' = pagesize s1 /\ shm_addrs s' = shm_addrs s1 /\
     shm_addrs_size s' = shm_addrs_size s1 /\
     count_server_calls (log s') = count_server_calls (log s1)) /\
  (shm_open_ret e <> -1 -> stat_ok e = false ->
   exists s',
     fsync_init dm e s = Ret tt s' /\
     log s' = EvERR "Cannot stat %s" :: log s1 /\
     pagesize s' = sysconf_pagesize e /\ shm_addrs_size s' = 128).
Proof.
  intros Hgate Hv. rewrite (fsync_init_enabled dm e s v s1 Hgate Hv). cbv zeta. split.
  - intros Hopen. rewrite Hopen. cbn [Z.eqb Pos.eqb]. eexists. split; [reflexivity |].
    split; [reflexivity |]. destruct (stat_ok e); repeat split.
  - intros Hopen Hstat. destruct (Z.eqb_spec (shm_open_ret e) (-1)); [contradiction |].
    rewrite Hstat. eexists. split; [reflexivity |]. repeat split.
Qed.

Lemma fsync_init_open_failure_witness :
  let e := {| gate := env_enabled; probe_create := create_env_not_implemented;
              stat_ok := false; st_ino := 1234; shm_open_ret := -1;
              shm_open_errno := ENOENT; sysconf_pagesize := 4096; calloc_ok := true |} in
  exists s1 s',
    do_fsync (gate e) initial_state = Ret 1 s1 /\
    fsync_init LP64 e initial_state = Exit 1 s' /\
    hd_error (log s') = Some (EvERR diag_no_shm) /\
    pagesize s' = 0 /\ shm_addrs s' = None.
Proof.
  intros e.
  destruct (fsync_init_open_failure LP64 e initial_state 1 _ eq_refl) as [Hfail _];
    [discriminate |].
  destruct (Hfail eq_refl) as (s' & H1 & H2 & H3 & H4 & _).
  eexists _, s'. split; [reflexivity |]. split; [exact H1 |]. split; [exact H2 |].
  split; [exact H3 | exact H4].
Defined.
